(** * ASC LA peer groups: the transformation and distance engine of [src/model.py]

    A shallow embedding of [transform_data], [_transform_var],
    [_normalise_var], [_get_best_gaussian_transformation],
    [create_pairwise_distance_df] and [calculate_distance], together with
    the parts of pandas, scikit-learn and SciPy those functions call.

    Modelling conventions.
    - Numeric cells are exact rationals ([Q]); rounding, NaN and infinities
      of binary64 are outside the model.
    - A pandas [DataFrame] is a row count and an ordered list of labelled
      columns.  A column is either a string column or a numeric column.
    - Python objects that are mutated in place live in an object store
      ([heap]); a [DataFrame] variable of the source is a reference into it.
    - A raised Python exception is the [Raise] outcome of a computation; the
      effects performed before the exception stay. *)

From Stdlib Require Import QArith Qabs Qminmax Lqa Lia String Ascii Sorted Permutation.
From stdpp Require Import base option list strings pretty gmap.

Local Open Scope string_scope.
Local Open Scope Q_scope.
Local Open Scope list_scope.

(** ** Exceptions and outcomes *)

Inductive exn : Type :=
| KeyError (label : string)
| ValueError (what : string)
| TypeError (what : string)
| IndexError (what : string)
| AttributeError (what : string)
| FileNotFoundError (path : string).

Inductive result (A : Type) : Type :=
| Ok (a : A)
| Raise (e : exn).
Arguments Ok {A} a.
Arguments Raise {A} e.

Definition is_ok {A} (r : result A) : bool :=
  match r with Ok _ => true | Raise _ => false end.

Definition failed {A} (r : result A) : Prop :=
  match r with Ok _ => False | Raise _ => True end.

#[global] Instance result_ret : MRet result := fun _ a => Ok a.
#[global] Instance result_bind : MBind result := fun _ _ f m =>
  match m with Ok a => f a | Raise e => Raise e end.

Definition of_option {A} (o : option A) (e : exn) : result A :=
  match o with Some a => Ok a | None => Raise e end.

(** ** Tables *)

Inductive cell : Type :=
| Str (s : string)
| Num (q : Q).

(** A column ([pd.Series] without its index): one cell per row. *)
Abbreviation series := (list cell).

Definition cell_eqb (a b : cell) : bool :=
  match a, b with
  | Str s, Str t => bool_decide (s = t)
  | Num p, Num q => Qeq_bool p q
  | _, _ => false
  end.

Definition same_kind (a b : cell) : bool :=
  match a, b with
  | Str _, Str _ | Num _, Num _ => true
  | _, _ => false
  end.

(** Python's [<] on two strings or on two numbers; a string and a number
    do not compare in Python, so callers check [same_kind] first and the
    order of a string against a number is only there to make it total. *)
Definition cell_compare (a b : cell) : comparison :=
  match a, b with
  | Str s, Str t => String.compare s t
  | Num p, Num q => p ?= q
  | Str _, Num _ => Lt
  | Num _, Str _ => Gt
  end.

Definition Qltb (x y : Q) : bool := negb (Qle_bool y x).

(** [s.take(idx)]: the rows of [s] at the positions [idx], in that order. *)
Definition take_rows (idx : list nat) (s : series) : series :=
  omap (fun i => s !! i) idx.

Record DataFrame : Type := mkDF {
  nrows : nat;
  columns : list (string * series)
}.

Definition labels (df : DataFrame) : list string := map fst (columns df).

(** Every column is as long as the index; pandas maintains this. *)
Definition wf_df (df : DataFrame) : Prop :=
  Forall (fun c => length (snd c) = nrows df) (columns df).

Definition has_label (l : string) (df : DataFrame) : bool :=
  bool_decide (l ∈ labels df).

Definition find_columns (l : string) (cs : list (string * series)) : list series :=
  map snd (filter (fun c => fst c = l) cs).

(** [df[l]] for one label: the column when the label occurs once.  With a
    repeated label pandas hands back a frame, on which the series operations
    of the callers raise. *)
Definition getitem (l : string) (df : DataFrame) : result series :=
  match find_columns l (columns df) with
  | [] => Raise (KeyError l)
  | [s] => Ok s
  | _ => Raise (ValueError ("label not unique: " +:+ l))
  end.

(** [df[ls]] for a list of labels: a new frame with those columns, in the
    order asked (a repeated label is taken with all its columns). *)
Fixpoint select_columns (ls : list string) (cs : list (string * series))
  : result (list (string * series)) :=
  match ls with
  | [] => Ok []
  | l :: ls' =>
      match find_columns l cs with
      | [] => Raise (KeyError l)
      | ss => rest ← select_columns ls' cs;
              Ok (map (pair l) ss ++ rest)
      end
  end.

Definition getitems (ls : list string) (df : DataFrame) : result DataFrame :=
  cs ← select_columns ls (columns df);
  Ok (mkDF (nrows df) cs).

(** [df[l] = s]: replaces every column labelled [l], or appends a new last
    column; raises when the value is not as long as the index. *)
Definition setitem (l : string) (s : series) (df : DataFrame) : result DataFrame :=
  if negb (length s =? nrows df)%nat then
    Raise (ValueError "Length of values does not match length of index")
  else if has_label l df then
    Ok (mkDF (nrows df)
             (map (fun c => if decide (fst c = l) then (l, s) else c) (columns df)))
  else
    Ok (mkDF (nrows df) (columns df ++ [(l, s)])).

(** A numeric view of a column; string data makes numeric code raise. *)
Fixpoint as_float (s : series) : result (list Q) :=
  match s with
  | [] => Ok []
  | Num q :: s' => v ← as_float s'; Ok (q :: v)
  | Str _ :: _ => Raise (TypeError "could not convert string to float")
  end.

Definition of_float (v : list Q) : series := map Num v.

(** [pd.DataFrame(rows, columns=cols)] for a list of rows.  An empty list
    gives an empty frame with the columns asked; otherwise the rows must be
    as wide as [cols]. *)
Definition frame_of_rows (cols : list string) (rows : list (list cell))
  : result DataFrame :=
  match rows with
  | [] => Ok (mkDF 0 (map (fun c => (c, [])) cols))
  | _ =>
      if forallb (fun r => length r =? length cols)%nat rows then
        Ok (mkDF (length rows)
                 (imap (fun j c => (c, omap (fun r => r !! j) rows)) cols))
      else
        Raise (ValueError "columns passed do not match the width of the data")
  end.

(** [left.merge(right, on=on, how=inner)].  Each key label must name one
    column on both sides.  Rows are paired when all their keys are equal, in
    the order of the left rows; a label that is on both sides and is not a
    key gets the suffixes [_x] and [_y]. *)
Definition key_at (keys : list series) (i : nat) : list (option cell) :=
  map (fun s => s !! i) keys.

Definition key_eqb (a b : list (option cell)) : bool :=
  forallb (fun p => match p with
                    | (Some x, Some y) => cell_eqb x y
                    | _ => false
                    end) (zip a b).

Definition join_pairs (lk rk : list series) (nl nr : nat) : list (nat * nat) :=
  i ← seq 0 nl;
  j ← filter (fun j => key_eqb (key_at lk i) (key_at rk j) = true) (seq 0 nr);
  [(i, j)].

Definition merge (left right : DataFrame) (on : list string) : result DataFrame :=
  lk ← mapM (M := result) (fun l => getitem l left) on;
  rk ← mapM (M := result) (fun l => getitem l right) on;
  let pairs := join_pairs lk rk (nrows left) (nrows right) in
  let clash (l : string) : bool :=
    bool_decide (l ∉ on) && has_label l left && has_label l right in
  let lcols :=
    map (fun c => (if clash (fst c) then fst c +:+ "_x" else fst c,
                   take_rows (pairs.*1) (snd c))) (columns left) in
  let rcols :=
    map (fun c => (if clash (fst c) then fst c +:+ "_y" else fst c,
                   take_rows (pairs.*2) (snd c)))
        (filter (fun c => fst c ∉ on) (columns right)) in
  Ok (mkDF (length pairs) (lcols ++ rcols)).

(** ** The numeric libraries *)

(** The numerical routines of SciPy and NumPy whose values are not
    rational.  [shapiro_pvalue x] is [shapiro(x).pvalue];
    [yeojohnson_mle x] and [boxcox_mle x] are the data transformed at the
    maximum-likelihood exponent; any of the three can raise.  [pdist_metric]
    maps a metric name of [scipy.spatial.distance.pdist] to its function. *)
Record Kernel : Type := mkKernel {
  shapiro_pvalue : list Q -> result Q;
  yeojohnson_mle : list Q -> result (list Q);
  boxcox_mle : list Q -> result (list Q);
  power_half : Q -> Q;
  log1p : Q -> Q;
  power_neg_half : Q -> Q;
  pdist_metric : string -> option (list Q -> list Q -> Q)
}.

Definition list_min (v : list Q) : option Q :=
  match v with
  | [] => None
  | x :: xs => Some (fold_left Qmin xs x)
  end.

Definition list_max (v : list Q) : option Q :=
  match v with
  | [] => None
  | x :: xs => Some (fold_left Qmax xs x)
  end.

(** [sklearn.preprocessing._data._handle_zeros_in_scale]: a zero range is
    replaced by one, so that a constant column is not divided by zero. *)
Definition _handle_zeros_in_scale (scale : Q) : Q :=
  if Qeq_bool scale 0 then 1 else scale.

(** [MinMaxScaler(feature_range=(lo, hi)).fit_transform(x)] on one column. *)
Definition MinMaxScaler_fit_transform (lo hi : Q) (x : list Q) : result (list Q) :=
  if Qle_bool hi lo then
    Raise (ValueError "Minimum of desired feature range must be smaller than maximum")
  else
    match list_min x, list_max x with
    | Some data_min, Some data_max =>
        let data_range := data_max - data_min in
        let scale_ := (hi - lo) / _handle_zeros_in_scale data_range in
        let min_ := lo - data_min * scale_ in
        Ok (map (fun v => v * scale_ + min_) x)
    | _, _ => Raise (ValueError "Found array with 0 sample(s)")
    end.

(** [y, lam = yeojohnson(x)]: on an empty array SciPy returns the array
    alone and the unpacking raises. *)
Definition yeojohnson (K : Kernel) (x : list Q) : result (list Q) :=
  match x with
  | [] => Raise (ValueError "not enough values to unpack")
  | _ => yeojohnson_mle K x
  end.

Definition boxcox (K : Kernel) (x : list Q) : result (list Q) :=
  match x with
  | [] => Raise (ValueError "not enough values to unpack")
  | _ => boxcox_mle K x
  end.

(** [max(d, key=d.get)] over the items of a dict in insertion order: the
    first key whose value no later value exceeds. *)
Fixpoint max_from (best : string * Q) (rest : list (string * Q)) : string * Q :=
  match rest with
  | [] => best
  | c :: rest' =>
      if Qltb (snd best) (snd c) then max_from c rest' else max_from best rest'
  end.

Definition py_max_key (items : list (string * Q)) : result string :=
  match items with
  | [] => Raise (ValueError "max() arg is an empty sequence")
  | c :: rest => Ok (fst (max_from c rest))
  end.

(** ** Statements that act on one table in place *)

(** A computation over the table object it mutates: it sees the current
    table, may replace it, and either returns or raises. *)
Definition D (A : Type) : Type := DataFrame -> result A * DataFrame.

#[global] Instance D_ret : MRet D := fun _ a df => (Ok a, df).
#[global] Instance D_bind : MBind D := fun _ _ f m df =>
  match m df with
  | (Ok a, df') => f a df'
  | (Raise e, df') => (Raise e, df')
  end.

Definition pure_of {A} (r : result A) : D A := fun df => (r, df).
Definition read {A} (f : DataFrame -> result A) : D A := fun df => (f df, df).
Definition assign (l : string) (s : series) : D unit := fun df =>
  match setitem l s df with
  | Ok df' => (Ok tt, df')
  | Raise e => (Raise e, df)
  end.

(** [for x in xs: body] *)
Fixpoint for_each {M : Type -> Type} `{MBind M, MRet M} {A}
    (xs : list A) (body : A -> M unit) : M unit :=
  match xs with
  | [] => mret tt
  | x :: xs' => body x ≫= fun _ => for_each xs' body
  end.

(** [df[l]] read as numbers. *)
Definition floats (l : string) : D (list Q) :=
  s ← read (getitem l); pure_of (as_float s).

Module InPlace.

Section Stages.
Context (K : Kernel).

(** The body of [_transform_var] (model.py 208-227) on the table [df]. *)
Definition _transform_var (feature : string) : D bool :=
  x ← floats feature;
  let greater_than_zero :=
    match list_min x with Some m => Qltb 0 m | None => false end in
  x ← floats feature;
  yj ← pure_of (yeojohnson K x);
  assign (feature +:+ "_yj") (of_float yj);;
  x ← floats feature;
  assign (feature +:+ "_sqrr") (of_float (map (power_half K) x));;
  x ← floats feature;
  assign (feature +:+ "_log") (of_float (map (log1p K) x));;
  x ← floats feature;
  assign (feature +:+ "_squared") (of_float (map (fun v => v * v) x));;
  (if greater_than_zero then
     x ← floats feature;
     bc ← pure_of (boxcox K x);
     assign (feature +:+ "_bc") (of_float bc);;
     x ← floats feature;
     assign (feature +:+ "_recip_sqrr") (of_float (map (power_neg_half K) x));;
     x ← floats feature;
     assign (feature +:+ "_recip") (of_float (map (fun v => 1 / v) x))
   else mret tt);;
  mret greater_than_zero.

(** The body of [_normalise_var] (model.py 179-185). *)
Definition _normalise_var (weight : Q) (key_columns : list string) : D unit :=
  cols ← read (fun df => Ok (labels df));
  for_each cols (fun column =>
    if bool_decide (column ∉ key_columns) then
      x ← floats column;
      scaled ← pure_of (MinMaxScaler_fit_transform 0 weight x);
      assign column (of_float scaled)
    else mret tt).

(** The dict comprehension of model.py 141-145. *)
Fixpoint p_values_of (cols : list string) (key_columns : list string)
  : D (list (string * Q)) :=
  match cols with
  | [] => mret []
  | column :: cols' =>
      if bool_decide (column ∉ key_columns) then
        x ← floats column;
        p ← pure_of (shapiro_pvalue K x);
        rest ← p_values_of cols' key_columns;
        mret ((column, p) :: rest)
      else p_values_of cols' key_columns
  end.

(** The body of [_get_best_gaussian_transformation] (model.py 141-153). *)
Definition _get_best_gaussian_transformation
    (feature : string) (key_columns : list string) : D unit :=
  cols ← read (fun df => Ok (labels df));
  p_values ← p_values_of cols key_columns;
  max_p_col ← pure_of (py_max_key p_values);
  best ← read (getitem max_p_col);
  assign (feature +:+ "_best") best.

End Stages.
End InPlace.

(** ** Object store, files and the pipeline monad *)

Definition ref : Type := nat.

Inductive file_kind : Type := CsvFile | FigureFile.

#[global] Instance file_kind_eq_dec : EqDecision file_kind.
Proof. solve_decision. Defined.

(** [heap] holds the tables that variables refer to; [csv_files] the CSV
    files on disk by path; [written] the files written so far, each with
    its folder and its name, the most recent first. *)
Record world : Type := mkWorld {
  heap : gmap nat DataFrame;
  next_ref : nat;
  csv_files : gmap string DataFrame;
  written : list (file_kind * string * string)
}.

Definition M (A : Type) : Type := world -> result A * world.

#[global] Instance M_ret : MRet M := fun _ a w => (Ok a, w).
#[global] Instance M_bind : MBind M := fun _ _ f m w =>
  match m w with
  | (Ok a, w') => f a w'
  | (Raise e, w') => (Raise e, w')
  end.

Definition lift {A} (r : result A) : M A := fun w => (r, w).

Definition new_object (df : DataFrame) : M ref := fun w =>
  (Ok (next_ref w),
   mkWorld (<[next_ref w := df]> (heap w)) (S (next_ref w)) (csv_files w) (written w)).

Definition load (r : ref) : M DataFrame := fun w =>
  (of_option (heap w !! r) (AttributeError "no such object"), w).

(** Runs statements that mutate the table behind [r]; what they did to it
    stays, also when they raise. *)
Definition on_object {A} (r : ref) (body : D A) : M A := fun w =>
  match heap w !! r with
  | Some df =>
      let '(res, df') := body df in
      (res, mkWorld (<[r := df']> (heap w)) (next_ref w) (csv_files w) (written w))
  | None => (Raise (AttributeError "no such object"), w)
  end.

Definition joinpath (dir name : string) : string := dir +:+ "/" +:+ name.

(** [pd.read_csv(path)] *)
Definition read_csv (path : string) : M ref := fun w =>
  match csv_files w !! path with
  | Some df => new_object df w
  | None => (Raise (FileNotFoundError path), w)
  end.

Definition write_csv (dir name : string) (d : DataFrame) : M unit := fun w =>
  (Ok tt, mkWorld (heap w) (next_ref w) (<[joinpath dir name := d]> (csv_files w))
                  ((CsvFile, dir, name) :: written w)).

(** [df.to_csv(Path(dir).joinpath(name), index=False)] *)
Definition to_csv (df : ref) (dir name : string) : M unit :=
  d ← load df; write_csv dir name d.

(** [fig.savefig(Path(dir).joinpath(name))] *)
Definition savefig (dir name : string) : M unit := fun w =>
  (Ok tt, mkWorld (heap w) (next_ref w) (csv_files w)
                  ((FigureFile, dir, name) :: written w)).

(** [df[ls]], [df.copy()] and [left.merge(right, on=..., how=inner)] each
    build a new table. *)
Definition select (df : ref) (ls : list string) : M ref :=
  d ← load df; d' ← lift (getitems ls d); new_object d'.

Definition copy (df : ref) : M ref :=
  d ← load df; new_object d.

Definition merge_new (left right : ref) (on : list string) : M ref :=
  l ← load left; r ← load right; m ← lift (merge l r on); new_object m.

(** A [for] loop that rebinds one local variable. *)
Fixpoint fold_loop {A B} (body : B -> A -> M B) (acc : B) (xs : list A) : M B :=
  match xs with
  | [] => mret acc
  | x :: xs' => acc' ← body acc x; fold_loop body acc' xs'
  end.

(** ** [src/params.py] *)

Module params.
Definition data_folder := "data".
Definition output_folder := "output".
Definition primary_folder := "primary".
Definition report_folder := "reports".
Definition transformations_folder := "transformations".
Definition aggregated_file := "aggregated.csv".
Definition example_utlas : list string :=
  [ "Cheshire West and Chester"; "Harrow"; "Herefordshire"; "Lambeth";
    "Norfolk"; "North East Lincolnshire"; "Plymouth"; "Reading";
    "South Tyneside"; "Leeds" ].
End params.

Definition INPUT_PATH : string := joinpath params.data_folder params.primary_folder.
Definition OUTPUT_PATH : string := params.output_folder.

(** ** [transform_data] and its stages *)

Section Transform.
Context (K : Kernel).

(** The three stage functions return the table they were given. *)
Definition _transform_var (df : ref) (feature : string) : M (ref * bool) :=
  greater_than_zero ← on_object df (InPlace._transform_var K feature);
  mret (df, greater_than_zero).

Definition _normalise_var (df : ref) (weight : Q) (key_columns : list string) : M ref :=
  on_object df (InPlace._normalise_var weight key_columns);;
  mret df.

Definition _get_best_gaussian_transformation
    (df : ref) (feature : string) (key_columns : list string) : M ref :=
  on_object df (InPlace._get_best_gaussian_transformation K feature key_columns);;
  mret df.

(** [report.transformation_report]: reads the variant columns for the
    histograms and saves one figure in two folders. *)
Definition transformation_report
    (output : string) (df : ref) (feature : string)
    (normalise greater_than_zero : bool) : M unit :=
  d ← load df;
  lift (getitem feature d);;
  lift (getitem (feature +:+ "_sqrr") d);;
  lift (getitem (feature +:+ "_yj") d);;
  lift (getitem (feature +:+ "_log") d);;
  lift (getitem (feature +:+ "_squared") d);;
  (if greater_than_zero then
     lift (getitem (feature +:+ "_recip_sqrr") d);;
     lift (getitem (feature +:+ "_bc") d);;
     lift (getitem (feature +:+ "_recip") d);;
     mret tt
   else mret tt);;
  for_each [joinpath params.report_folder params.transformations_folder; output]
    (fun path => savefig path feature).

(** The name of the column that goes into the output (model.py 99-107). *)
Definition chosen_column
    (custom_transformation : option (gmap string string)) (feature : string) : string :=
  match custom_transformation with
  | Some ct =>
      match ct !! feature with
      | Some code => feature +:+ "_" +:+ code
      | None => feature +:+ "_best"
      end
  | None => feature +:+ "_best"
  end.

(** One turn of the loop over [features.items()] (model.py 72-114). *)
Definition process_feature
    (la_keys : list string) (output_folders : list string)
    (report normalise : bool)
    (custom_transformation : option (gmap string string))
    (df_all : ref) (transformed_output : ref) (item : string * Q) : M ref :=
  let '(feature, weight) := item in
  view ← select df_all (la_keys ++ [feature]);
  df_var ← copy view;
  if Qltb 0 weight then
    '(transformed_data, greater_than_zero) ← _transform_var df_var feature;
    transformed_data ←
      (if normalise then _normalise_var transformed_data weight la_keys
       else mret transformed_data);
    transformed_data ← _get_best_gaussian_transformation transformed_data feature la_keys;
    (if report then
       OUT_TRANS ← lift (of_option (output_folders !! 3%nat)
                                   (IndexError "list index out of range"));
       transformation_report OUT_TRANS transformed_data feature normalise greater_than_zero
     else mret tt);;
    column_to_use ←
      select transformed_data
             (la_keys ++ [chosen_column custom_transformation feature]);
    merge_new transformed_output column_to_use la_keys
  else mret transformed_output.

Definition transform_data
    (la_keys : list string) (output_folders : list string)
    (features : list (string * Q)) (report normalise : bool)
    (custom_transformation : option (gmap string string)) : M ref :=
  df_all ← read_csv (joinpath INPUT_PATH params.aggregated_file);
  view ← select df_all la_keys;
  transformed_output ← copy view;
  transformed_output ←
    fold_loop (process_feature la_keys output_folders report normalise
                               custom_transformation df_all)
              transformed_output features;
  out1 ← lift (of_option (output_folders !! 1%nat) (IndexError "list index out of range"));
  for_each [out1; OUTPUT_PATH]
    (fun path => to_csv transformed_output path "features.csv");;
  mret transformed_output.

End Transform.

(** ** Distances *)

(** [scipy.spatial.distance.pdist]: the distances of the rows [i < j], row
    by row (the condensed form). *)
Fixpoint pdist (metric : list Q -> list Q -> Q) (X : list (list Q)) : list Q :=
  match X with
  | [] => []
  | x :: rest => map (metric x) rest ++ pdist metric rest
  end.

Definition ceil_sqrt (m : nat) : nat :=
  let s := Nat.sqrt m in
  if (s * s =? m)%nat then s else S s.

(** Position of the pair [i < j] in the condensed form of [d] points. *)
Definition condensed_index (d i j : nat) : nat :=
  (d * i - i * (i + 1) / 2 + (j - i - 1))%nat.

(** [scipy.spatial.distance.squareform] on a condensed vector: a zero
    diagonal and each entry of the vector at [(i, j)] and at [(j, i)].  The
    empty vector gives the 1 x 1 zero matrix. *)
Definition square_entry (v : list Q) (d i j : nat) : Q :=
  if (i =? j)%nat then 0
  else default 0 (v !! condensed_index d (Nat.min i j) (Nat.max i j)).

Definition squareform (v : list Q) : result (list (list Q)) :=
  match v with
  | [] => Ok [[0]]
  | _ =>
      let d := ceil_sqrt (2 * length v) in
      if (d * (d - 1) =? 2 * length v)%nat then
        Ok (map (fun i => map (fun j => square_entry v d i j) (seq 0 d)) (seq 0 d))
      else Raise (ValueError "Incompatible vector size")
  end.

(** [df.drop(columns=ls)] *)
Definition drop_columns (ls : list string) (df : DataFrame) : result DataFrame :=
  match filter (fun l => l ∉ labels df) ls with
  | [] => Ok (mkDF (nrows df) (filter (fun c => fst c ∉ ls) (columns df)))
  | l :: _ => Raise (KeyError l)
  end.

(** The rows of an all-numeric table, as [pdist] reads them. *)
Definition to_rows (df : DataFrame) : result (list (list Q)) :=
  mapM (M := result) (fun c => as_float (snd c)) (columns df)
  ≫= fun cols : list (list Q) =>
  Ok (map (fun i => omap (fun col : list Q => col !! i) cols) (seq 0 (nrows df))).

(** A square table of distances whose index and columns carry the same
    labels, [pd.DataFrame(data, index=names, columns=names)]. *)
Record DistMatrix : Type := mkDM {
  dm_labels : list cell;
  dm_data : list (list Q)
}.

Definition labelled_matrix (data : list (list Q)) (names : series)
  : result DistMatrix :=
  if (length data =? length names)%nat
     && forallb (fun row => length row =? length names)%nat data
  then Ok (mkDM names data)
  else Raise (ValueError "Shape of passed values does not match the indices").

Definition entry (dm : DistMatrix) (i j : nat) : option Q :=
  row ← dm_data dm !! i; row !! j.

(** A stable sort: equal keys keep the order they came in. *)
Fixpoint insert_sorted {A} (leb : A -> A -> bool) (x : A) (l : list A) : list A :=
  match l with
  | [] => [x]
  | y :: l' => if leb x y then x :: l else y :: insert_sorted leb x l'
  end.

Definition stable_sort {A} (leb : A -> A -> bool) (l : list A) : list A :=
  foldr (insert_sorted leb) [] l.

(** A row of the long table: [(LA_1, LA_2, distance)]. *)
Definition pair_row : Type := cell * cell * Q.
Definition la_1 (r : pair_row) : cell := r.1.1.
Definition la_2 (r : pair_row) : cell := r.1.2.
Definition distance_of (r : pair_row) : Q := r.2.

(** [dist_matrix_df.stack()] with the index reset: one row per cell of the
    matrix, row by row. *)
Definition stack (dm : DistMatrix) : list pair_row :=
  ar ← zip (dm_labels dm) (dm_data dm);
  bd ← zip (dm_labels dm) ar.2;
  [(ar.1, bd.1, bd.2)].

(** The order of [sort_values(by=[LA_1, distance])]. *)
Definition pair_leb (r1 r2 : pair_row) : bool :=
  match cell_compare (la_1 r1) (la_1 r2) with
  | Lt => true
  | Gt => false
  | Eq => Qle_bool (distance_of r1) (distance_of r2)
  end.

Definition homogeneous (l : list cell) : bool :=
  match l with
  | [] => true
  | c :: l' => forallb (same_kind c) l'
  end.

(** The rows computed by [create_pairwise_distance_df] (model.py 256-270). *)
Definition pairwise_rows (dm : DistMatrix) : result (list pair_row) :=
  let dist_matrix_reshaped := stack dm in
  let dist_matrix_reshaped :=
    filter (fun r => negb (cell_eqb (la_1 r) (la_2 r)) = true) dist_matrix_reshaped in
  if homogeneous (map la_1 dist_matrix_reshaped) then
    Ok (stable_sort pair_leb dist_matrix_reshaped)
  else Raise (TypeError "'<' not supported between instances of 'str' and 'float'").

Definition create_pairwise_distance_df
    (dist_matrix_df : DistMatrix) (la_name : string) (distance_col : string)
  : result DataFrame :=
  rows ← pairwise_rows dist_matrix_df;
  Ok (mkDF (length rows)
           [ (la_name +:+ "_1", map la_1 rows);
             (la_name +:+ "_2", map la_2 rows);
             (distance_col, of_float (map distance_of rows)) ]).

(** ** Peers *)

Definition column_of (dm : DistMatrix) (j : nat) : list Q :=
  omap (fun row : list Q => row !! j) (dm_data dm).

(** [dist_matrix.nsmallest(n, columns=column)], as the labels of the rows
    kept and their value in that column: the [n] smallest, ascending, the
    first occurrences first (keep = first). *)
Definition nsmallest (n : Z) (j : nat) (dm : DistMatrix) : list (cell * Q) :=
  take (Z.to_nat n)
       (stable_sort (fun a b : cell * Q => Qle_bool a.2 b.2)
                    (zip (dm_labels dm) (column_of dm j))).

(** One turn of the loop of model.py 325-330, for the column at position
    [j] with label [column].  A label that names several columns makes
    [nsmallest] raise. *)
Definition peer_row (dm : DistMatrix) (k : Z) (j : nat) (column : cell)
  : result (list cell) :=
  if (length (filter (fun c => cell_eqb column c = true) (dm_labels dm)) =? 1)%nat then
    let closest_distance := nsmallest (k + 1) j dm in
    let closest_k := drop 1 (map fst closest_distance) in
    Ok (column :: closest_k)
  else Raise (AttributeError "'DataFrame' object has no attribute 'dtype'").

Definition n_nearest_neighbours_array (dm : DistMatrix) (k : Z)
  : result (list (list cell)) :=
  mapM (M := result) (fun jc : nat * cell => peer_row dm k jc.1 jc.2)
       (imap pair (dm_labels dm)).

(** The column labels [[la_name] + [i for i in range(1, k + 1)]]. *)
Definition peer_columns (la_name : string) (k : Z) : list string :=
  la_name :: map (fun i => pretty i) (seq 1 (Z.to_nat k)).

(** [final_output.loc[final_output[la_name].isin(example_utlas)]] *)
Definition example_rows (la_name : string) (final_output : DataFrame)
  : result DataFrame :=
  names ← getitem la_name final_output;
  let isin (c : option cell) : bool :=
    match c with
    | Some (Str s) => bool_decide (s ∈ params.example_utlas)
    | _ => false
    end in
  let keep := filter (fun i => isin (names !! i) = true) (seq 0 (nrows final_output)) in
  Ok (mkDF (length keep)
           (map (fun c => (fst c, take_rows keep (snd c))) (columns final_output))).

Section Distance.
Context (K : Kernel).

(** The distance matrix of model.py 305-315. *)
Definition distance_matrix (df : DataFrame) (la_code la_name : string)
    (distance_metric : string) : result DistMatrix :=
  let old_cols := filter (fun col => col ∉ [la_code; la_name]) (labels df) in
  let new_cols := [la_code; la_name] ++ old_cols in
  df ← getitems new_cols df;
  features ← drop_columns [la_code; la_name] df;
  X ← to_rows features;
  metric ← of_option (pdist_metric K distance_metric) (ValueError "Unknown Distance Metric");
  square ← squareform (pdist metric X);
  names ← getitem la_name df;
  labelled_matrix square names.

Definition calculate_distance
    (df : ref) (output_folders : list string) (la_code la_name : string)
    (k : Z) (distance_metric : string) : M unit :=
  d ← load df;
  output ← lift (of_option (output_folders !! 1%nat) (IndexError "list index out of range"));
  dist_matrix ← lift (distance_matrix d la_code la_name distance_metric);
  dist_matrix_reshaped ← lift (create_pairwise_distance_df dist_matrix la_name "distance");
  for_each [output; OUTPUT_PATH]
    (fun path => write_csv path "distances.csv" dist_matrix_reshaped);;
  rows ← lift (n_nearest_neighbours_array dist_matrix k);
  final_output ← lift (frame_of_rows (peer_columns la_name k) rows);
  example_10_output ← lift (example_rows la_name final_output);
  for_each [output; params.output_folder]
    (fun path =>
       write_csv path "peers.csv" final_output;;
       write_csv path "example_peers.csv" example_10_output).

(** [main.py] 41-51: the two calls into the model, with their defaults
    ([normalise] on, no override, the euclidean metric). *)
Definition main (la_code la_name : string) (n_la_peers : Z)
    (feature_weights : list (string * Q)) (folders : list string) : M unit :=
  let la_keys := [la_code; la_name] in
  df ← transform_data K la_keys folders feature_weights true true None;
  calculate_distance df folders la_code la_name n_la_peers "euclidean".

End Distance.

(** ** A kernel to run the model on concrete tables

    The estimators settle on the exponent one, where Yeo-Johnson is the
    identity and Box-Cox is [x - 1]; the irrational functions are replaced
    by rational stand-ins; the p-value is a symmetry score in [0, 1] that,
    like [scipy.stats.shapiro], needs three values.  [cityblock] and
    [sqeuclidean] are exact. *)
Module Sample.

Definition sqrt_standin (x : Q) : Q :=
  Z.sqrt (Qnum x * Z.pos (Qden x)) # Qden x.

Definition log1p_standin (x : Q) : Q := 2 * x / (2 + x).

Definition sum (v : list Q) : Q := foldr Qplus 0 v.

Definition mean (v : list Q) : Q := sum v / inject_Z (Z.of_nat (length v)).

Definition symmetry_score (v : list Q) : result Q :=
  if (length v <? 3)%nat then Raise (ValueError "Data must be at least length 3.")
  else
    match list_min v, list_max v with
    | Some lo, Some hi =>
        if Qeq_bool hi lo then Ok 1
        else Ok (Qred (1 - 2 * Qabs (mean v - (lo + hi) / 2) / (hi - lo)))
    | _, _ => Raise (ValueError "Data must be at least length 3.")
    end.

Definition sqeuclidean (a b : list Q) : Q :=
  sum (zip_with (fun x y => (x - y) * (x - y)) a b).

Definition cityblock (a b : list Q) : Q :=
  sum (zip_with (fun x y => Qabs (x - y)) a b).

Definition kernel : Kernel := {|
  shapiro_pvalue := symmetry_score;
  yeojohnson_mle := fun x => Ok x;
  boxcox_mle := fun x => Ok (map (fun v => v - 1) x);
  power_half := sqrt_standin;
  log1p := log1p_standin;
  power_neg_half := fun x => 1 / sqrt_standin x;
  pdist_metric := fun name =>
    if decide (name = "euclidean") then Some (fun a b => sqrt_standin (sqeuclidean a b))
    else if decide (name = "sqeuclidean") then Some sqeuclidean
    else if decide (name = "cityblock") then Some cityblock
    else None
|}.

End Sample.

(** * Properties *)

(** ** Outcomes *)

Lemma result_bind_ok {A B} (m : result A) (k : A -> result B) (b : B) :
  m ≫= k = Ok b <-> exists a, m = Ok a /\ k a = Ok b.
Proof.
  destruct m as [a|e]; simpl; split.
  - intros Hk. exists a. split; [reflexivity | exact Hk].
  - intros (a' & Ha & Hk). injection Ha as ->. exact Hk.
  - discriminate.
  - intros (a' & Ha & _). discriminate.
Qed.

Lemma failed_not_ok {A} (r : result A) : failed r <-> forall a, r <> Ok a.
Proof.
  destruct r as [a|e]; simpl; split; try tauto; try discriminate.
  intros H. exact (H a eq_refl).
Qed.

(** ** Minimum and maximum of a column *)

Lemma fold_min_le (xs : list Q) (x0 : Q) :
  fold_left Qmin xs x0 <= x0 /\ Forall (fun v => fold_left Qmin xs x0 <= v) xs.
Proof.
  revert x0. induction xs as [|x xs IH]; intros x0; simpl.
  - split; [apply Qle_refl | constructor].
  - destruct (IH (Qmin x0 x)) as [H0 Hall]. split.
    + eapply Qle_trans; [exact H0 | apply Q.le_min_l].
    + constructor; [|exact Hall].
      eapply Qle_trans; [exact H0 | apply Q.le_min_r].
Qed.


Lemma fold_min_in (xs : list Q) (x0 : Q) :
  Exists (fun v => v == fold_left Qmin xs x0) (x0 :: xs).
Proof.
  revert x0. induction xs as [|x xs IH]; intros x0; simpl.
  - left. reflexivity.
  - specialize (IH (Qmin x0 x)). inversion IH as [? ? Hhd|? ? Htl]; subst.
    + destruct (Q.min_dec x0 x) as [E|E].
      * left. rewrite <- Hhd. symmetry. exact E.
      * right. left. rewrite <- Hhd. symmetry. exact E.
    + right. right. exact Htl.
Qed.


(** [list_min] is a lower bound that the column attains; [list_max] an
    upper bound that it attains. *)
Lemma list_min_spec (x : list Q) (lo : Q) :
  list_min x = Some lo ->
  Forall (fun v => lo <= v) x /\ Exists (fun v => v == lo) x.
Proof.
  destruct x as [|x0 xs]; simpl; [discriminate|].
  intros [= <-]. destruct (fold_min_le xs x0) as [H0 Hall].
  split; [constructor; assumption | apply fold_min_in].
Qed.


Lemma list_min_max_some (x : list Q) :
  x <> [] -> exists lo hi, list_min x = Some lo /\ list_max x = Some hi.
Proof. destruct x; [congruence | simpl; eauto]. Qed.

Lemma Qltb_true (x y : Q) : Qltb x y = true <-> x < y.
Proof.
  unfold Qltb. rewrite negb_true_iff. split.
  - intros H. apply Qnot_le_lt. intros Hle.
    apply Qle_bool_iff in Hle. congruence.
  - intros H. destruct (Qle_bool y x) eqn:E; [|reflexivity].
    apply Qle_bool_iff in E. exfalso. exact (Qlt_not_le _ _ H E).
Qed.

Lemma Qltb_false (x y : Q) : Qltb x y = false <-> y <= x.
Proof.
  unfold Qltb. rewrite negb_false_iff. apply Qle_bool_iff.
Qed.

(** ** The scaler *)





(** ** Reading and writing columns *)

Lemma find_columns_cons (l : string) (c : string * series) (cs : list (string * series)) :
  find_columns l (c :: cs) =
  if decide (c.1 = l) then c.2 :: find_columns l cs else find_columns l cs.
Proof.
  unfold find_columns. rewrite filter_cons. destruct (decide (c.1 = l)); reflexivity.
Qed.

Lemma find_columns_app (l : string) (cs1 cs2 : list (string * series)) :
  find_columns l (cs1 ++ cs2) = find_columns l cs1 ++ find_columns l cs2.
Proof. unfold find_columns. rewrite filter_app, map_app. reflexivity. Qed.

Lemma find_columns_notin (l : string) (cs : list (string * series)) :
  l ∉ map fst cs -> find_columns l cs = [].
Proof.
  induction cs as [|c cs IH]; [reflexivity|].
  rewrite find_columns_cons. simpl. intros Hn.
  destruct (decide (c.1 = l)) as [E|E].
  - exfalso. apply Hn. rewrite E. left.
  - apply IH. intros Hin. apply Hn. right. exact Hin.
Qed.

Lemma find_columns_in (l : string) (cs : list (string * series)) :
  l ∈ map fst cs -> find_columns l cs <> [].
Proof.
  induction cs as [|c cs IH]; simpl.
  - intros H. inversion H.
  - rewrite find_columns_cons. intros H.
    destruct (decide (c.1 = l)) as [E|E]; [discriminate|].
    apply IH. inversion H; subst; [contradiction | assumption].
Qed.

Lemma find_columns_nodup (l : string) (cs : list (string * series)) :
  NoDup (map fst cs) -> l ∈ map fst cs ->
  exists s, find_columns l cs = [s] /\ (l, s) ∈ cs.
Proof.
  induction cs as [|c cs IH]; simpl.
  - intros _ H. inversion H.
  - intros Hnd H. apply NoDup_cons in Hnd as [Hc Hnd].
    rewrite find_columns_cons. destruct (decide (c.1 = l)) as [E|E].
    + exists c.2. subst l. rewrite find_columns_notin by exact Hc.
      split; [reflexivity|]. destruct c. left.
    + inversion H; subst; [contradiction|].
      destruct (IH Hnd) as (s & Hs & Hin); [assumption|].
      exists s. split; [exact Hs | right; exact Hin].
Qed.

Lemma getitem_ok_in (l : string) (s : series) (df : DataFrame) :
  getitem l df = Ok s -> (l, s) ∈ columns df.
Proof.
  unfold getitem. destruct df as [n cs]. simpl.
  induction cs as [|c cs IH]; simpl; [discriminate|].
  rewrite find_columns_cons. destruct (decide (c.1 = l)) as [E|E].
  - destruct (find_columns l cs) eqn:F; [|discriminate].
    intros [= <-]. subst l. destruct c. left.
  - intros H. right. apply IH. exact H.
Qed.

Lemma getitem_nodup (l : string) (df : DataFrame) :
  NoDup (labels df) -> l ∈ labels df -> exists s, getitem l df = Ok s.
Proof.
  intros Hnd Hin. destruct (find_columns_nodup l (columns df) Hnd Hin) as (s & Hs & _).
  exists s. unfold getitem. rewrite Hs. reflexivity.
Qed.

Lemma getitem_ok_label (l : string) (s : series) (df : DataFrame) :
  getitem l df = Ok s -> l ∈ labels df.
Proof.
  intros H. apply getitem_ok_in in H. unfold labels.
  apply (list_elem_of_fmap_2 fst) in H. exact H.
Qed.

Lemma getitem_length (l : string) (s : series) (df : DataFrame) :
  wf_df df -> getitem l df = Ok s -> length s = nrows df.
Proof.
  intros Hwf H. apply getitem_ok_in in H.
  unfold wf_df in Hwf. rewrite Forall_forall in Hwf. exact (Hwf _ H).
Qed.

Lemma getitem_missing (l : string) (df : DataFrame) :
  l ∉ labels df -> getitem l df = Raise (KeyError l).
Proof.
  intros H. unfold getitem. rewrite find_columns_notin by exact H. reflexivity.
Qed.

Lemma has_label_true (l : string) (df : DataFrame) : has_label l df = true <-> l ∈ labels df.
Proof. unfold has_label. apply bool_decide_eq_true. Qed.

Lemma has_label_false (l : string) (df : DataFrame) : has_label l df = false <-> l ∉ labels df.
Proof. unfold has_label. apply bool_decide_eq_false. Qed.

Lemma find_columns_replace (l l' : string) (s : series) (cs : list (string * series)) :
  find_columns l' (map (fun c => if decide (c.1 = l) then (l, s) else c) cs) =
  if decide (l' = l) then map (fun _ => s) (find_columns l cs) else find_columns l' cs.
Proof.
  induction cs as [|c cs IH].
  - simpl. destruct (decide (l' = l)); reflexivity.
  - rewrite map_cons, !find_columns_cons, IH. clear IH.
    repeat case_decide; simpl in *; subst; try congruence; reflexivity.
Qed.

Lemma fst_replace (l : string) (s : series) (cs : list (string * series)) :
  map fst (map (fun c => if decide (c.1 = l) then (l, s) else c) cs) = map fst cs.
Proof.
  induction cs as [|c cs IH]; simpl; [reflexivity|].
  rewrite IH. destruct (decide (c.1 = l)) as [E|E]; simpl; congruence.
Qed.

(** What [df[l] = s] does. *)
Lemma setitem_ok (l : string) (s : series) (df : DataFrame) :
  length s = nrows df -> exists df', setitem l s df = Ok df'.
Proof.
  intros H. unfold setitem. apply Nat.eqb_eq in H. rewrite H. simpl.
  destruct (has_label l df); eauto.
Qed.

Lemma setitem_inv (l : string) (s : series) (df df' : DataFrame) :
  setitem l s df = Ok df' ->
  length s = nrows df /\ nrows df' = nrows df /\
  labels df' = (if has_label l df then labels df else labels df ++ [l]) /\
  (forall l', l' <> l -> find_columns l' (columns df') = find_columns l' (columns df)) /\
  (exists n, find_columns l (columns df') = replicate (S n) s).
Proof.
  unfold setitem. destruct (length s =? nrows df)%nat eqn:E; simpl; [|discriminate].
  apply Nat.eqb_eq in E. destruct (has_label l df) eqn:Hl; intros [= <-]; simpl.
  - split; [exact E|]. split; [reflexivity|]. unfold labels. simpl.
    split; [apply fst_replace|]. split.
    + intros l' Hne. rewrite find_columns_replace. rewrite decide_False by exact Hne.
      reflexivity.
    + rewrite find_columns_replace, decide_True by reflexivity.
      apply has_label_true, find_columns_in in Hl.
      destruct (find_columns l (columns df)) as [|s0 ss]; [congruence|].
      exists (length ss). simpl. f_equal.
      clear. induction ss; simpl; congruence.
  - split; [exact E|]. split; [reflexivity|]. unfold labels. simpl.
    rewrite map_app. split; [reflexivity|]. split.
    + intros l' Hne. rewrite find_columns_app, find_columns_cons. simpl.
      rewrite decide_False by congruence. apply app_nil_r.
    + exists 0%nat. rewrite find_columns_app, find_columns_cons. simpl.
      rewrite decide_True by reflexivity.
      apply has_label_false in Hl. rewrite find_columns_notin by exact Hl. reflexivity.
Qed.

Lemma getitem_setitem_ne (l l' : string) (s : series) (df df' : DataFrame) :
  setitem l s df = Ok df' -> l' <> l -> getitem l' df' = getitem l' df.
Proof.
  intros H Hne. destruct (setitem_inv _ _ _ _ H) as (_ & _ & _ & Hother & _).
  unfold getitem. rewrite (Hother _ Hne). reflexivity.
Qed.

Lemma setitem_nodup (l : string) (s : series) (df df' : DataFrame) :
  setitem l s df = Ok df' -> NoDup (labels df) -> NoDup (labels df').
Proof.
  intros H Hnd. destruct (setitem_inv _ _ _ _ H) as (_ & _ & Hl & _).
  rewrite Hl. destruct (has_label l df) eqn:E; [exact Hnd|].
  apply has_label_false in E. apply NoDup_app. split; [exact Hnd|].
  split; [|apply NoDup_singleton].
  intros x Hx Hx'. apply list_elem_of_singleton in Hx'. subst x. contradiction.
Qed.

Lemma getitem_setitem_eq (l : string) (s : series) (df df' : DataFrame) :
  setitem l s df = Ok df' -> NoDup (labels df) -> getitem l df' = Ok s.
Proof.
  intros H Hnd. pose proof (setitem_nodup _ _ _ _ H Hnd) as Hnd'.
  destruct (setitem_inv _ _ _ _ H) as (_ & _ & Hl & _ & n & Hn).
  assert (l ∈ labels df') as Hin.
  { rewrite Hl. destruct (has_label l df) eqn:E.
    - apply has_label_true. exact E.
    - apply elem_of_app. right. left. }
  destruct (find_columns_nodup l (columns df') Hnd' Hin) as (s' & Hs' & _).
  unfold getitem. rewrite Hs'. rewrite Hn in Hs'. simpl in Hs'.
  injection Hs' as <- _. reflexivity.
Qed.

Lemma setitem_wf (l : string) (s : series) (df df' : DataFrame) :
  setitem l s df = Ok df' -> wf_df df -> wf_df df'.
Proof.
  unfold setitem, wf_df. destruct (length s =? nrows df)%nat eqn:E; simpl; [|discriminate].
  apply Nat.eqb_eq in E. destruct (has_label l df); intros [= <-]; simpl; intros Hwf.
  - apply Forall_fmap. eapply Forall_impl; [exact Hwf|].
    intros c Hc. simpl. destruct (decide (c.1 = l)); simpl; congruence.
  - apply Forall_app. split; [exact Hwf|]. constructor; [exact E | constructor].
Qed.

Lemma as_float_of_float (x : list Q) : as_float (of_float x) = Ok x.
Proof. induction x as [|v x IH]; simpl; [reflexivity|]. rewrite IH. reflexivity. Qed.

Lemma as_float_inv (s : series) (x : list Q) : as_float s = Ok x -> s = of_float x.
Proof.
  revert x. induction s as [|c s IH]; simpl; intros x.
  - intros [= <-]. reflexivity.
  - destruct c as [t|q]; [discriminate|].
    destruct (as_float s) as [v|e] eqn:E; simpl; [|discriminate].
    intros [= <-]. simpl. rewrite (IH v eq_refl). reflexivity.
Qed.


Lemma of_float_length (x : list Q) : length (of_float x) = length x.
Proof. apply length_map. Qed.

(** ** Running statements on a table *)

Lemma D_run_bind {A B} (m : D A) (k : A -> D B) (df : DataFrame) :
  (m ≫= k) df =
  match m df with
  | (Ok a, df') => k a df'
  | (Raise e, df') => (Raise e, df')
  end.
Proof. reflexivity. Qed.

Lemma D_run_ret {A} (a : A) (df : DataFrame) : (mret a : D A) df = (Ok a, df).
Proof. reflexivity. Qed.

Lemma floats_ok (l : string) (x : list Q) (df : DataFrame) :
  getitem l df = Ok (of_float x) -> floats l df = (Ok x, df).
Proof.
  intros H. unfold floats. rewrite D_run_bind. unfold read. rewrite H.
  unfold pure_of. rewrite as_float_of_float. reflexivity.
Qed.

Lemma floats_inv (l : string) (r : result (list Q)) (df df' : DataFrame) :
  floats l df = (r, df') ->
  df' = df /\ (forall x, r = Ok x -> getitem l df = Ok (of_float x)).
Proof.
  unfold floats. rewrite D_run_bind. unfold read, pure_of.
  destruct (getitem l df) as [s|e] eqn:E.
  - intros [= <- <-]. split; [reflexivity|]. intros x Hx.
    apply as_float_inv in Hx. congruence.
  - intros [= <- <-]. split; [reflexivity | discriminate].
Qed.

Lemma assign_ok (l : string) (s : series) (df df' : DataFrame) :
  setitem l s df = Ok df' -> assign l s df = (Ok tt, df').
Proof. intros H. unfold assign. rewrite H. reflexivity. Qed.

Lemma assign_inv (l : string) (s : series) (r : result unit) (df df' : DataFrame) :
  assign l s df = (r, df') ->
  (r = Ok tt /\ setitem l s df = Ok df') \/ (failed r /\ df' = df).
Proof.
  unfold assign. destruct (setitem l s df) as [d|e]; intros [= <- <-].
  - left. split; reflexivity.
  - right. split; [exact I | reflexivity].
Qed.

(** ** The normaliser *)

Definition normalise_column (weight : Q) (key_columns : list string) (column : string)
  : D unit :=
  if bool_decide (column ∉ key_columns) then
    x ← floats column;
    scaled ← pure_of (MinMaxScaler_fit_transform 0 weight x);
    assign column (of_float scaled)
  else mret tt.

Lemma _normalise_var_unfold (weight : Q) (key_columns : list string) (df : DataFrame) :
  InPlace._normalise_var weight key_columns df =
  for_each (labels df) (normalise_column weight key_columns) df.
Proof. reflexivity. Qed.

Section NormaliseLoop.
Context (weight : Q) (key_columns : list string).
Hypothesis weight_pos : 0 < weight.


End NormaliseLoop.


Definition frame_c3 : DataFrame :=
  mkDF 3 [ ("index", [Num 0; Num 1; Num 2]);
           ("transformation_1", [Num 3; Num 5; Num 4]);
           ("transformation_2", [Num 7; Num 7; Num 7]) ].



(** ** The selector *)

(** [shapiro(df[column]).pvalue] *)
Definition p_value_of (K : Kernel) (df : DataFrame) (column : string) : result Q :=
  s ← getitem column df; x ← as_float s; shapiro_pvalue K x.

Lemma max_from_split (pre mid rest : list (string * Q)) (best : string * Q) :
  (forall c, c ∈ pre -> snd c < snd best) ->
  (forall c, c ∈ mid -> snd c <= snd best) ->
  exists pre' post',
    pre ++ best :: mid ++ rest = pre' ++ max_from best rest :: post' /\
    (forall c, c ∈ pre' -> snd c < snd (max_from best rest)) /\
    (forall c, c ∈ post' -> snd c <= snd (max_from best rest)).
Proof.
  revert pre mid best. induction rest as [|c rest IH]; intros pre mid best Hpre Hmid.
  - exists pre, mid. simpl. rewrite app_nil_r. auto.
  - simpl. destruct (Qltb (snd best) (snd c)) eqn:E.
    + apply Qltb_true in E.
      destruct (IH (pre ++ best :: mid) [] c) as (pre' & post' & Heq & H1 & H2).
      * intros c' Hc'. apply elem_of_app in Hc' as [Hc'|Hc'].
        -- eapply Qlt_trans; [apply Hpre; exact Hc' | exact E].
        -- apply elem_of_cons in Hc' as [->|Hc']; [exact E|].
           eapply Qle_lt_trans; [apply Hmid; exact Hc' | exact E].
      * intros c' Hc'. inversion Hc'.
      * exists pre', post'. split; [|auto].
        rewrite <- Heq. simpl. rewrite <- app_assoc. reflexivity.
    + apply Qltb_false in E.
      destruct (IH pre (mid ++ [c]) best) as (pre' & post' & Heq & H1 & H2).
      * exact Hpre.
      * intros c' Hc'. apply elem_of_app in Hc' as [Hc'|Hc'].
        -- apply Hmid. exact Hc'.
        -- apply list_elem_of_singleton in Hc'. subst c'. exact E.
      * exists pre', post'. split; [|auto].
        rewrite <- Heq. rewrite <- app_assoc. reflexivity.
Qed.

(** [max(p_values, key=p_values.get)] is the first key of largest value. *)
Lemma py_max_key_first (items : list (string * Q)) :
  items <> [] ->
  exists pre best post,
    items = pre ++ best :: post /\ py_max_key items = Ok (fst best) /\
    (forall c, c ∈ pre -> snd c < snd best) /\
    (forall c, c ∈ post -> snd c <= snd best).
Proof.
  destruct items as [|c rest]; [congruence|]. intros _.
  destruct (max_from_split [] [] rest c) as (pre & post & Heq & H1 & H2).
  - intros c' Hc'. inversion Hc'.
  - intros c' Hc'. inversion Hc'.
  - exists pre, (max_from c rest), post. simpl in Heq. auto.
Qed.

Lemma p_values_of_ok (K : Kernel) (key_columns : list string) (df : DataFrame)
    (cols : list string) :
  (forall c, c ∈ cols -> c ∉ key_columns -> exists p, p_value_of K df c = Ok p) ->
  exists items,
    InPlace.p_values_of K cols key_columns df = (Ok items, df) /\
    map fst items = filter (fun c => c ∉ key_columns) cols /\
    Forall (fun cp => p_value_of K df (fst cp) = Ok (snd cp)) items.
Proof.
  induction cols as [|col cols IH]; intros Hok.
  - exists []. simpl. rewrite filter_nil. auto.
  - destruct IH as (items & Hrun & Hfst & Hp).
    { intros c Hc. apply Hok. right. exact Hc. }
    simpl. rewrite filter_cons.
    destruct (decide (col ∉ key_columns)) as [Hk|Hk].
    + rewrite bool_decide_eq_true_2 by exact Hk.
      destruct (Hok col) as [p Hpv]; [left | exact Hk |].
      unfold p_value_of in Hpv.
      destruct (getitem col df) as [s|e] eqn:Hs; simpl in Hpv; [|discriminate].
      destruct (as_float s) as [x|e] eqn:Hx; simpl in Hpv; [|discriminate].
      apply as_float_inv in Hx. subst s.
      rewrite D_run_bind, (floats_ok _ _ _ Hs).
      rewrite D_run_bind. unfold pure_of at 1. rewrite Hpv.
      rewrite D_run_bind, Hrun. rewrite D_run_ret.
      exists ((col, p) :: items). split; [reflexivity|]. split.
      * simpl. rewrite Hfst. reflexivity.
      * constructor; [|exact Hp]. simpl. unfold p_value_of. rewrite Hs. simpl.
        rewrite as_float_of_float. simpl. exact Hpv.
    + rewrite bool_decide_eq_false_2 by exact Hk.
      exists items. auto.
Qed.

(** C4.  The candidates are the columns outside [key_columns], in column
    order.  When there is one and the p-value of each can be computed, the
    selector returns and [<feature>_best] is the column of a candidate [c]
    such that every candidate before [c] has a strictly smaller p-value and
    every candidate after [c] has a p-value that is not larger: the maximum
    p-value, the earliest candidate among ties. *)
Theorem best_gaussian_is_first_max
    (K : Kernel) (feature : string) (key_columns : list string) (df : DataFrame) :
  NoDup (labels df) -> wf_df df ->
  filter (fun c => c ∉ key_columns) (labels df) <> [] ->
  (forall c, c ∈ labels df -> c ∉ key_columns -> exists p, p_value_of K df c = Ok p) ->
  exists df' before c after p,
    InPlace._get_best_gaussian_transformation K feature key_columns df = (Ok tt, df') /\
    filter (fun c => c ∉ key_columns) (labels df) = before ++ c :: after /\
    p_value_of K df c = Ok p /\
    getitem (feature +:+ "_best") df' = getitem c df /\
    (forall c' p', c' ∈ before -> p_value_of K df c' = Ok p' -> p' < p) /\
    (forall c' p', c' ∈ after -> p_value_of K df c' = Ok p' -> p' <= p).
Proof.
  intros Hnd Hwf Hne Hok.
  destruct (p_values_of_ok K key_columns df (labels df) Hok) as (items & Hrun & Hfst & Hp).
  assert (items <> []) as Hitems.
  { intros ->. simpl in Hfst. congruence. }
  destruct (py_max_key_first items Hitems) as (pre & best & post & Hsplit & Hmax & Hlt & Hle).
  subst items. rewrite Forall_app, Forall_cons in Hp. destruct Hp as (Hpre & Hbest & Hpost).
  assert (fst best ∈ labels df) as Hin.
  { assert (fst best ∈ filter (fun c => c ∉ key_columns) (labels df)) as Hf.
    { rewrite <- Hfst, map_app. apply elem_of_app. right. left. }
    apply list_elem_of_filter in Hf. tauto. }
  destruct (getitem_nodup _ _ Hnd Hin) as [s Hs].
  destruct (setitem_ok (feature +:+ "_best") s df (getitem_length _ _ _ Hwf Hs)) as [df' Hset].
  exists df', (map fst pre), (fst best), (map fst post), (snd best).
  split; [|split; [|split; [|split; [|split]]]].
  - unfold InPlace._get_best_gaussian_transformation.
    rewrite D_run_bind. unfold read at 1. rewrite D_run_bind, Hrun.
    rewrite D_run_bind. unfold pure_of at 1. rewrite Hmax.
    rewrite D_run_bind. unfold read at 1. rewrite Hs.
    apply assign_ok. exact Hset.
  - rewrite <- Hfst, map_app. reflexivity.
  - exact Hbest.
  - rewrite Hs. exact (getitem_setitem_eq _ _ _ _ Hset Hnd).
  - intros c' p' Hc' Hp'. apply list_elem_of_fmap in Hc' as (cp & -> & Hcp).
    rewrite Forall_forall in Hpre. rewrite (Hpre _ Hcp) in Hp'.
    injection Hp' as <-. apply Hlt. exact Hcp.
  - intros c' p' Hc' Hp'. apply list_elem_of_fmap in Hc' as (cp & -> & Hcp).
    rewrite Forall_forall in Hpost. rewrite (Hpost _ Hcp) in Hp'.
    injection Hp' as <-. apply Hle. exact Hcp.
Qed.

(** ** The transformer *)

Lemma append_suffix_inj (f a b : string) : f +:+ a = f +:+ b -> a = b.
Proof. induction f as [|c f IH]; simpl; [tauto | intros [= H]; auto]. Qed.

Lemma append_suffix_ne (f a b : string) : a <> b -> f +:+ a <> f +:+ b.
Proof. intros Hne H. apply Hne. exact (append_suffix_inj _ _ _ H). Qed.

Lemma append_nonempty_ne (f a : string) : a <> "" -> f +:+ a <> f.
Proof.
  intros Hne H. apply Hne. apply (append_suffix_inj f).
  rewrite H. clear. induction f as [|c f IH]; [reflexivity|].
  change (String c f = String c (f +:+ "")). f_equal. exact IH.
Qed.

Ltac suffix_ne :=
  solve [ apply append_suffix_ne; discriminate
        | apply append_nonempty_ne; discriminate
        | apply not_eq_sym; apply append_nonempty_ne; discriminate ].

Lemma assign_run (l : string) (s : series) (cur : DataFrame) :
  length s = nrows cur -> NoDup (labels cur) ->
  exists cur',
    assign l s cur = (Ok tt, cur') /\
    nrows cur' = nrows cur /\ NoDup (labels cur') /\
    labels cur' = (if has_label l cur then labels cur else labels cur ++ [l]) /\
    getitem l cur' = Ok s /\
    (forall l', l' <> l -> getitem l' cur' = getitem l' cur) /\
    (wf_df cur -> wf_df cur').
Proof.
  intros Hlen Hnd. destruct (setitem_ok l s cur Hlen) as [cur' Hset].
  exists cur'. split; [exact (assign_ok _ _ _ _ Hset)|].
  destruct (setitem_inv _ _ _ _ Hset) as (_ & Hn & Hl & _ & _).
  split; [exact Hn|]. split; [exact (setitem_nodup _ _ _ _ Hset Hnd)|].
  split; [exact Hl|]. split; [exact (getitem_setitem_eq _ _ _ _ Hset Hnd)|].
  split; [|exact (setitem_wf _ _ _ _ Hset)].
  intros l' Hne. exact (getitem_setitem_ne _ _ _ _ _ Hset Hne).
Qed.

Lemma assign_wrong_length (l : string) (s : series) (cur : DataFrame) :
  length s <> nrows cur ->
  assign l s cur = (Raise (ValueError "Length of values does not match length of index"), cur).
Proof.
  intros H. unfold assign, setitem. apply Nat.eqb_neq in H. rewrite H. reflexivity.
Qed.

Lemma labels_after_assign (l l' : string) (cur cur' : DataFrame) :
  labels cur' = (if has_label l cur then labels cur else labels cur ++ [l]) ->
  l' ∈ labels cur' <-> l' ∈ labels cur \/ l' = l.
Proof.
  intros ->. destruct (has_label l cur) eqn:E.
  - apply has_label_true in E. split; [tauto|]. intros [H| ->]; assumption.
  - rewrite elem_of_app, list_elem_of_singleton. reflexivity.
Qed.

Definition all_positive (x : list Q) : bool := forallb (Qltb 0) x.

Lemma all_positive_iff (x : list Q) : all_positive x = true <-> Forall (fun v => 0 < v) x.
Proof.
  unfold all_positive. rewrite forallb_forall, Forall_forall. split.
  - intros H v Hv. apply Qltb_true. apply H. apply list_elem_of_In. exact Hv.
  - intros H v Hv. apply Qltb_true. apply H. apply list_elem_of_In. exact Hv.
Qed.

(** On a column that is not empty, [df[feature].min() > 0] says that every
    value is positive. *)
Lemma min_positive_iff (x : list Q) (m : Q) :
  list_min x = Some m -> Qltb 0 m = all_positive x.
Proof.
  intros Hm. destruct (list_min_spec _ _ Hm) as [Hlb Hin].
  destruct (Qltb 0 m) eqn:E.
  - symmetry. apply all_positive_iff. apply Qltb_true in E.
    eapply Forall_impl; [exact Hlb|]. intros v Hv. simpl in Hv.
    eapply Qlt_le_trans; [exact E | exact Hv].
  - symmetry. apply not_true_is_false. intros Hall. apply all_positive_iff in Hall.
    apply Qltb_false in E. apply Exists_exists in Hin as (v & Hv & Hvm).
    rewrite Forall_forall in Hall. specialize (Hall v Hv).
    rewrite Hvm in Hall. exact (Qlt_not_le _ _ Hall E).
Qed.

(** The suffixes of the variant columns, in the order they are assigned. *)
Definition variant_suffixes (greater_than_zero : bool) : list string :=
  ["_yj"; "_sqrr"; "_log"; "_squared"]
  ++ (if greater_than_zero then ["_bc"; "_recip_sqrr"; "_recip"] else []).

Definition variant_labels (feature : string) (greater_than_zero : bool) : list string :=
  map (fun sfx => feature +:+ sfx) (variant_suffixes greater_than_zero).

(** The labels after [df[l] = ...]. *)
Definition add_label (ls : list string) (l : string) : list string :=
  if bool_decide (l ∈ ls) then ls else ls ++ [l].

(** The table [df'] that [_transform_var] leaves behind for the column [x]
    of [feature], given the values [yj] of Yeo-Johnson and, when they are
    computed, [bc] of Box-Cox. *)
Definition transformed (K : Kernel) (feature : string) (x yj : list Q)
    (bc : option (list Q)) (df df' : DataFrame) : Prop :=
  nrows df' = nrows df /\ NoDup (labels df') /\ wf_df df' /\
  labels df' = foldl add_label (labels df) (variant_labels feature (bool_decide (is_Some bc))) /\
  getitem feature df' = Ok (of_float x) /\
  getitem (feature +:+ "_yj") df' = Ok (of_float yj) /\
  getitem (feature +:+ "_sqrr") df' = Ok (of_float (map (power_half K) x)) /\
  getitem (feature +:+ "_log") df' = Ok (of_float (map (log1p K) x)) /\
  getitem (feature +:+ "_squared") df' = Ok (of_float (map (fun v => v * v) x)) /\
  match bc with
  | Some bc =>
      getitem (feature +:+ "_bc") df' = Ok (of_float bc) /\
      getitem (feature +:+ "_recip_sqrr") df' = Ok (of_float (map (power_neg_half K) x)) /\
      getitem (feature +:+ "_recip") df' = Ok (of_float (map (fun v => 1 / v) x))
  | None => True
  end /\
  (forall l, l ∉ variant_labels feature (bool_decide (is_Some bc)) ->
             getitem l df' = getitem l df).

Ltac chase_getitem :=
  repeat match goal with
         | H : forall l', l' <> _ -> getitem l' ?d = getitem l' _
           |- context [getitem _ ?d] => rewrite H by suffix_ne
         end;
  try assumption.

Ltac chase_frame Hnot :=
  repeat match goal with
         | H : forall l', l' <> _ -> getitem l' ?d = getitem l' _
           |- context [getitem _ ?d] =>
             rewrite H by (intros ->; apply Hnot; unfold variant_labels; simpl;
                           repeat first [left; reflexivity | right])
         end;
  try reflexivity.

Lemma transform_var_run (K : Kernel) (feature : string) (df : DataFrame) (x : list Q) :
  NoDup (labels df) -> wf_df df -> getitem feature df = Ok (of_float x) ->
  match yeojohnson K x with
  | Raise e => fst (InPlace._transform_var K feature df) = Raise e
  | Ok yj =>
      if negb (length yj =? length x)%nat then
        failed (fst (InPlace._transform_var K feature df))
      else if all_positive x then
        match boxcox K x with
        | Raise e => fst (InPlace._transform_var K feature df) = Raise e
        | Ok bc =>
            if negb (length bc =? length x)%nat then
              failed (fst (InPlace._transform_var K feature df))
            else
              fst (InPlace._transform_var K feature df) = Ok true /\
              transformed K feature x yj (Some bc) df
                          (snd (InPlace._transform_var K feature df))
        end
      else
        fst (InPlace._transform_var K feature df) = Ok false /\
        transformed K feature x yj None df (snd (InPlace._transform_var K feature df))
  end.
Proof.
  intros Hnd Hwf Hx.
  assert (length x = nrows df) as Hlen.
  { rewrite <- (getitem_length _ _ _ Hwf Hx). symmetry. apply of_float_length. }
  remember (InPlace._transform_var K feature df) as run eqn:Hrun.
  unfold InPlace._transform_var in Hrun.
  rewrite D_run_bind, (floats_ok _ _ _ Hx) in Hrun.
  rewrite D_run_bind, (floats_ok _ _ _ Hx) in Hrun.
  rewrite D_run_bind in Hrun. unfold pure_of at 1 in Hrun.
  destruct (yeojohnson K x) as [yj|e] eqn:Hyj; [|subst run; reflexivity].
  assert (x <> []) as Hne.
  { intros ->. unfold yeojohnson in Hyj. discriminate. }
  destruct (list_min_max_some x Hne) as (m & _ & Hm & _).
  rewrite Hm, (min_positive_iff _ _ Hm) in Hrun.
  rewrite D_run_bind in Hrun.
  destruct (length yj =? length x)%nat eqn:Hlyj; simpl negb; cbv iota.
  2:{ apply Nat.eqb_neq in Hlyj.
      rewrite assign_wrong_length in Hrun by (rewrite of_float_length; lia).
      subst run. exact I. }
  apply Nat.eqb_eq in Hlyj.
  destruct (assign_run (feature +:+ "_yj") (of_float yj) df)
    as (d1 & Ha1 & Hn1 & Hnd1 & Hl1 & Hyj1 & Ho1 & Hwf1);
    [rewrite of_float_length; lia | exact Hnd |].
  rewrite Ha1 in Hrun.
  assert (getitem feature d1 = Ok (of_float x)) as Hx1 by (chase_getitem).
  rewrite D_run_bind, (floats_ok _ _ _ Hx1), D_run_bind in Hrun.
  destruct (assign_run (feature +:+ "_sqrr") (of_float (map (power_half K) x)) d1)
    as (d2 & Ha2 & Hn2 & Hnd2 & Hl2 & Hsq2 & Ho2 & Hwf2);
    [rewrite of_float_length, length_map; lia | exact Hnd1 |].
  rewrite Ha2 in Hrun.
  assert (getitem feature d2 = Ok (of_float x)) as Hx2 by (chase_getitem).
  rewrite D_run_bind, (floats_ok _ _ _ Hx2), D_run_bind in Hrun.
  destruct (assign_run (feature +:+ "_log") (of_float (map (log1p K) x)) d2)
    as (d3 & Ha3 & Hn3 & Hnd3 & Hl3 & Hlg3 & Ho3 & Hwf3);
    [rewrite of_float_length, length_map; lia | exact Hnd2 |].
  rewrite Ha3 in Hrun.
  assert (getitem feature d3 = Ok (of_float x)) as Hx3 by (chase_getitem).
  rewrite D_run_bind, (floats_ok _ _ _ Hx3), D_run_bind in Hrun.
  destruct (assign_run (feature +:+ "_squared") (of_float (map (fun v => v * v) x)) d3)
    as (d4 & Ha4 & Hn4 & Hnd4 & Hl4 & Hsd4 & Ho4 & Hwf4);
    [rewrite of_float_length, length_map; lia | exact Hnd3 |].
  rewrite Ha4 in Hrun.
  assert (getitem feature d4 = Ok (of_float x)) as Hx4 by (chase_getitem).
  rewrite D_run_bind in Hrun.
  destruct (all_positive x) eqn:Hpos.
  - rewrite D_run_bind, (floats_ok _ _ _ Hx4) in Hrun.
    rewrite D_run_bind in Hrun. unfold pure_of at 1 in Hrun.
    destruct (boxcox K x) as [bc|e] eqn:Hbc; [|subst run; reflexivity].
    rewrite D_run_bind in Hrun.
    destruct (length bc =? length x)%nat eqn:Hlbc; simpl negb; cbv iota.
    2:{ apply Nat.eqb_neq in Hlbc.
        rewrite assign_wrong_length in Hrun by (rewrite of_float_length; lia).
        subst run. exact I. }
    apply Nat.eqb_eq in Hlbc.
    destruct (assign_run (feature +:+ "_bc") (of_float bc) d4)
      as (d5 & Ha5 & Hn5 & Hnd5 & Hl5 & Hbc5 & Ho5 & Hwf5);
      [rewrite of_float_length; lia | exact Hnd4 |].
    rewrite Ha5 in Hrun.
    assert (getitem feature d5 = Ok (of_float x)) as Hx5 by (chase_getitem).
    rewrite D_run_bind, (floats_ok _ _ _ Hx5), D_run_bind in Hrun.
    destruct (assign_run (feature +:+ "_recip_sqrr")
                         (of_float (map (power_neg_half K) x)) d5)
      as (d6 & Ha6 & Hn6 & Hnd6 & Hl6 & Hrs6 & Ho6 & Hwf6);
      [rewrite of_float_length, length_map; lia | exact Hnd5 |].
    rewrite Ha6 in Hrun.
    assert (getitem feature d6 = Ok (of_float x)) as Hx6 by (chase_getitem).
    rewrite D_run_bind, (floats_ok _ _ _ Hx6) in Hrun.
    destruct (assign_run (feature +:+ "_recip") (of_float (map (fun v => 1 / v) x)) d6)
      as (d7 & Ha7 & Hn7 & Hnd7 & Hl7 & Hrc7 & Ho7 & Hwf7);
      [rewrite of_float_length, length_map; lia | exact Hnd6 |].
    rewrite Ha7, D_run_ret in Hrun. subst run. simpl fst. simpl snd.
    split; [reflexivity|].
    unfold transformed.
    split; [lia|]. split; [exact Hnd7|]. split; [auto 10|].
    split.
    { unfold has_label in *. rewrite Hl7, Hl6, Hl5, Hl4, Hl3, Hl2, Hl1. reflexivity. }
    split; [chase_getitem|]. split; [chase_getitem|]. split; [chase_getitem|].
    split; [chase_getitem|]. split; [chase_getitem|].
    split; [split; [chase_getitem | split; chase_getitem]|].
    intros l Hnot. chase_frame Hnot.
  - rewrite D_run_ret, D_run_ret in Hrun. subst run. simpl fst. simpl snd.
    split; [reflexivity|].
    unfold transformed.
    split; [lia|]. split; [exact Hnd4|]. split; [auto 10|].
    split.
    { unfold has_label in *. rewrite Hl4, Hl3, Hl2, Hl1. reflexivity. }
    split; [chase_getitem|]. split; [chase_getitem|]. split; [chase_getitem|].
    split; [chase_getitem|]. split; [chase_getitem|].
    split; [exact I|].
    intros l Hnot. chase_frame Hnot.
Qed.


(** When none of the new labels is in the table yet, the variant columns
    come after the old ones, in the order they are assigned. *)
Lemma add_fresh_labels (new ls : list string) :
  NoDup new -> (forall l, l ∈ new -> l ∉ ls) -> foldl add_label ls new = ls ++ new.
Proof.
  revert ls. induction new as [|n new IH]; intros ls Hnd Hfresh; simpl.
  - symmetry. apply app_nil_r.
  - apply NoDup_cons in Hnd as [Hn Hnd]. unfold add_label at 2.
    rewrite bool_decide_eq_false_2 by (apply Hfresh; left).
    rewrite IH.
    + rewrite <- app_assoc. reflexivity.
    + exact Hnd.
    + intros l Hl. rewrite elem_of_app, list_elem_of_singleton.
      intros [H| ->]; [|contradiction].
      apply (Hfresh l); [right; exact Hl | exact H].
Qed.

Lemma transform_var_inv (K : Kernel) (feature : string) (df : DataFrame) (x : list Q)
    (g : bool) (df' : DataFrame) :
  NoDup (labels df) -> wf_df df -> getitem feature df = Ok (of_float x) ->
  InPlace._transform_var K feature df = (Ok g, df') ->
  g = all_positive x /\
  exists yj bc,
    yeojohnson K x = Ok yj /\
    (if g then exists b, bc = Some b /\ boxcox K x = Ok b else bc = None) /\
    transformed K feature x yj bc df df'.
Proof.
  intros Hnd Hwf Hx Hrun. pose proof (transform_var_run K feature df x Hnd Hwf Hx) as H.
  rewrite Hrun in H. simpl fst in H. simpl snd in H.
  destruct (yeojohnson K x) as [yj|e]; [|discriminate].
  destruct (negb (length yj =? length x)%nat); [contradiction|].
  destruct (all_positive x).
  - destruct (boxcox K x) as [bc|e]; [|discriminate].
    destruct (negb (length bc =? length x)%nat); [contradiction|].
    destruct H as [[= ->] H]. split; [reflexivity|].
    exists yj, (Some bc). split; [reflexivity|].
    split; [cbv iota; exists bc; split; reflexivity | exact H].
  - destruct H as [[= ->] H]. split; [reflexivity|].
    exists yj, None. split; [reflexivity|]. split; [reflexivity | exact H].
Qed.


(** ** Sorting *)

Section StableSort.
Context {A : Type} (leb : A -> A -> bool).

Lemma insert_sorted_perm (x : A) (l : list A) : insert_sorted leb x l ≡ₚ x :: l.
Proof.
  induction l as [|y l IH]; simpl; [reflexivity|].
  destruct (leb x y); [reflexivity|].
  rewrite IH. apply perm_swap.
Qed.

Lemma stable_sort_perm (l : list A) : stable_sort leb l ≡ₚ l.
Proof.
  induction l as [|x l IH]; simpl; [reflexivity|].
  rewrite insert_sorted_perm, IH. reflexivity.
Qed.

Lemma stable_sort_length (l : list A) : length (stable_sort leb l) = length l.
Proof. apply Permutation_length, stable_sort_perm. Qed.

Hypothesis leb_total : forall a b, leb a b = true \/ leb b a = true.

Lemma insert_sorted_sorted (x : A) (l : list A) :
  Sorted (fun a b => leb a b = true) l ->
  Sorted (fun a b => leb a b = true) (insert_sorted leb x l).
Proof.
  induction l as [|y l IH]; simpl; intros Hs.
  - repeat constructor.
  - destruct (leb x y) eqn:E.
    + constructor; [exact Hs | constructor; exact E].
    + apply Sorted_inv in Hs as [Hs Hhd]. constructor; [apply IH; exact Hs|].
      destruct l as [|z l]; simpl.
      * constructor. destruct (leb_total x y) as [H|H]; congruence.
      * destruct (leb x z).
        -- constructor. destruct (leb_total x y) as [H|H]; congruence.
        -- constructor. inversion Hhd; assumption.
Qed.

Lemma stable_sort_sorted (l : list A) :
  Sorted (fun a b => leb a b = true) (stable_sort leb l).
Proof.
  induction l as [|x l IH]; simpl; [constructor|].
  apply insert_sorted_sorted. exact IH.
Qed.

End StableSort.

Lemma cell_compare_antisym (a b : cell) : cell_compare a b = CompOpp (cell_compare b a).
Proof.
  destruct a as [s|p], b as [t|q]; simpl; try reflexivity.
  - apply String.compare_antisym.
  - symmetry. apply Qcompare_antisym.
Qed.

Lemma Qle_bool_total (x y : Q) : Qle_bool x y = true \/ Qle_bool y x = true.
Proof.
  destruct (Qlt_le_dec x y) as [H|H].
  - left. apply Qle_bool_iff. apply Qlt_le_weak. exact H.
  - right. apply Qle_bool_iff. exact H.
Qed.

Lemma pair_leb_total (r1 r2 : pair_row) : pair_leb r1 r2 = true \/ pair_leb r2 r1 = true.
Proof.
  unfold pair_leb. rewrite (cell_compare_antisym (la_1 r2) (la_1 r1)).
  destruct (cell_compare (la_1 r1) (la_1 r2)); simpl; auto.
  apply Qle_bool_total.
Qed.

(** The order of the long table: by [LA_1], and by distance within one
    [LA_1]. *)
Definition pair_le (r1 r2 : pair_row) : Prop :=
  cell_compare (la_1 r1) (la_1 r2) = Lt \/
  (cell_compare (la_1 r1) (la_1 r2) = Eq /\ distance_of r1 <= distance_of r2).

Lemma pair_leb_le (r1 r2 : pair_row) : pair_leb r1 r2 = true <-> pair_le r1 r2.
Proof.
  unfold pair_leb, pair_le. destruct (cell_compare (la_1 r1) (la_1 r2)).
  - rewrite Qle_bool_iff. split; [auto|]. intros [H|[_ H]]; [discriminate | exact H].
  - split; auto.
  - split; [discriminate|]. intros [H|[H _]]; discriminate.
Qed.

(** ** The square matrix *)

Lemma pdist_length (metric : list Q -> list Q -> Q) (X : list (list Q)) :
  (2 * length (pdist metric X) = length X * (length X - 1))%nat.
Proof.
  induction X as [|x X IH]; simpl; [reflexivity|].
  rewrite length_app, length_map. nia.
Qed.

Lemma ceil_sqrt_pronic (n : nat) : (2 <= n)%nat -> ceil_sqrt (n * (n - 1)) = n.
Proof.
  intros Hn. unfold ceil_sqrt.
  assert (Nat.sqrt (n * (n - 1)) = n - 1)%nat as ->.
  { apply Nat.sqrt_unique. nia. }
  destruct (((n - 1) * (n - 1)) =? n * (n - 1))%nat eqn:E.
  - apply Nat.eqb_eq in E. nia.
  - lia.
Qed.

Lemma square_entry_sym (v : list Q) (d i j : nat) :
  square_entry v d i j = square_entry v d j i.
Proof.
  unfold square_entry. rewrite (Nat.eqb_sym j i), (Nat.min_comm j i), (Nat.max_comm j i).
  reflexivity.
Qed.

Lemma square_lookup {B} (f : nat -> nat -> B) (d i j : nat) :
  (map (fun i => map (fun j => f i j) (seq 0 d)) (seq 0 d) !! i) ≫= (fun row => row !! j)
  = if (i <? d)%nat && (j <? d)%nat then Some (f i j) else None.
Proof.
  rewrite list_lookup_fmap. destruct (i <? d)%nat eqn:Hi.
  - apply Nat.ltb_lt in Hi. rewrite lookup_seq_lt by exact Hi. simpl.
    rewrite list_lookup_fmap. destruct (j <? d)%nat eqn:Hj.
    + apply Nat.ltb_lt in Hj. rewrite lookup_seq_lt by exact Hj. reflexivity.
    + apply Nat.ltb_ge in Hj. rewrite lookup_seq_ge by exact Hj. reflexivity.
  - apply Nat.ltb_ge in Hi. rewrite lookup_seq_ge by exact Hi. reflexivity.
Qed.

(** A matrix from [squareform] is square, symmetric and has a zero
    diagonal, whatever the vector. *)
Lemma squareform_shape (v : list Q) (sq : list (list Q)) :
  squareform v = Ok sq ->
  (1 <= length sq)%nat /\
  Forall (fun row => length row = length sq) sq /\
  (forall i j, (sq !! i) ≫= (fun row => row !! j) = (sq !! j) ≫= (fun row => row !! i)) /\
  (forall i, (i < length sq)%nat -> (sq !! i) ≫= (fun row => row !! i) = Some 0).
Proof.
  unfold squareform. destruct v as [|v0 v].
  - intros [= <-]. simpl. split; [lia|]. split; [repeat constructor|]. split.
    + intros [|[|i]] [|[|j]]; reflexivity.
    + intros [|i] Hi; [reflexivity | simpl in Hi; lia].
  - set (d := ceil_sqrt (2 * length (v0 :: v))).
    destruct (d * (d - 1) =? 2 * length (v0 :: v))%nat eqn:E; [|discriminate].
    apply Nat.eqb_eq in E. intros [= <-].
    rewrite length_map, length_seq.
    split; [simpl in E; destruct d; simpl in E; lia|]. split.
    + apply Forall_fmap, Forall_forall. intros i _. simpl.
      rewrite length_map, length_seq. reflexivity.
    + split.
      * intros i j.
        rewrite (square_lookup (square_entry (v0 :: v) d) d i j).
        rewrite (square_lookup (square_entry (v0 :: v) d) d j i).
        rewrite (andb_comm (j <? d)%nat), square_entry_sym. reflexivity.
      * intros i Hi. rewrite (square_lookup (square_entry (v0 :: v) d) d i i).
        apply Nat.ltb_lt in Hi. rewrite Hi. simpl. unfold square_entry.
        rewrite Nat.eqb_refl. reflexivity.
Qed.

Lemma squareform_pdist (metric : list Q -> list Q -> Q) (X : list (list Q)) :
  X <> [] ->
  exists sq, squareform (pdist metric X) = Ok sq /\ length sq = length X.
Proof.
  intros HX. pose proof (pdist_length metric X) as Hlen.
  unfold squareform. destruct (pdist metric X) as [|v0 v] eqn:Hv.
  - exists [[0]]. split; [reflexivity|]. simpl in *.
    destruct X as [|x [|y X]]; [congruence | reflexivity | simpl in Hlen; lia].
  - assert (2 <= length X)%nat as Hn.
    { destruct X as [|x [|y X]]; [congruence | simpl in Hv; discriminate | simpl; lia]. }
    rewrite Hlen, (ceil_sqrt_pronic _ Hn), Nat.eqb_refl.
    eexists. split; [reflexivity|]. rewrite length_map, length_seq. reflexivity.
Qed.

(** ** The long table *)

Definition dm_square (dm : DistMatrix) : Prop :=
  length (dm_data dm) = length (dm_labels dm) /\
  Forall (fun row => length row = length (dm_labels dm)) (dm_data dm).

Lemma labelled_matrix_inv (data : list (list Q)) (names : series) (dm : DistMatrix) :
  labelled_matrix data names = Ok dm ->
  dm = mkDM names data /\ dm_square dm.
Proof.
  unfold labelled_matrix.
  destruct (length data =? length names)%nat eqn:E1; simpl; [|discriminate].
  destruct (forallb (fun row => length row =? length names)%nat data) eqn:E2; [|discriminate].
  intros [= <-]. split; [reflexivity|]. split; simpl.
  - apply Nat.eqb_eq. exact E1.
  - rewrite forallb_forall in E2. apply Forall_forall. intros row Hrow.
    apply Nat.eqb_eq, E2, list_elem_of_In. exact Hrow.
Qed.

Definition pair_key (r : pair_row) : cell * cell := (la_1 r, la_2 r).

Definition all_pairs (names : list cell) : list (cell * cell) :=
  a ← names; b ← names; [(a, b)].

Lemma stack_row_keys (a : cell) (names : list cell) (row : list Q) :
  (length names <= length row)%nat ->
  map pair_key (bd ← zip names row; [(a, bd.1, bd.2)]) = b ← names; [(a, b)].
Proof.
  revert row. induction names as [|b names IH]; intros row Hlen; [reflexivity|].
  destruct row as [|d row]; [simpl in Hlen; lia|].
  simpl zip. rewrite !bind_cons, map_app. f_equal. apply IH. simpl in Hlen. lia.
Qed.

Lemma stack_keys_gen (names names1 : list cell) (data : list (list Q)) :
  length names1 = length data ->
  Forall (fun row => length names <= length row)%nat data ->
  map pair_key (ar ← zip names1 data; bd ← zip names ar.2; [(ar.1, bd.1, bd.2)])
  = a ← names1; b ← names; [(a, b)].
Proof.
  revert data. induction names1 as [|a names1 IH]; intros data Hlen Hrows; [reflexivity|].
  destruct data as [|row data]; [discriminate|].
  apply Forall_cons in Hrows as [Hrow Hrows].
  simpl zip. rewrite !bind_cons, map_app. f_equal.
  - exact (stack_row_keys a names row Hrow).
  - apply IH; [simpl in Hlen; lia | exact Hrows].
Qed.

Lemma stack_keys (dm : DistMatrix) :
  dm_square dm -> map pair_key (stack dm) = all_pairs (dm_labels dm).
Proof.
  intros [Hlen Hrows]. unfold stack, all_pairs. apply stack_keys_gen.
  - symmetry. exact Hlen.
  - eapply Forall_impl; [exact Hrows|]. intros row Hrow. simpl in Hrow. lia.
Qed.

Lemma filter_map_key {A B} (f : A -> B) (P : B -> Prop) `{forall b, Decision (P b)}
    (l : list A) :
  map f (filter (fun x => P (f x)) l) = filter P (map f l).
Proof.
  induction l as [|x l IH]; [reflexivity|].
  simpl. rewrite !filter_cons. destruct (decide (P (f x))); simpl; congruence.
Qed.

Lemma filter_bind {A B} (P : B -> Prop) `{forall b, Decision (P b)}
    (f : A -> list B) (l : list A) :
  filter P (l ≫= f) = l ≫= (fun a => filter P (f a)).
Proof.
  induction l as [|x l IH]; [reflexivity|].
  rewrite !bind_cons, filter_app, IH. reflexivity.
Qed.

Lemma length_bind_const {A B} (f : A -> list B) (c : nat) (l : list A) :
  (forall a, a ∈ l -> length (f a) = c) -> length (l ≫= f) = (length l * c)%nat.
Proof.
  induction l as [|x l IH]; intros Hc; [reflexivity|].
  rewrite bind_cons, length_app, IH, Hc.
  - simpl. lia.
  - left.
  - intros a Ha. apply Hc. right. exact Ha.
Qed.

Lemma length_filter_ne (ss : list string) (a : string) :
  NoDup ss -> a ∈ ss -> length (filter (fun b => a <> b) ss) = (length ss - 1)%nat.
Proof.
  induction ss as [|s ss IH]; intros Hnd Ha; [inversion Ha|].
  apply NoDup_cons in Hnd as [Hs Hnd]. rewrite filter_cons.
  destruct (decide (a <> s)) as [Hne|Heq].
  - simpl. rewrite IH.
    + destruct ss; [|simpl; lia].
      inversion Ha; subst; [congruence | inversion H1].
    + exact Hnd.
    + inversion Ha; subst; [congruence | assumption].
  - apply dec_stable in Heq. subst s. simpl.
    rewrite Nat.sub_0_r. clear IH Ha Hnd.
    induction ss as [|s ss IH]; [reflexivity|].
    rewrite filter_cons. rewrite decide_True.
    + simpl. f_equal. apply IH. intros Hin. apply Hs. right. exact Hin.
    + intros ->. apply Hs. left.
Qed.

Definition off_diagonal (p : cell * cell) : Prop := negb (cell_eqb p.1 p.2) = true.

#[global] Instance off_diagonal_dec (p : cell * cell) : Decision (off_diagonal p).
Proof. unfold off_diagonal. apply _. Defined.

Lemma off_diagonal_str (a b : string) : off_diagonal (Str a, Str b) <-> a <> b.
Proof.
  unfold off_diagonal. simpl. rewrite negb_true_iff, bool_decide_eq_false. reflexivity.
Qed.

Lemma off_diagonal_pairs_row (ss : list string) (a : string) :
  filter off_diagonal (b ← map Str ss; [(Str a, b)])
  = map (fun b => (Str a, Str b)) (filter (fun b => a <> b) ss).
Proof.
  induction ss as [|s ss IH]; [reflexivity|].
  simpl map at 1. rewrite bind_cons, filter_app, IH, (filter_cons _ s).
  simpl. rewrite filter_cons, filter_nil.
  destruct (decide (off_diagonal (Str a, Str s))) as [H|H];
    destruct (decide (a <> s)) as [H'|H']; try reflexivity.
  - apply off_diagonal_str in H. contradiction.
  - apply off_diagonal_str in H'. contradiction.
Qed.

Lemma length_off_diagonal (ss : list string) :
  NoDup ss ->
  length (filter off_diagonal (all_pairs (map Str ss))) = (length ss * (length ss - 1))%nat.
Proof.
  intros Hnd. unfold all_pairs. rewrite filter_bind.
  rewrite (length_bind_const _ (length ss - 1)); [rewrite length_map; reflexivity|].
  intros c Hc. apply list_elem_of_fmap in Hc as (a & -> & Ha).
  rewrite off_diagonal_pairs_row, length_map. apply length_filter_ne; assumption.
Qed.

Lemma elem_of_all_pairs (names : list cell) (a b : cell) :
  (a, b) ∈ all_pairs names <-> a ∈ names /\ b ∈ names.
Proof.
  unfold all_pairs. rewrite list_elem_of_bind. split.
  - intros (a' & Hin & Ha'). apply list_elem_of_bind in Hin as (b' & Hin & Hb').
    apply list_elem_of_singleton in Hin. injection Hin as -> ->. auto.
  - intros [Ha Hb]. exists a. split; [|exact Ha].
    apply list_elem_of_bind. exists b. split; [left | exact Hb].
Qed.

Lemma NoDup_all_pairs (names : list cell) : NoDup names -> NoDup (all_pairs names).
Proof.
  intros Hnd. unfold all_pairs. apply NoDup_bind; [| |exact Hnd].
  - intros a1 a2 p _ _ H1 H2.
    apply list_elem_of_bind in H1 as (b1 & H1 & _).
    apply list_elem_of_bind in H2 as (b2 & H2 & _).
    apply list_elem_of_singleton in H1, H2. congruence.
  - intros a _. apply NoDup_bind; [| |exact Hnd].
    + intros b1 b2 p _ _ H1 H2. apply list_elem_of_singleton in H1, H2. congruence.
    + intros b _. apply NoDup_singleton.
Qed.

Lemma NoDup_map_Str (ss : list string) : NoDup ss -> NoDup (map Str ss).
Proof. apply NoDup_fmap_2. intros a b [= ->]. reflexivity. Qed.

(** Each row of the stacked matrix is a cell of the matrix with the labels
    of its row and its column. *)
Lemma elem_of_stack (dm : DistMatrix) (r : pair_row) :
  r ∈ stack dm ->
  exists i j,
    dm_labels dm !! i = Some (la_1 r) /\ dm_labels dm !! j = Some (la_2 r) /\
    entry dm i j = Some (distance_of r).
Proof.
  unfold stack. intros H. apply list_elem_of_bind in H as ([a row] & H & Har).
  apply list_elem_of_bind in H as ([b d] & H & Hbd).
  apply list_elem_of_singleton in H. subst r. simpl in *.
  apply list_elem_of_lookup in Har as [i Hi]. apply list_elem_of_lookup in Hbd as [j Hj].
  apply lookup_zip_Some in Hi as [Hi1 Hi2]. apply lookup_zip_Some in Hj as [Hj1 Hj2].
  exists i, j. unfold entry, la_1, la_2, distance_of. simpl.
  rewrite Hi2. simpl. auto.
Qed.

(** ** Building the distance matrix *)

Lemma select_columns_inv (ls : list string) (cs cs' : list (string * series)) :
  select_columns ls cs = Ok cs' ->
  Forall (fun c => c ∈ cs) cs' /\
  (forall l, l ∈ map fst cs' <-> l ∈ ls).
Proof.
  revert cs'. induction ls as [|l ls IH]; simpl; intros cs'.
  - intros [= <-]. split; [constructor | reflexivity].
  - destruct (find_columns l cs) as [|s0 ss] eqn:Hf; [discriminate|].
    intros H. apply result_bind_ok in H as (rest & Hrest & [= <-]).
    destruct (IH rest Hrest) as [Hin Hl].
    change ((l, s0) :: map (pair l) ss ++ rest) with (map (pair l) (s0 :: ss) ++ rest).
    split.
    + apply Forall_app. split; [|exact Hin].
      apply Forall_forall. intros c Hc.
      apply list_elem_of_fmap in Hc as (s & -> & Hs).
      rewrite <- Hf in Hs. unfold find_columns in Hs.
      apply list_elem_of_fmap in Hs as ([l' s'] & -> & Hs).
      apply list_elem_of_filter in Hs as [Hl' Hs]. simpl in Hl'. subst l'. exact Hs.
    + intros l'. rewrite map_app, elem_of_app, elem_of_cons, Hl.
      rewrite <- list_fmap_compose. split.
      * intros [H|H]; [left|right; exact H].
        apply list_elem_of_fmap in H as (s & -> & _). reflexivity.
      * intros [->|H]; [left|right; exact H].
        apply list_elem_of_fmap. exists s0. split; [reflexivity | left].
Qed.

Lemma select_columns_nodup (ls : list string) (cs : list (string * series)) :
  NoDup (map fst cs) -> (forall l, l ∈ ls -> l ∈ map fst cs) ->
  exists cs', select_columns ls cs = Ok cs' /\ map fst cs' = ls.
Proof.
  intros Hnd. induction ls as [|l ls IH]; intros Hin; simpl.
  - exists []. auto.
  - destruct (find_columns_nodup l cs Hnd) as (s & Hs & _); [apply Hin; left|].
    rewrite Hs. destruct IH as (rest & -> & Hrest).
    { intros l' Hl'. apply Hin. right. exact Hl'. }
    simpl. eexists. split; [reflexivity|]. simpl. congruence.
Qed.

Lemma getitems_wf (ls : list string) (df df' : DataFrame) :
  getitems ls df = Ok df' -> wf_df df -> wf_df df' /\ nrows df' = nrows df.
Proof.
  unfold getitems. destruct (select_columns ls (columns df)) as [cs|e] eqn:E; simpl;
    [|discriminate].
  intros [= <-] Hwf. split; [|reflexivity]. unfold wf_df in *. simpl.
  destruct (select_columns_inv _ _ _ E) as [Hin _].
  rewrite Forall_forall in Hin, Hwf. apply Forall_forall. intros c Hc.
  apply Hwf, Hin, Hc.
Qed.

Lemma getitems_getitem (ls : list string) (l : string) (s : series) (df df' : DataFrame) :
  getitems ls df = Ok df' -> getitem l df' = Ok s -> (l, s) ∈ columns df.
Proof.
  unfold getitems. destruct (select_columns ls (columns df)) as [cs|e] eqn:E; simpl;
    [|discriminate].
  intros [= <-] Hs. apply getitem_ok_in in Hs. simpl in Hs.
  destruct (select_columns_inv _ _ _ E) as [Hin _].
  rewrite Forall_forall in Hin. apply Hin, Hs.
Qed.

Lemma in_columns_getitem (l : string) (s : series) (df : DataFrame) :
  NoDup (labels df) -> (l, s) ∈ columns df -> getitem l df = Ok s.
Proof.
  intros Hnd Hin.
  assert (l ∈ labels df) as Hl by (apply (list_elem_of_fmap_2 fst) in Hin; exact Hin).
  destruct (find_columns_nodup l (columns df) Hnd Hl) as (s' & Hs' & _).
  unfold getitem. rewrite Hs'. f_equal.
  assert (s ∈ find_columns l (columns df)) as Hs.
  { unfold find_columns. apply list_elem_of_fmap. exists (l, s). split; [reflexivity|].
    apply list_elem_of_filter. split; [reflexivity | exact Hin]. }
  rewrite Hs' in Hs. apply list_elem_of_singleton in Hs. congruence.
Qed.

Lemma mapM_result_ok {A B} (f : A -> result B) (l : list A) :
  (forall a, a ∈ l -> exists b, f a = Ok b) ->
  exists bs, mapM (M := result) f l = Ok bs /\ length bs = length l.
Proof.
  induction l as [|a l IH]; intros Hok.
  - exists []. split; reflexivity.
  - destruct (Hok a) as [b Hb]; [left|].
    destruct IH as (bs & Hbs & Hlen); [intros a' Ha'; apply Hok; right; exact Ha'|].
    exists (b :: bs). simpl. rewrite Hb. simpl. rewrite Hbs. simpl.
    split; [reflexivity | congruence].
Qed.

Lemma to_rows_length (df : DataFrame) (X : list (list Q)) :
  to_rows df = Ok X -> length X = nrows df.
Proof.
  unfold to_rows.
  destruct (mapM (M := result) (fun c => as_float c.2) (columns df)) as [cols|e]; simpl;
    [|discriminate].
  intros [= <-]. rewrite length_map, length_seq. reflexivity.
Qed.

Section DistanceMatrix.
Context (K : Kernel).

(** A matrix that [distance_matrix] returns is labelled by the name column,
    has one row per row of the table, is symmetric and has a zero
    diagonal. *)
Lemma distance_matrix_inv (df : DataFrame) (la_code la_name metric : string)
    (dm : DistMatrix) :
  wf_df df ->
  distance_matrix K df la_code la_name metric = Ok dm ->
  (la_name, dm_labels dm) ∈ columns df /\
  length (dm_labels dm) = nrows df /\
  dm_square dm /\
  (forall i j, entry dm i j = entry dm j i) /\
  (forall i, (i < nrows df)%nat -> entry dm i i = Some 0).
Proof.
  intros Hwf. unfold distance_matrix.
  set (new_cols := [la_code; la_name] ++ _).
  destruct (getitems new_cols df) as [df1|e] eqn:Hdf1; simpl; [|discriminate].
  destruct (drop_columns [la_code; la_name] df1) as [features|e]; simpl; [|discriminate].
  destruct (to_rows features) as [X|e]; simpl; [|discriminate].
  destruct (pdist_metric K metric) as [m|]; simpl; [|discriminate].
  destruct (squareform (pdist m X)) as [sq|e] eqn:Hsq; simpl; [|discriminate].
  destruct (getitem la_name df1) as [names|e] eqn:Hnames; simpl; [|discriminate].
  intros Hdm. apply labelled_matrix_inv in Hdm as [-> Hsquare]. simpl.
  pose proof (getitems_getitem _ _ _ _ _ Hdf1 Hnames) as Hin.
  assert (length names = nrows df) as Hlen.
  { unfold wf_df in Hwf. rewrite Forall_forall in Hwf. exact (Hwf _ Hin). }
  destruct (squareform_shape _ _ Hsq) as (_ & _ & Hsym & Hdiag).
  split; [exact Hin|]. split; [exact Hlen|]. split; [exact Hsquare|].
  unfold entry. simpl. split; [exact Hsym|].
  intros i Hi. apply Hdiag. destruct Hsquare as [Hl _]. simpl in Hl. lia.
Qed.

(** It returns on a table that fits the schema. *)
Lemma distance_matrix_ok (df : DataFrame) (la_code la_name metric : string)
    (m : list Q -> list Q -> Q) :
  NoDup (labels df) -> wf_df df -> (0 < nrows df)%nat ->
  la_code ∈ labels df -> la_name ∈ labels df -> la_code <> la_name ->
  (forall l s, (l, s) ∈ columns df -> l ∉ [la_code; la_name] -> exists x, s = of_float x) ->
  pdist_metric K metric = Some m ->
  exists dm, distance_matrix K df la_code la_name metric = Ok dm.
Proof.
  intros Hnd Hwf Hpos Hcode Hname Hne Hnum Hm. unfold distance_matrix.
  set (old_cols := filter (fun col => col ∉ [la_code; la_name]) (labels df)).
  destruct (select_columns_nodup ([la_code; la_name] ++ old_cols) (columns df) Hnd)
    as (cs & Hcs & Hlabels).
  { intros l Hl. apply elem_of_app in Hl as [Hl|Hl].
    - apply elem_of_cons in Hl as [->|Hl]; [exact Hcode|].
      apply list_elem_of_singleton in Hl. subst l. exact Hname.
    - apply list_elem_of_filter in Hl. tauto. }
  unfold getitems. rewrite Hcs. simpl.
  set (df1 := mkDF (nrows df) cs).
  assert (NoDup (labels df1)) as Hnd1.
  { unfold labels, df1. simpl. rewrite Hlabels. simpl.
    apply NoDup_cons. split.
    - rewrite elem_of_cons. intros [H|H]; [contradiction|].
      apply list_elem_of_filter in H as [H _]. apply H. left.
    - apply NoDup_cons. split.
      + intros H. apply list_elem_of_filter in H as [H _]. apply H. right. left.
      + apply NoDup_filter. exact Hnd. }
  destruct (select_columns_inv _ _ _ Hcs) as [Hin _].
  rewrite Forall_forall in Hin.
  unfold drop_columns.
  assert (filter (fun l => l ∉ labels df1) [la_code; la_name] = []) as ->.
  { unfold labels, df1. simpl. rewrite Hlabels. simpl.
    rewrite !filter_cons, filter_nil.
    rewrite decide_False by (intros H; apply H; left).
    rewrite decide_False by (intros H; apply H; right; left).
    reflexivity. }
  simpl.
  destruct (mapM_result_ok (fun c : string * series => as_float c.2)
              (filter (fun c : string * series => c.1 ∉ [la_code; la_name]) cs))
    as (cols & Hcols & _).
  { intros c Hc. apply list_elem_of_filter in Hc as [Hl Hc].
    destruct c as [l s]. destruct (Hnum l s (Hin _ Hc) Hl) as [x ->].
    exists x. apply as_float_of_float. }
  unfold to_rows. simpl. rewrite Hcols. simpl. rewrite Hm. simpl.
  match goal with |- context [pdist m ?X] => set (rows := X) end.
  assert (length rows = nrows df) as Hrows.
  { unfold rows. rewrite length_map, length_seq. reflexivity. }
  destruct (squareform_pdist m rows) as (sq & Hsq & Hlsq).
  { intros Hnil. rewrite Hnil in Hrows. simpl in Hrows. lia. }
  rewrite Hsq. simpl.
  assert (la_name ∈ labels df1) as Hname1.
  { unfold labels, df1. simpl. rewrite Hlabels. right. left. }
  destruct (getitem_nodup la_name df1 Hnd1 Hname1) as [names Hnames].
  rewrite Hnames. simpl.
  assert (length names = nrows df) as Hlen.
  { apply getitem_ok_in in Hnames. simpl in Hnames.
    unfold wf_df in Hwf. rewrite Forall_forall in Hwf. exact (Hwf _ (Hin _ Hnames)). }
  unfold labelled_matrix.
  destruct (squareform_shape _ _ Hsq) as (_ & Hrowlen & _ & _).
  assert ((length sq =? length names)%nat = true) as -> by (apply Nat.eqb_eq; lia).
  assert (forallb (fun row => length row =? length names)%nat sq = true) as ->.
  { apply forallb_forall. intros row Hrow. apply Nat.eqb_eq.
    rewrite Forall_forall in Hrowlen. rewrite (Hrowlen row); [lia|].
    apply list_elem_of_In. exact Hrow. }
  simpl. eauto.
Qed.

End DistanceMatrix.

Lemma Sorted_weaken {A} (R R' : A -> A -> Prop) (l : list A) :
  (forall a b, R a b -> R' a b) -> Sorted R l -> Sorted R' l.
Proof.
  intros HR. induction 1 as [|a l Hs IH Hhd]; constructor; [exact IH|].
  destruct Hhd; constructor. apply HR. assumption.
Qed.

Lemma cell_eqb_refl (c : cell) : cell_eqb c c = true.
Proof.
  destruct c as [s|q]; simpl.
  - apply bool_decide_eq_true. reflexivity.
  - apply Qeq_bool_iff. reflexivity.
Qed.

Lemma homogeneous_strings (l : list cell) :
  Forall (fun c => exists s, c = Str s) l -> homogeneous l = true.
Proof.
  destruct l as [|c l]; [reflexivity|]. intros H.
  apply Forall_cons in H as [[s ->] H]. simpl.
  apply forallb_forall. intros c Hc. rewrite Forall_forall in H.
  destruct (H c) as [t ->]; [apply list_elem_of_In; exact Hc | reflexivity].
Qed.

Lemma pairwise_rows_spec (dm : DistMatrix) (ss : list string) :
  dm_square dm -> dm_labels dm = map Str ss -> NoDup ss ->
  exists rows,
    pairwise_rows dm = Ok rows /\
    length rows = (length ss * (length ss - 1))%nat /\
    (forall r, r ∈ rows -> la_1 r <> la_2 r) /\
    (forall a b, a ∈ ss -> b ∈ ss -> a <> b -> (Str a, Str b) ∈ map pair_key rows) /\
    NoDup (map pair_key rows) /\
    (forall r, r ∈ rows ->
       exists i j, dm_labels dm !! i = Some (la_1 r) /\ dm_labels dm !! j = Some (la_2 r) /\
                   entry dm i j = Some (distance_of r)) /\
    Sorted pair_le rows.
Proof.
  intros Hsq Hlabels Hnd. unfold pairwise_rows.
  set (filtered := filter _ (stack dm)).
  assert (map pair_key filtered = filter off_diagonal (all_pairs (map Str ss))) as Hkeys.
  { unfold filtered. rewrite <- Hlabels, <- (stack_keys dm Hsq).
    rewrite <- (filter_map_key pair_key off_diagonal). reflexivity. }
  assert (forall r, r ∈ filtered -> r ∈ stack dm /\ la_1 r <> la_2 r) as Hfiltered.
  { intros r Hr. apply list_elem_of_filter in Hr as [Hoff Hr]. split; [exact Hr|].
    intros Heq. rewrite Heq, cell_eqb_refl in Hoff. discriminate. }
  rewrite homogeneous_strings.
  2:{ apply Forall_fmap, Forall_forall. intros r Hr. simpl.
      destruct (Hfiltered r Hr) as [Hst _].
      destruct (elem_of_stack dm r Hst) as (i & _ & Hi & _).
      rewrite Hlabels, list_lookup_fmap in Hi.
      destruct (ss !! i) as [s|]; [|discriminate]. injection Hi as <-. eauto. }
  eexists. split; [reflexivity|].
  pose proof (stable_sort_perm pair_leb filtered) as Hperm.
  split; [|split; [|split; [|split; [|split]]]].
  - rewrite stable_sort_length, <- (length_map pair_key filtered), Hkeys.
    apply length_off_diagonal. exact Hnd.
  - intros r Hr. rewrite Hperm in Hr. apply Hfiltered. exact Hr.
  - intros a b Ha Hb Hne. rewrite Hperm, Hkeys.
    apply list_elem_of_filter. split; [apply off_diagonal_str; exact Hne|].
    apply elem_of_all_pairs. split; apply list_elem_of_fmap; eauto.
  - rewrite Hperm, Hkeys. apply NoDup_filter, NoDup_all_pairs, NoDup_map_Str, Hnd.
  - intros r Hr. rewrite Hperm in Hr. apply elem_of_stack. apply Hfiltered. exact Hr.
  - eapply Sorted_weaken; [|apply stable_sort_sorted, pair_leb_total].
    intros r1 r2. apply pair_leb_le.
Qed.

(** C2.  On a table that fits the schema (distinct labels, a string name
    column whose names are distinct, numeric feature columns, at least one
    row) and for a metric that [pdist] knows, the distance matrix is
    produced, is labelled by the names, is symmetric and has a zero
    diagonal; the long table is produced and has [n * (n - 1)] rows for the
    [n] rows of the feature table, none of which pairs a name with itself;
    every ordered pair of distinct names is in it, once; every distance in
    it is the entry of the matrix for its two names; and it is sorted by
    [LA_1] and, within one [LA_1], by distance. *)
Theorem distance_table_invariants
    (K : Kernel) (df : DataFrame) (la_code la_name metric : string)
    (ss : list string) (m : list Q -> list Q -> Q) :
  NoDup (labels df) -> wf_df df -> (0 < nrows df)%nat ->
  la_code ∈ labels df -> la_code <> la_name ->
  getitem la_name df = Ok (map Str ss) -> NoDup ss ->
  (forall l s, (l, s) ∈ columns df -> l ∉ [la_code; la_name] -> exists x, s = of_float x) ->
  pdist_metric K metric = Some m ->
  exists dm rows,
    distance_matrix K df la_code la_name metric = Ok dm /\
    dm_labels dm = map Str ss /\ length ss = nrows df /\
    (forall i j, entry dm i j = entry dm j i) /\
    (forall i, (i < nrows df)%nat -> entry dm i i = Some 0) /\
    create_pairwise_distance_df dm la_name "distance"
      = Ok (mkDF (length rows)
                 [ (la_name +:+ "_1", map la_1 rows);
                   (la_name +:+ "_2", map la_2 rows);
                   ("distance", of_float (map distance_of rows)) ]) /\
    length rows = (nrows df * (nrows df - 1))%nat /\
    (forall r, r ∈ rows -> la_1 r <> la_2 r) /\
    (forall a b, a ∈ ss -> b ∈ ss -> a <> b -> (Str a, Str b) ∈ map pair_key rows) /\
    NoDup (map pair_key rows) /\
    (forall r, r ∈ rows ->
       exists i j, dm_labels dm !! i = Some (la_1 r) /\ dm_labels dm !! j = Some (la_2 r) /\
                   entry dm i j = Some (distance_of r)) /\
    Sorted pair_le rows.
Proof.
  intros Hnd Hwf Hpos Hcode Hne Hnames Hndss Hnum Hm.
  destruct (distance_matrix_ok K df la_code la_name metric m Hnd Hwf Hpos Hcode
              (getitem_ok_label _ _ _ Hnames) Hne Hnum Hm) as [dm Hdm].
  destruct (distance_matrix_inv K df la_code la_name metric dm Hwf Hdm)
    as (Hin & Hlen & Hsq & Hsym & Hdiag).
  assert (dm_labels dm = map Str ss) as Hlabels.
  { apply (in_columns_getitem _ _ _ Hnd) in Hin. congruence. }
  assert (length ss = nrows df) as Hss.
  { rewrite <- Hlen, Hlabels, length_map. reflexivity. }
  destruct (pairwise_rows_spec dm ss Hsq Hlabels Hndss)
    as (rows & Hrows & Hcount & Hoff & Hall & Honce & Hentry & Hsorted).
  exists dm, rows. split; [exact Hdm|]. split; [exact Hlabels|]. split; [exact Hss|].
  split; [exact Hsym|]. split; [exact Hdiag|]. split.
  { unfold create_pairwise_distance_df. rewrite Hrows. reflexivity. }
  split; [rewrite <- Hss; exact Hcount|]. auto 10.
Qed.

(** ** Running the pipeline *)

Lemma M_run_bind {A B} (m : M A) (k : A -> M B) (w : world) :
  (m ≫= k) w =
  match m w with
  | (Ok a, w') => k a w'
  | (Raise e, w') => (Raise e, w')
  end.
Proof. reflexivity. Qed.

Lemma M_run_ret {A} (a : A) (w : world) : (mret a : M A) w = (Ok a, w).
Proof. reflexivity. Qed.

Lemma M_run_lift {A} (r : result A) (w : world) : lift r w = (r, w).
Proof. reflexivity. Qed.

Lemma load_ok (r : ref) (d : DataFrame) (w : world) :
  heap w !! r = Some d -> load r w = (Ok d, w).
Proof. intros H. unfold load. rewrite H. reflexivity. Qed.

Lemma mapM_result_inv {A B} (f : A -> result B) (l : list A) (bs : list B) :
  mapM (M := result) f l = Ok bs -> Forall2 (fun a b => f a = Ok b) l bs.
Proof.
  revert bs. induction l as [|a l IH]; intros bs; simpl.
  - intros [= <-]. constructor.
  - destruct (f a) as [b|e] eqn:Hb; simpl; [|discriminate].
    destruct (mapM f l) as [bs'|e]; simpl; [|discriminate].
    intros [= <-]. constructor; [exact Hb | apply IH; reflexivity].
Qed.

(** ** Peers *)

Lemma column_of_length (dm : DistMatrix) (j : nat) :
  dm_square dm -> (j < length (dm_labels dm))%nat ->
  length (column_of dm j) = length (dm_labels dm).
Proof.
  intros [Hlen Hrows] Hj. unfold column_of. rewrite <- Hlen. clear Hlen.
  induction Hrows as [|row data Hrow Hrows IH]; [reflexivity|]. simpl.
  destruct (row !! j) as [q|] eqn:Hq.
  - simpl. f_equal. exact IH.
  - apply lookup_ge_None in Hq. lia.
Qed.

Lemma peer_row_width (dm : DistMatrix) (k : Z) (j : nat) (column : cell) (r : list cell) :
  dm_square dm -> (j < length (dm_labels dm))%nat ->
  (Z.of_nat (length (dm_labels dm)) <= k)%Z ->
  peer_row dm k j column = Ok r -> length r = length (dm_labels dm).
Proof.
  intros Hsq Hj Hk. unfold peer_row.
  destruct (length (filter _ (dm_labels dm)) =? 1)%nat; [|discriminate].
  intros [= <-]. simpl. rewrite length_drop, length_map. unfold nsmallest.
  rewrite length_take, stable_sort_length, length_zip_with.
  rewrite (column_of_length dm j Hsq Hj). lia.
Qed.

Lemma frame_of_rows_narrow (cols : list string) (rows : list (list cell)) (r : list cell) :
  r ∈ rows -> length r <> length cols -> failed (frame_of_rows cols rows).
Proof.
  intros Hr Hne. unfold frame_of_rows. destruct rows as [|r0 rows]; [inversion Hr|].
  destruct (forallb _ (r0 :: rows)) eqn:E; [|exact I].
  rewrite forallb_forall in E. exfalso. apply Hne. apply Nat.eqb_eq, E.
  apply list_elem_of_In. exact Hr.
Qed.

Lemma peer_columns_length (la_name : string) (k : Z) :
  length (peer_columns la_name k) = S (Z.to_nat k).
Proof. unfold peer_columns. simpl. rewrite length_map, length_seq. reflexivity. Qed.

(** With [k] at least the number of labels, the rows of peers are too
    narrow for the [k + 1] columns of the peers table. *)
Lemma peers_table_fails (dm : DistMatrix) (k : Z) (la_name : string)
    (rows : list (list cell)) :
  dm_square dm -> (1 <= length (dm_labels dm))%nat ->
  (Z.of_nat (length (dm_labels dm)) <= k)%Z ->
  n_nearest_neighbours_array dm k = Ok rows ->
  failed (frame_of_rows (peer_columns la_name k) rows).
Proof.
  intros Hsq Hn Hk Hrows. unfold n_nearest_neighbours_array in Hrows.
  apply mapM_result_inv in Hrows.
  destruct (dm_labels dm) as [|c0 names] eqn:Hlabels; [simpl in Hn; lia|].
  simpl in Hrows. inversion Hrows as [|jc r ? rest Hr _]; subst. simpl in Hr.
  apply (frame_of_rows_narrow _ _ r); [left|].
  rewrite peer_columns_length.
  assert (length r = length (dm_labels dm)) as Hw.
  { apply (peer_row_width dm k 0 c0 r Hsq);
      [rewrite Hlabels; simpl; lia | rewrite Hlabels; exact Hk | exact Hr]. }
  rewrite Hw, Hlabels. simpl in *. lia.
Qed.

Section PeersFail.
Context (K : Kernel).

Lemma distance_matrix_nonempty (df : DataFrame) (la_code la_name metric : string)
    (dm : DistMatrix) :
  distance_matrix K df la_code la_name metric = Ok dm ->
  (1 <= length (dm_labels dm))%nat.
Proof.
  unfold distance_matrix.
  destruct (getitems _ df) as [df1|e]; simpl; [|discriminate].
  destruct (drop_columns _ df1) as [features|e]; simpl; [|discriminate].
  destruct (to_rows features) as [X|e]; simpl; [|discriminate].
  destruct (pdist_metric K metric) as [m|]; simpl; [|discriminate].
  destruct (squareform (pdist m X)) as [sq|e] eqn:Hsq; simpl; [|discriminate].
  destruct (getitem la_name df1) as [names|e]; simpl; [|discriminate].
  intros Hdm. apply labelled_matrix_inv in Hdm as [-> [Hlen _]]. simpl in *.
  destruct (squareform_shape _ _ Hsq) as (H1 & _). lia.
Qed.

(** C7.  Whatever the table behind [df], [calculate_distance] raises when
    [k] is at least its number of rows. *)
Theorem calculate_distance_k_too_large
    (w : world) (df : ref) (d : DataFrame) (output_folders : list string)
    (la_code la_name : string) (k : Z) (distance_metric : string) :
  heap w !! df = Some d -> wf_df d -> (Z.of_nat (nrows d) <= k)%Z ->
  failed (fst (calculate_distance K df output_folders la_code la_name k distance_metric w)).
Proof.
  intros Hd Hwf Hk. unfold calculate_distance.
  rewrite M_run_bind, (load_ok _ _ _ Hd).
  rewrite M_run_bind, M_run_lift.
  destruct (of_option (output_folders !! 1%nat) _) as [output|e]; [|exact I].
  rewrite M_run_bind, M_run_lift.
  destruct (distance_matrix K d la_code la_name distance_metric) as [dm|e] eqn:Hdm; [|exact I].
  destruct (distance_matrix_inv K d la_code la_name distance_metric dm Hwf Hdm)
    as (_ & Hlen & Hsq & _ & _).
  pose proof (distance_matrix_nonempty d la_code la_name distance_metric dm Hdm) as Hn.
  rewrite M_run_bind, M_run_lift.
  destruct (create_pairwise_distance_df dm la_name "distance") as [long|e]; [|exact I].
  rewrite M_run_bind.
  match goal with
  | |- context [for_each (M := M) ?ps ?body w] =>
      destruct (for_each (M := M) ps body w) as [[[]|e] w1] eqn:Hw1; [|exact I]
  end.
  rewrite M_run_bind, M_run_lift.
  destruct (n_nearest_neighbours_array dm k) as [rows|e] eqn:Hrows; [|exact I].
  rewrite M_run_bind, M_run_lift.
  assert (failed (frame_of_rows (peer_columns la_name k) rows)) as Hfail.
  { apply (peers_table_fails dm k la_name rows Hsq Hn); [lia | exact Hrows]. }
  destruct (frame_of_rows (peer_columns la_name k) rows); [contradiction | exact I].
Qed.

End PeersFail.

(** ** Concrete tables *)

Definition four_las : DataFrame :=
  mkDF 4 [ ("code", [Str "E1"; Str "E2"; Str "E3"; Str "E4"]);
           ("name", [Str "A"; Str "B"; Str "C"; Str "D"]);
           ("x", [Num 10; Num 20; Num 30; Num 1000]) ].

Definition tied_candidates : DataFrame :=
  mkDF 3 [ ("index", [Num 0; Num 1; Num 2]);
           ("transformation_1", [Num 1; Num 2; Num 4]);
           ("transformation_2", [Num 1; Num 2; Num 3]);
           ("transformation_3", [Num 2; Num 4; Num 6]) ].

Definition positive_feature : DataFrame :=
  mkDF 3 [ ("index", [Num 0; Num 1; Num 2]);
           ("transformation_1", [Num 2; Num 4; Num 6]) ].

Ltac elem_cases H :=
  repeat (apply elem_of_cons in H as [H|H]); [..|inversion H].


Ltac nodup_compute := apply (bool_decide_unpack _); vm_compute; reflexivity.

Lemma distance_table_invariants_witness :
  exists dm rows,
    distance_matrix Sample.kernel four_las "code" "name" "cityblock" = Ok dm /\
    dm_labels dm = map Str ["A"; "B"; "C"; "D"] /\
    length ["A"; "B"; "C"; "D"] = nrows four_las /\
    (forall i j, entry dm i j = entry dm j i) /\
    (forall i, (i < nrows four_las)%nat -> entry dm i i = Some 0) /\
    create_pairwise_distance_df dm "name" "distance"
      = Ok (mkDF (length rows)
                 [ ("name" +:+ "_1", map la_1 rows);
                   ("name" +:+ "_2", map la_2 rows);
                   ("distance", of_float (map distance_of rows)) ]) /\
    length rows = (nrows four_las * (nrows four_las - 1))%nat /\
    (forall r, r ∈ rows -> la_1 r <> la_2 r) /\
    (forall a b, a ∈ ["A"; "B"; "C"; "D"] -> b ∈ ["A"; "B"; "C"; "D"] -> a <> b ->
                 (Str a, Str b) ∈ map pair_key rows) /\
    NoDup (map pair_key rows) /\
    (forall r, r ∈ rows ->
       exists i j, dm_labels dm !! i = Some (la_1 r) /\ dm_labels dm !! j = Some (la_2 r) /\
                   entry dm i j = Some (distance_of r)) /\
    Sorted pair_le rows.
Proof.
  apply (distance_table_invariants Sample.kernel four_las "code" "name" "cityblock"
           ["A"; "B"; "C"; "D"] Sample.cityblock).
  - nodup_compute.
  - repeat constructor.
  - simpl. lia.
  - left.
  - discriminate.
  - reflexivity.
  - nodup_compute.
  - intros l s Hin Hl. simpl in Hin. elem_cases Hin; injection Hin as -> ->.
    + exfalso. apply Hl. left.
    + exfalso. apply Hl. right. left.
    + exists [10; 20; 30; 1000]. reflexivity.
  - reflexivity.
Defined.

Lemma best_gaussian_is_first_max_witness :
  exists df' before c after p,
    InPlace._get_best_gaussian_transformation Sample.kernel "transformation" ["index"]
      tied_candidates = (Ok tt, df') /\
    filter (fun c => c ∉ ["index"]) (labels tied_candidates) = before ++ c :: after /\
    p_value_of Sample.kernel tied_candidates c = Ok p /\
    getitem ("transformation" +:+ "_best") df' = getitem c tied_candidates /\
    (forall c' p', c' ∈ before -> p_value_of Sample.kernel tied_candidates c' = Ok p' -> p' < p) /\
    (forall c' p', c' ∈ after -> p_value_of Sample.kernel tied_candidates c' = Ok p' -> p' <= p).
Proof.
  apply (best_gaussian_is_first_max Sample.kernel "transformation" ["index"] tied_candidates).
  - nodup_compute.
  - repeat constructor.
  - vm_compute. discriminate.
  - intros c Hc Hk. simpl in Hc. elem_cases Hc; subst c.
    + exfalso. apply Hk. left.
    + eexists. vm_compute. reflexivity.
    + eexists. vm_compute. reflexivity.
    + eexists. vm_compute. reflexivity.
Defined.

(** On [tied_candidates] the second and the third candidate tie on the
    largest p-value, and the second, which comes first, is taken. *)
Example best_gaussian_breaks_tie :
  p_value_of Sample.kernel tied_candidates "transformation_2" = Ok 1 /\
  p_value_of Sample.kernel tied_candidates "transformation_3" = Ok 1 /\
  (getitem "transformation_best"
     (snd (InPlace._get_best_gaussian_transformation Sample.kernel "transformation"
             ["index"] tied_candidates)))
  = getitem "transformation_2" tied_candidates.
Proof. vm_compute. auto. Qed.


(** The two runs of [tests/model_test.py::test_transform_var]: a column
    without a zero and a column with one. *)
Example transform_var_on_test_columns :
  fst (InPlace._transform_var Sample.kernel "transformation_1" positive_feature) = Ok true /\
  fst (InPlace._transform_var Sample.kernel "transformation_2"
         (mkDF 3 [ ("index", [Num 0; Num 1; Num 2]);
                   ("transformation_2", [Num 0; Num 2; Num 4]) ])) = Ok false.
Proof. vm_compute. auto. Qed.

Definition world_of (d : DataFrame) : world :=
  mkWorld {[ 0%nat := d ]} 1 ∅ [].

Lemma calculate_distance_k_too_large_witness :
  failed (fst (calculate_distance Sample.kernel 0%nat ["f0"; "f1"; "f2"; "f3"]
                 "code" "name" 4 "euclidean" (world_of four_las))).
Proof.
  apply (calculate_distance_k_too_large Sample.kernel (world_of four_las) 0%nat four_las).
  - reflexivity.
  - repeat constructor.
  - simpl. lia.
Defined.

(** ** Two authorities with the same features *)

Definition twin_las : DataFrame :=
  mkDF 3 [ ("code", [Str "E1"; Str "E2"; Str "E3"]);
           ("name", [Str "A"; Str "B"; Str "C"]);
           ("x", [Num 0; Num 0; Num 1]) ].

Definition twin_matrix : DistMatrix :=
  mkDM [Str "A"; Str "B"; Str "C"] [ [0; 0; 1]; [0; 0; 1]; [1; 1; 0] ].

(** C1 on the code.  [A] and [B] have the same feature row, so their
    distance is 0, and [A] comes first in the matrix.  With [k = 1] the two
    nearest rows in column [B] are [A] and then [B] itself; the code drops
    the first and keeps [B] as the peer of [B]: the peer list of [B] holds
    [B], and the nearest other authority, [A], is not in it. *)
Theorem peers_of_twin_contain_itself :
  distance_matrix Sample.kernel twin_las "code" "name" "cityblock" = Ok twin_matrix /\
  (1 <= 1 < Z.of_nat (length (dm_labels twin_matrix)))%Z /\
  nsmallest (1 + 1) 1 twin_matrix = [(Str "A", 0); (Str "B", 0)] /\
  peer_row twin_matrix 1 1 (Str "B") = Ok [Str "B"; Str "B"] /\
  n_nearest_neighbours_array twin_matrix 1
  = Ok [ [Str "A"; Str "B"]; [Str "B"; Str "B"]; [Str "C"; Str "A"] ].
Proof. vm_compute. repeat split; congruence. Qed.

(** ** Stages and the table they are given *)






(** ** What a run writes *)

Definition log_entry : Type := file_kind * string * string.

(** From [w] to [w'] only files that [allowed] admits were written. *)
Definition log_grows (allowed : log_entry -> Prop) (w w' : world) : Prop :=
  exists new, written w' = new ++ written w /\ Forall allowed new.

Lemma log_grows_refl (allowed : log_entry -> Prop) (w : world) : log_grows allowed w w.
Proof. exists []. split; [reflexivity | constructor]. Qed.

Lemma log_grows_same (allowed : log_entry -> Prop) (w w' : world) :
  written w' = written w -> log_grows allowed w w'.
Proof. intros H. exists []. split; [exact H | constructor]. Qed.

Lemma log_grows_trans (allowed : log_entry -> Prop) (w1 w2 w3 : world) :
  log_grows allowed w1 w2 -> log_grows allowed w2 w3 -> log_grows allowed w1 w3.
Proof.
  intros (n1 & E1 & H1) (n2 & E2 & H2). exists (n2 ++ n1). split.
  - rewrite E2, E1, app_assoc. reflexivity.
  - apply Forall_app. split; assumption.
Qed.


(** Whatever the outcome, [m] writes only files that [allowed] admits. *)
Definition M_logs (allowed : log_entry -> Prop) {A} (m : M A) : Prop :=
  forall w, log_grows allowed w (snd (m w)).

Section Logs.
Context (allowed : log_entry -> Prop).

Lemma M_logs_ret {A} (a : A) : M_logs allowed (mret a : M A).
Proof. intros w. apply log_grows_refl. Qed.

Lemma M_logs_lift {A} (r : result A) : M_logs allowed (lift r).
Proof. intros w. apply log_grows_refl. Qed.

Lemma M_logs_bind {A B} (m : M A) (k : A -> M B) :
  M_logs allowed m -> (forall a, M_logs allowed (k a)) -> M_logs allowed (m ≫= k).
Proof.
  intros Hm Hk w. rewrite M_run_bind. specialize (Hm w).
  destruct (m w) as [[a|e] w1]; simpl in *; [|exact Hm].
  eapply log_grows_trans; [exact Hm | apply Hk].
Qed.

Lemma M_logs_new_object (d : DataFrame) : M_logs allowed (new_object d).
Proof. intros w. apply log_grows_same. reflexivity. Qed.

Lemma M_logs_load (r : ref) : M_logs allowed (load r).
Proof. intros w. apply log_grows_refl. Qed.

Lemma M_logs_on_object {A} (r : ref) (body : D A) : M_logs allowed (on_object r body).
Proof.
  intros w. unfold on_object. destruct (heap w !! r); [|apply log_grows_refl].
  destruct (body d). apply log_grows_same. reflexivity.
Qed.

Lemma M_logs_read_csv (path : string) : M_logs allowed (read_csv path).
Proof.
  intros w. unfold read_csv. destruct (csv_files w !! path); [|apply log_grows_refl].
  apply M_logs_new_object.
Qed.



Lemma M_logs_for_each {A} (xs : list A) (body : A -> M unit) :
  (forall x, M_logs allowed (body x)) -> M_logs allowed (for_each xs body).
Proof.
  intros Hbody. induction xs as [|x xs IH]; simpl.
  - apply M_logs_ret.
  - apply M_logs_bind; [apply Hbody | intros _; exact IH].
Qed.


End Logs.

Ltac logs_step :=
  first
    [ apply M_logs_ret | apply M_logs_lift | apply M_logs_new_object
    | apply M_logs_load | apply M_logs_on_object | apply M_logs_read_csv
    | apply M_logs_bind; [|intros ?]
    | apply M_logs_for_each; intros ?
    | match goal with
      | |- M_logs _ (if ?b then _ else _) => destruct b
      | |- M_logs _ (let '(_, _) := ?p in _) => destruct p
      | |- M_logs _ (match ?p with (_, _) => _ end) => destruct p
      end ].


Section RunLogs.
Context (K : Kernel).

Lemma select_logs (allowed : log_entry -> Prop) (df : ref) (ls : list string) :
  M_logs allowed (select df ls).
Proof. unfold select. repeat logs_step. Qed.

Lemma copy_logs (allowed : log_entry -> Prop) (df : ref) : M_logs allowed (copy df).
Proof. unfold copy. repeat logs_step. Qed.

Lemma merge_new_logs (allowed : log_entry -> Prop) (l r : ref) (on : list string) :
  M_logs allowed (merge_new l r on).
Proof. unfold merge_new. repeat logs_step. Qed.



End RunLogs.

(** When [m] raises it has written only files that [quiet] admits. *)
Definition M_quiet_on_failure (quiet : log_entry -> Prop) {A} (m : M A) : Prop :=
  forall w, failed (fst (m w)) -> log_grows quiet w (snd (m w)).

Section Quiet.
Context (quiet : log_entry -> Prop).

Lemma quiet_of_logs {A} (m : M A) : M_logs quiet m -> M_quiet_on_failure quiet m.
Proof. intros H w _. apply H. Qed.





End Quiet.


Section RunWrites.
Context (K : Kernel).





End RunWrites.

Definition world_with_input (d : DataFrame) : world :=
  mkWorld ∅ 0 {[ joinpath INPUT_PATH params.aggregated_file := d ]} [].

Definition four_folders : list string := ["run/logs"; "run/data"; "run/report"; "run/plots"].



(** ** Runs that return *)

Lemma M_bind_ok {A B} (m : M A) (k : A -> M B) (w w'' : world) (b : B) :
  (m ≫= k) w = (Ok b, w'') ->
  exists a w', m w = (Ok a, w') /\ k a w' = (Ok b, w'').
Proof.
  rewrite M_run_bind. destruct (m w) as [[a|e] w']; [eauto | discriminate].
Qed.

Lemma lift_ok {A} (r : result A) (w w' : world) (a : A) :
  lift r w = (Ok a, w') -> r = Ok a /\ w' = w.
Proof. unfold lift. intros [= -> ->]. auto. Qed.

Lemma load_inv (r : ref) (w w' : world) (d : DataFrame) :
  load r w = (Ok d, w') -> heap w !! r = Some d /\ w' = w.
Proof.
  unfold load. destruct (heap w !! r) as [d0|]; simpl; [|discriminate].
  intros [= -> ->]. auto.
Qed.

(** The table [d] is behind [r], and [r] is a reference that has been
    handed out. *)
Definition holds (r : ref) (d : DataFrame) (w : world) : Prop :=
  heap w !! r = Some d /\ (r < next_ref w)%nat.

Lemma new_object_inv (d : DataFrame) (w w' : world) (r : ref) :
  new_object d w = (Ok r, w') ->
  holds r d w' /\
  (forall r0 d0, holds r0 d0 w -> holds r0 d0 w' /\ r0 <> r).
Proof.
  unfold new_object. intros [= <- <-]. unfold holds. simpl.
  split.
  - split; [apply lookup_insert_eq | lia].
  - intros r0 d0 [H0 Hlt]. split; [|lia]. split; [|lia].
    rewrite lookup_insert_ne by lia. exact H0.
Qed.

Lemma select_inv (df : ref) (ls : list string) (w w' : world) (v : ref) :
  select df ls w = (Ok v, w') ->
  exists d d',
    heap w !! df = Some d /\ getitems ls d = Ok d' /\ holds v d' w' /\
    (forall r0 d0, holds r0 d0 w -> holds r0 d0 w' /\ r0 <> v).
Proof.
  unfold select. intros H.
  apply M_bind_ok in H as (d & w1 & Hload & H). apply load_inv in Hload as [Hd ->].
  apply M_bind_ok in H as (d' & w2 & Hl & H). apply lift_ok in Hl as [Hd' ->].
  apply new_object_inv in H as (Hv & Hkeep). eauto 10.
Qed.

Lemma copy_inv (df : ref) (w w' : world) (v : ref) :
  copy df w = (Ok v, w') ->
  exists d, heap w !! df = Some d /\ holds v d w' /\
            (forall r0 d0, holds r0 d0 w -> holds r0 d0 w' /\ r0 <> v).
Proof.
  unfold copy. intros H.
  apply M_bind_ok in H as (d & w1 & Hload & H). apply load_inv in Hload as [Hd ->].
  apply new_object_inv in H as (Hv & Hkeep). eauto 10.
Qed.

Lemma merge_new_inv (left right : ref) (on : list string) (w w' : world) (v : ref) :
  merge_new left right on w = (Ok v, w') ->
  exists l r m,
    heap w !! left = Some l /\ heap w !! right = Some r /\ merge l r on = Ok m /\
    holds v m w' /\ (forall r0 d0, holds r0 d0 w -> holds r0 d0 w' /\ r0 <> v).
Proof.
  unfold merge_new. intros H.
  apply M_bind_ok in H as (l & w1 & Hload & H). apply load_inv in Hload as [Hl ->].
  apply M_bind_ok in H as (r & w2 & Hload & H). apply load_inv in Hload as [Hr ->].
  apply M_bind_ok in H as (m & w3 & Hm & H). apply lift_ok in Hm as [Hm ->].
  apply new_object_inv in H as (Hv & Hkeep). eauto 10.
Qed.

Lemma on_object_inv {A} (r : ref) (body : D A) (w w' : world) (a : A) :
  on_object r body w = (Ok a, w') ->
  exists d d',
    heap w !! r = Some d /\ body d = (Ok a, d') /\
    heap w' !! r = Some d' /\ next_ref w' = next_ref w /\
    (forall r0 d0, r0 <> r -> holds r0 d0 w -> holds r0 d0 w').
Proof.
  unfold on_object. destruct (heap w !! r) as [d|] eqn:Hd; [|discriminate].
  destruct (body d) as [res d'] eqn:Hbody. intros [= -> <-]. simpl.
  exists d, d'. split; [reflexivity|]. split; [exact Hbody|].
  split; [apply lookup_insert_eq|]. split; [reflexivity|].
  intros r0 d0 Hne [H0 Hlt]. split; [|exact Hlt]. simpl.
  rewrite lookup_insert_ne by congruence. exact H0.
Qed.

Lemma for_each_savefig_inv (dirs : list string) (name : string) (w w' : world) :
  for_each dirs (fun dir => savefig dir name) w = (Ok tt, w') ->
  heap w' = heap w /\ next_ref w' = next_ref w.
Proof.
  revert w. induction dirs as [|dir dirs IH]; intros w; simpl.
  - intros [= <-]. auto.
  - intros H. apply M_bind_ok in H as ([] & w1 & Hs & H).
    unfold savefig in Hs. injection Hs as <-. apply IH in H. simpl in H. exact H.
Qed.

Section ReturnedRuns.
Context (K : Kernel).

Lemma transformation_report_inv (output : string) (df : ref) (feature : string)
    (normalise gtz : bool) (w w' : world) :
  transformation_report output df feature normalise gtz w = (Ok tt, w') ->
  heap w' = heap w /\ next_ref w' = next_ref w.
Proof.
  unfold transformation_report. intros H.
  apply M_bind_ok in H as (d & w1 & Hload & H). apply load_inv in Hload as [_ ->].
  repeat (apply M_bind_ok in H as (? & ? & Hl & H); apply lift_ok in Hl as [_ ->]).
  apply M_bind_ok in H as ([] & w2 & Hg & H).
  assert (w2 = w) as ->.
  { destruct gtz.
    - repeat (apply M_bind_ok in Hg as (? & ? & Hl & Hg); apply lift_ok in Hl as [_ ->]).
      injection Hg as <-. reflexivity.
    - injection Hg as <-. reflexivity. }
  exact (for_each_savefig_inv _ _ _ _ H).
Qed.

(** The three stages of one feature, run on one table. *)
Definition stages (feature : string) (weight : Q) (la_keys : list string)
    (normalise : bool) : D bool :=
  greater_than_zero ← InPlace._transform_var K feature;
  (if normalise then InPlace._normalise_var weight la_keys else mret tt);;
  InPlace._get_best_gaussian_transformation K feature la_keys;;
  mret greater_than_zero.

(** One turn of the loop of [transform_data], on the tables themselves:
    [df_all] is the table read from disk and [transformed_output] the
    output so far. *)
Definition feature_step (la_keys : list string) (normalise : bool)
    (custom_transformation : option (gmap string string))
    (df_all transformed_output : DataFrame) (item : string * Q) : result DataFrame :=
  df_var ← getitems (la_keys ++ [item.1]) df_all;
  if Qltb 0 item.2 then
    match stages item.1 item.2 la_keys normalise df_var with
    | (Ok _, transformed_data) =>
        column_to_use ←
          getitems (la_keys ++ [chosen_column custom_transformation item.1])
                   transformed_data;
        merge transformed_output column_to_use la_keys
    | (Raise e, _) => Raise e
    end
  else Ok transformed_output.

Lemma stage_inv {A} (df : ref) (body : D A) (w w' : world) (out : ref * A) :
  (a ← on_object df body; mret (df, a)) w = (Ok out, w') ->
  exists d d',
    heap w !! df = Some d /\ body d = (Ok out.2, d') /\ out.1 = df /\
    heap w' !! df = Some d' /\ next_ref w' = next_ref w /\
    (forall r0 d0, r0 <> df -> holds r0 d0 w -> holds r0 d0 w').
Proof.
  intros H. apply M_bind_ok in H as (a & w1 & Hon & H).
  injection H as <- <-. apply on_object_inv in Hon as (d & d' & H1 & H2 & H3 & H4 & H5).
  exists d, d'. simpl. auto 10.
Qed.

Lemma stage_unit_inv (df : ref) (body : D unit) (w w' : world) (out : ref) :
  (on_object df body;; mret df) w = (Ok out, w') ->
  exists d d',
    heap w !! df = Some d /\ body d = (Ok tt, d') /\ out = df /\
    heap w' !! df = Some d' /\ next_ref w' = next_ref w /\
    (forall r0 d0, r0 <> df -> holds r0 d0 w -> holds r0 d0 w').
Proof.
  intros H. apply M_bind_ok in H as ([] & w1 & Hon & H).
  injection H as <- <-. apply on_object_inv in Hon as (d & d' & H1 & H2 & H3 & H4 & H5).
  exists d, d'. auto 10.
Qed.

Lemma holds_same (r : ref) (d : DataFrame) (w w' : world) :
  heap w' = heap w -> next_ref w' = next_ref w -> holds r d w -> holds r d w'.
Proof. unfold holds. intros -> ->. tauto. Qed.

(** A turn of the loop that returns has computed [feature_step]. *)
Lemma process_feature_ok (la_keys output_folders : list string) (report normalise : bool)
    (ct : option (gmap string string)) (df_all out out' : ref)
    (dall dout : DataFrame) (item : string * Q) (w w' : world) :
  holds df_all dall w -> holds out dout w ->
  process_feature K la_keys output_folders report normalise ct df_all out item w
    = (Ok out', w') ->
  exists dout',
    feature_step la_keys normalise ct dall dout item = Ok dout' /\
    holds df_all dall w' /\ holds out' dout' w'.
Proof.
  intros Hall Hout. unfold process_feature, feature_step. destruct item as [feature weight].
  simpl fst. simpl snd. intros H.
  apply M_bind_ok in H as (view & w1 & Hsel & H).
  apply select_inv in Hsel as (d & d0 & Hd & Hd0 & Hview & Hkeep1).
  rewrite (proj1 Hall) in Hd. injection Hd as <-.
  rewrite Hd0. simpl.
  apply M_bind_ok in H as (df_var & w2 & Hcopy & H).
  apply copy_inv in Hcopy as (d0' & Hd0' & Hvar & Hkeep2).
  rewrite (proj1 Hview) in Hd0'. injection Hd0' as <-.
  destruct (Hkeep2 _ _ (proj1 (Hkeep1 _ _ Hall))) as [Hall2 Hne1].
  destruct (Hkeep2 _ _ (proj1 (Hkeep1 _ _ Hout))) as [Hout2 Hne2].
  destruct (Qltb 0 weight).
  2:{ injection H as <- <-. exists dout. auto. }
  apply M_bind_ok in H as ([td g] & w3 & Ht & H).
  unfold _transform_var in Ht.
  apply stage_inv in Ht as (d & d1 & Hd & Hrun1 & Htd & Hd1 & Hn3 & Hkeep3).
  simpl in Hrun1, Htd. subst td. rewrite (proj1 Hvar) in Hd. injection Hd as <-.
  pose proof (Hkeep3 _ _ Hne1 Hall2) as Hall3. pose proof (Hkeep3 _ _ Hne2 Hout2) as Hout3.
  apply M_bind_ok in H as (td2 & w4 & Hnorm & H).
  assert (exists d2,
            (if normalise then InPlace._normalise_var weight la_keys else mret tt) d1
            = (Ok tt, d2) /\
            td2 = df_var /\ heap w4 !! df_var = Some d2 /\
            holds df_all dall w4 /\ holds out dout w4) as (d2 & Hrun2 & -> & Hd2 & Hall4 & Hout4).
  { destruct normalise.
    - unfold _normalise_var in Hnorm.
      apply stage_unit_inv in Hnorm as (d & d2 & Hd & Hrun2 & -> & Hd2 & _ & Hkeep4).
      rewrite Hd1 in Hd. injection Hd as <-. exists d2. auto 10.
    - injection Hnorm as <- <-. exists d1. auto 10. }
  apply M_bind_ok in H as (td3 & w5 & Hbest & H).
  unfold _get_best_gaussian_transformation in Hbest.
  apply stage_unit_inv in Hbest as (d & d3 & Hd & Hrun3 & -> & Hd3 & _ & Hkeep5).
  rewrite Hd2 in Hd. injection Hd as <-.
  pose proof (Hkeep5 _ _ Hne1 Hall4) as Hall5. pose proof (Hkeep5 _ _ Hne2 Hout4) as Hout5.
  apply M_bind_ok in H as ([] & w6 & Hrep & H).
  assert (heap w6 = heap w5 /\ next_ref w6 = next_ref w5) as [Hh6 Hn6].
  { destruct report.
    - apply M_bind_ok in Hrep as (o & w5' & Hl & Hrep). apply lift_ok in Hl as [_ ->].
      exact (transformation_report_inv _ _ _ _ _ _ _ Hrep).
    - injection Hrep as <-. auto. }
  apply M_bind_ok in H as (cu_ref & w7 & Hsel & H).
  apply select_inv in Hsel as (d & cu & Hd & Hcu & Hcuref & Hkeep7).
  rewrite Hh6, Hd3 in Hd. injection Hd as <-.
  destruct (Hkeep7 _ _ (holds_same _ _ _ _ Hh6 Hn6 Hall5)) as [Hall7 _].
  destruct (Hkeep7 _ _ (holds_same _ _ _ _ Hh6 Hn6 Hout5)) as [Hout7 _].
  apply merge_new_inv in H as (l & r & m & Hl & Hr & Hm & Hout' & Hkeep8).
  rewrite (proj1 Hout7) in Hl. injection Hl as <-.
  rewrite (proj1 Hcuref) in Hr. injection Hr as <-.
  exists m. split; [|split; [exact (proj1 (Hkeep8 _ _ Hall7)) | exact Hout']].
  unfold stages. rewrite D_run_bind, Hrun1, D_run_bind, Hrun2, D_run_bind, Hrun3.
  rewrite D_run_ret, Hcu. simpl. exact Hm.
Qed.

End ReturnedRuns.

(** ** The labels a stage can add *)

(** Whatever the outcome, the labels after [m] are labels from before or
    labels of [S]. *)
Definition D_labels (S : list string) {A} (m : D A) : Prop :=
  forall df l, l ∈ labels (snd (m df)) -> l ∈ labels df \/ l ∈ S.

Section Labels.
Context (S : list string).

Lemma D_labels_ret {A} (a : A) : D_labels S (mret a : D A).
Proof. intros df l H. left. exact H. Qed.

Lemma D_labels_read {A} (f : DataFrame -> result A) : D_labels S (read f).
Proof. intros df l H. left. exact H. Qed.

Lemma D_labels_pure_of {A} (r : result A) : D_labels S (pure_of r).
Proof. intros df l H. left. exact H. Qed.

Lemma D_labels_bind {A B} (m : D A) (k : A -> D B) :
  D_labels S m -> (forall a, D_labels S (k a)) -> D_labels S (m ≫= k).
Proof.
  intros Hm Hk df l. rewrite D_run_bind. specialize (Hm df).
  destruct (m df) as [[a|e] df1]; simpl in *; [|apply Hm].
  intros H. destruct (Hk a df1 l H) as [H1|H1]; [apply Hm; exact H1 | right; exact H1].
Qed.

Lemma D_labels_floats (l : string) : D_labels S (floats l).
Proof.
  unfold floats. apply D_labels_bind; [apply D_labels_read|].
  intros s. apply D_labels_pure_of.
Qed.

Lemma D_labels_assign (l : string) (s : series) : l ∈ S -> D_labels S (assign l s).
Proof.
  intros Hl df l'. unfold assign. destruct (setitem l s df) as [df'|e] eqn:E; simpl.
  - destruct (setitem_inv _ _ _ _ E) as (_ & _ & Hlab & _).
    rewrite (labels_after_assign l l' df df' Hlab). intros [H| ->]; auto.
  - auto.
Qed.

Lemma D_labels_for_each {A} (xs : list A) (body : A -> D unit) :
  (forall x, x ∈ xs -> D_labels S (body x)) -> D_labels S (for_each xs body).
Proof.
  induction xs as [|x xs IH]; intros Hbody; simpl.
  - apply D_labels_ret.
  - apply D_labels_bind; [apply Hbody; left|].
    intros _. apply IH. intros y Hy. apply Hbody. right. exact Hy.
Qed.

End Labels.

Ltac labels_step :=
  first
    [ apply D_labels_ret | apply D_labels_read | apply D_labels_pure_of
    | apply D_labels_floats
    | apply D_labels_assign; unfold variant_labels; simpl;
      repeat first [left; reflexivity | right]
    | apply D_labels_bind; [|intros ?]
    | match goal with
      | |- D_labels _ (if ?b then _ else _) => destruct b
      | |- D_labels _ (match ?o with Some _ => _ | None => _ end) => destruct o
      end ].

Section StageLabels.
Context (K : Kernel).

Lemma transform_var_labels (feature : string) :
  D_labels (variant_labels feature true) (InPlace._transform_var K feature).
Proof. unfold InPlace._transform_var. repeat labels_step. Qed.

Lemma normalise_var_labels (weight : Q) (key_columns : list string) (df : DataFrame)
    (l : string) :
  l ∈ labels (snd (InPlace._normalise_var weight key_columns df)) -> l ∈ labels df.
Proof.
  rewrite _normalise_var_unfold. intros H.
  assert (D_labels (labels df)
            (for_each (labels df) (normalise_column weight key_columns))) as Hl.
  { apply D_labels_for_each. intros column Hc. unfold normalise_column.
    repeat first [apply D_labels_assign; exact Hc | labels_step]. }
  destruct (Hl df l H); assumption.
Qed.

Lemma p_values_of_labels (S : list string) (cols key_columns : list string) :
  D_labels S (InPlace.p_values_of K cols key_columns).
Proof. induction cols as [|c cols IH]; simpl; repeat first [exact IH | labels_step]. Qed.

Lemma best_gaussian_labels (feature : string) (key_columns : list string) :
  D_labels [feature +:+ "_best"]
           (InPlace._get_best_gaussian_transformation K feature key_columns).
Proof.
  unfold InPlace._get_best_gaussian_transformation.
  repeat first [apply p_values_of_labels | apply D_labels_assign; left | labels_step].
Qed.

(** The labels after the three stages of [feature]. *)
Lemma stages_labels (feature : string) (weight : Q) (la_keys : list string)
    (normalise : bool) (df : DataFrame) (l : string) :
  l ∈ labels (snd (stages K feature weight la_keys normalise df)) ->
  l ∈ labels df \/ l ∈ variant_labels feature true \/ l = feature +:+ "_best".
Proof.
  unfold stages. rewrite D_run_bind.
  pose proof (transform_var_labels feature df l) as H1.
  destruct (InPlace._transform_var K feature df) as [[g|e] d1]; simpl in H1; [|tauto].
  rewrite D_run_bind.
  assert (forall l, l ∈ labels (snd ((if normalise
                                     then InPlace._normalise_var weight la_keys
                                     else mret tt) d1)) -> l ∈ labels d1) as H2.
  { destruct normalise; [apply normalise_var_labels | tauto]. }
  destruct ((if normalise then InPlace._normalise_var weight la_keys else mret tt) d1)
    as [[[]|e] d2]; simpl in H2.
  2:{ intros H. destruct (H1 (H2 _ H)); tauto. }
  rewrite D_run_bind.
  pose proof (best_gaussian_labels feature la_keys d2 l) as H3.
  destruct (InPlace._get_best_gaussian_transformation K feature la_keys d2)
    as [[[]|e] d3]; simpl in H3 |- *.
  - intros H. destruct (H3 H) as [H'|H'].
    + destruct (H1 (H2 _ H')); tauto.
    + apply list_elem_of_singleton in H'. tauto.
  - intros H. destruct (H3 H) as [H'|H'].
    + destruct (H1 (H2 _ H')); tauto.
    + apply list_elem_of_singleton in H'. tauto.
Qed.

End StageLabels.

(** ** An override that names no column *)

Lemma select_columns_app (ls1 ls2 : list string) (cs cs' : list (string * series)) :
  select_columns (ls1 ++ ls2) cs = Ok cs' ->
  exists c1 c2, select_columns ls1 cs = Ok c1 /\ select_columns ls2 cs = Ok c2 /\
                cs' = c1 ++ c2.
Proof.
  revert cs'. induction ls1 as [|l ls1 IH]; intros cs'; simpl.
  - intros H. exists [], cs'. auto.
  - destruct (find_columns l cs) as [|s0 ss]; [discriminate|].
    intros H. apply result_bind_ok in H as (rest & Hrest & [= <-]).
    destruct (IH rest Hrest) as (c1 & c2 & H1 & H2 & ->).
    rewrite H1. simpl. exists (map (pair l) (s0 :: ss) ++ c1), c2.
    split; [reflexivity|]. split; [exact H2|]. simpl. rewrite <- app_assoc. reflexivity.
Qed.

(** A label that is asked for twice names two columns of the frame
    selected. *)
Lemma select_twice (ls : list string) (l : string) (cs cs' : list (string * series)) :
  l ∈ ls -> select_columns (ls ++ [l]) cs = Ok cs' ->
  (2 <= length (find_columns l cs'))%nat.
Proof.
  intros Hl H. apply select_columns_app in H as (c1 & c2 & H1 & H2 & ->).
  rewrite find_columns_app, length_app.
  assert (find_columns l c1 <> []) as Hc1.
  { apply find_columns_in. destruct (select_columns_inv _ _ _ H1) as [_ Hiff].
    apply Hiff. exact Hl. }
  assert (find_columns l c2 <> []) as Hc2.
  { apply find_columns_in. destruct (select_columns_inv _ _ _ H2) as [_ Hiff].
    apply Hiff. left. }
  destruct (find_columns l c1), (find_columns l c2); simpl; try congruence; lia.
Qed.

Lemma getitem_twice (l : string) (df : DataFrame) :
  (2 <= length (find_columns l (columns df)))%nat -> failed (getitem l df).
Proof.
  unfold getitem. destruct (find_columns l (columns df)) as [|s [|s' ss]]; simpl;
    [lia | lia | intros _; exact I].
Qed.

Lemma mapM_result_fails {A B} (f : A -> result B) (l : list A) (a : A) :
  a ∈ l -> failed (f a) -> failed (mapM (M := result) f l).
Proof.
  intros Ha Hf. induction l as [|x l IH]; [inversion Ha|]. simpl.
  destruct (f x) as [b|e] eqn:Hx; simpl; [|exact I].
  assert (a ∈ l) as Hin.
  { inversion Ha; subst; [rewrite Hx in Hf; contradiction | assumption]. }
  specialize (IH Hin). destruct (mapM f l); simpl; [contradiction | exact I].
Qed.

Lemma merge_key_twice (left right : DataFrame) (on : list string) (l : string) :
  l ∈ on -> (2 <= length (find_columns l (columns right)))%nat ->
  failed (merge left right on).
Proof.
  intros Hl Htwice. unfold merge.
  destruct (mapM (fun l0 => getitem l0 left) on) as [lk|e]; simpl; [|exact I].
  pose proof (mapM_result_fails (fun l0 => getitem l0 right) on l Hl
                (getitem_twice l right Htwice)) as Hf.
  destruct (mapM (fun l0 => getitem l0 right) on); simpl; [contradiction | exact I].
Qed.

Fixpoint fold_result {A B} (f : B -> A -> result B) (acc : B) (xs : list A) : result B :=
  match xs with
  | [] => Ok acc
  | x :: xs' => acc' ← f acc x; fold_result f acc' xs'
  end.

Lemma fold_result_fails {A B} (f : B -> A -> result B) (xs : list A) (x : A) :
  x ∈ xs -> (forall acc, failed (f acc x)) -> forall acc, failed (fold_result f acc xs).
Proof.
  intros Hx Hf. induction xs as [|y xs IH]; intros acc; [inversion Hx|]. simpl.
  destruct (f acc y) as [acc'|e] eqn:Hy; simpl; [|exact I].
  apply IH. inversion Hx; subst; [|assumption].
  specialize (Hf acc). rewrite Hy in Hf. contradiction.
Qed.

Section IdentityOverride.
Context (K : Kernel).

(** With the code [''] the column asked for is [<feature>_], which no
    stage produces; should a key column have that name, the frame selected
    has it twice and the merge refuses it. *)
Lemma feature_step_identity_fails (la_keys : list string) (normalise : bool)
    (ct : gmap string string) (dall dout : DataFrame) (feature : string) (weight : Q) :
  ct !! feature = Some "" -> 0 < weight ->
  failed (feature_step K la_keys normalise (Some ct) dall dout (feature, weight)).
Proof.
  intros Hct Hw. unfold feature_step. simpl fst. simpl snd.
  destruct (getitems (la_keys ++ [feature]) dall) as [d0|e] eqn:Hd0; simpl; [|exact I].
  apply Qltb_true in Hw. rewrite Hw.
  pose proof (stages_labels K feature weight la_keys normalise d0) as Hlabels.
  destruct (stages K feature weight la_keys normalise d0) as [[g|e] td]; [|exact I].
  simpl in Hlabels. unfold chosen_column. rewrite Hct.
  change (feature +:+ "_" +:+ "") with (feature +:+ "_").
  destruct (getitems (la_keys ++ [feature +:+ "_"]) td) as [cu|e] eqn:Hcu; simpl; [|exact I].
  unfold getitems in Hcu, Hd0.
  destruct (select_columns (la_keys ++ [feature +:+ "_"]) (columns td)) as [cs|e] eqn:Hcs;
    simpl in Hcu; [|discriminate].
  injection Hcu as <-.
  destruct (select_columns (la_keys ++ [feature]) (columns dall)) as [cs0|e] eqn:Hcs0;
    simpl in Hd0; [|discriminate].
  injection Hd0 as <-.
  assert (feature +:+ "_" ∈ labels td) as Hin.
  { destruct (select_columns_inv _ _ _ Hcs) as [Hall Hiff].
    assert (feature +:+ "_" ∈ map fst cs) as H.
    { apply Hiff, elem_of_app. right. left. }
    apply list_elem_of_fmap in H as ([l s] & Hl & Hc). simpl in Hl. subst l.
    rewrite Forall_forall in Hall. specialize (Hall _ Hc).
    apply (list_elem_of_fmap_2 fst) in Hall. exact Hall. }
  assert (feature +:+ "_" ∈ la_keys) as Hkey.
  { destruct (Hlabels _ Hin) as [H|[H|H]].
    - unfold labels in H. simpl in H.
      destruct (select_columns_inv _ _ _ Hcs0) as [_ Hiff]. apply Hiff in H.
      apply elem_of_app in H as [H|H]; [exact H|].
      apply list_elem_of_singleton in H. exfalso. revert H. suffix_ne.
    - exfalso. unfold variant_labels in H. simpl in H.
      repeat (apply elem_of_cons in H as [H|H]; [revert H; suffix_ne|]). inversion H.
    - exfalso. revert H. suffix_ne. }
  apply merge_key_twice with (l := feature +:+ "_"); [exact Hkey|].
  simpl. exact (select_twice la_keys _ _ _ Hkey Hcs).
Qed.

End IdentityOverride.

Lemma read_csv_inv (path : string) (w w' : world) (r : ref) :
  read_csv path w = (Ok r, w') ->
  exists d, csv_files w !! path = Some d /\ holds r d w'.
Proof.
  unfold read_csv. destruct (csv_files w !! path) as [d|]; [|discriminate].
  intros H. apply new_object_inv in H as [H _]. eauto.
Qed.

Lemma to_csv_loop_heap (out : ref) (name : string) (dirs : list string) (w w' : world) :
  for_each dirs (fun dir => to_csv out dir name) w = (Ok tt, w') -> heap w' = heap w.
Proof.
  revert w. induction dirs as [|dir dirs IH]; intros w; simpl.
  - intros [= <-]. reflexivity.
  - intros H. apply M_bind_ok in H as ([] & w1 & Hcsv & H).
    unfold to_csv in Hcsv. apply M_bind_ok in Hcsv as (d & w0 & Hload & Hcsv).
    apply load_inv in Hload as [_ ->]. unfold write_csv in Hcsv. injection Hcsv as <-.
    apply IH in H. exact H.
Qed.

Section TransformRuns.
Context (K : Kernel).

Lemma fold_loop_ok (la_keys output_folders : list string) (report normalise : bool)
    (ct : option (gmap string string)) (df_all : ref) (dall : DataFrame)
    (features : list (string * Q)) :
  forall (out out' : ref) (dout : DataFrame) (w w' : world),
    holds df_all dall w -> holds out dout w ->
    fold_loop (process_feature K la_keys output_folders report normalise ct df_all)
              out features w = (Ok out', w') ->
    exists dout',
      fold_result (feature_step K la_keys normalise ct dall) dout features = Ok dout' /\
      holds df_all dall w' /\ holds out' dout' w'.
Proof.
  induction features as [|item features IH]; intros out out' dout w w' Hall Hout; simpl.
  - intros [= <- <-]. exists dout. auto.
  - intros H. apply M_bind_ok in H as (out1 & w1 & Hstep & H).
    destruct (process_feature_ok K _ _ _ _ _ _ _ _ _ _ _ _ _ Hall Hout Hstep)
      as (dout1 & Hstep1 & Hall1 & Hout1).
    rewrite Hstep1. simpl. exact (IH _ _ _ _ _ Hall1 Hout1 H).
Qed.

(** A run of [transform_data] that returns has folded [feature_step] over
    the features, from the key columns of the table on disk, and returns
    the table that came out. *)
Lemma transform_data_ok (la_keys output_folders : list string)
    (features : list (string * Q)) (report normalise : bool)
    (ct : option (gmap string string)) (w w' : world) (out : ref) :
  transform_data K la_keys output_folders features report normalise ct w = (Ok out, w') ->
  exists dall d0 dout,
    csv_files w !! joinpath INPUT_PATH params.aggregated_file = Some dall /\
    getitems la_keys dall = Ok d0 /\
    fold_result (feature_step K la_keys normalise ct dall) d0 features = Ok dout /\
    heap w' !! out = Some dout.
Proof.
  unfold transform_data. intros H.
  apply M_bind_ok in H as (df_all & w1 & Hread & H).
  apply read_csv_inv in Hread as (dall & Hdall & Hall).
  apply M_bind_ok in H as (view & w2 & Hsel & H).
  apply select_inv in Hsel as (d & d0 & Hd & Hd0 & Hview & Hkeep2).
  rewrite (proj1 Hall) in Hd. injection Hd as <-.
  apply M_bind_ok in H as (out0 & w3 & Hcopy & H).
  apply copy_inv in Hcopy as (d & Hd & Hout0 & Hkeep3).
  rewrite (proj1 Hview) in Hd. injection Hd as <-.
  apply M_bind_ok in H as (out1 & w4 & Hfold & H).
  destruct (fold_loop_ok la_keys output_folders report normalise ct df_all dall features
              out0 out1 d0 w3 w4) as (dout & Hdout & _ & Hout1).
  { apply Hkeep3, Hkeep2, Hall. }
  { exact Hout0. }
  { exact Hfold. }
  apply M_bind_ok in H as (o1 & w5 & Hl & H). apply lift_ok in Hl as [_ ->].
  apply M_bind_ok in H as ([] & w6 & Hcsv & H). injection H as <- <-.
  apply to_csv_loop_heap in Hcsv.
  exists dall, d0, dout. rewrite Hcsv. split; [exact Hdall|]. split; [exact Hd0|].
  split; [exact Hdout | exact (proj1 Hout1)].
Qed.

(** C10.  With a weight above zero and the code [''] for a feature, the
    column chosen is [<feature>_]; it is none of the columns a stage
    produces for the feature, and [transform_data] raises. *)
Theorem identity_override_always_fails
    (la_keys output_folders : list string) (features : list (string * Q))
    (report normalise : bool) (ct : gmap string string)
    (feature : string) (weight : Q) (w : world) :
  (feature, weight) ∈ features -> 0 < weight -> ct !! feature = Some "" ->
  chosen_column (Some ct) feature = (feature +:+ "_") /\
  ((feature +:+ "_") ∉ feature :: (variant_labels feature true ++ [feature +:+ "_best"])) /\
  failed (fst (transform_data K la_keys output_folders features report normalise
                              (Some ct) w)).
Proof.
  intros Hin Hw Hct. split; [|split].
  - unfold chosen_column. rewrite Hct. reflexivity.
  - unfold variant_labels. simpl. intros H.
    repeat (apply elem_of_cons in H as [H|H]; [revert H; suffix_ne|]). inversion H.
  - destruct (transform_data K la_keys output_folders features report normalise
                             (Some ct) w) as [[out|e] w'] eqn:E; [|exact I].
    apply transform_data_ok in E as (dall & d0 & dout & _ & _ & Hfold & _).
    pose proof (fold_result_fails (feature_step K la_keys normalise (Some ct) dall)
                  features (feature, weight) Hin
                  (fun acc => feature_step_identity_fails K la_keys normalise ct dall acc
                                feature weight Hct Hw) d0) as Hf.
    rewrite Hfold in Hf. contradiction.
Qed.

End TransformRuns.

Lemma identity_override_always_fails_witness :
  chosen_column (Some {[ "x" := "" ]}) "x" = ("x" +:+ "_") /\
  (("x" +:+ "_") ∉ "x" :: (variant_labels "x" true ++ ["x" +:+ "_best"])) /\
  failed (fst (transform_data Sample.kernel ["code"; "name"] four_folders [("x", 1)]
                              true true (Some {[ "x" := "" ]})
                              (world_with_input four_las))).
Proof.
  apply (identity_override_always_fails Sample.kernel ["code"; "name"] four_folders
           [("x", 1)] true true {[ "x" := "" ]} "x" 1 (world_with_input four_las)).
  - left.
  - reflexivity.
  - reflexivity.
Defined.

(** The run of the witness raises [KeyError: 'x_'], and has written the
    figure of the transformation report only. *)
Example identity_override_key_error :
  let run := transform_data Sample.kernel ["code"; "name"] four_folders [("x", 1)]
                            true true (Some {[ "x" := "" ]}) (world_with_input four_las) in
  fst run = Raise (KeyError "x_") /\
  written (snd run) = [ (FigureFile, "run/plots", "x");
                        (FigureFile, "reports/transformations", "x") ].
Proof. vm_compute. split; reflexivity. Qed.

(** ** What a stage leaves alone *)

(** From [df] to [df']: as many rows, still well formed, labels still
    distinct, and the columns labelled in [keep] untouched. *)
Definition preserved (keep : list string) (df df' : DataFrame) : Prop :=
  nrows df' = nrows df /\ (wf_df df -> wf_df df') /\
  (NoDup (labels df) -> NoDup (labels df')) /\
  (forall l, l ∈ keep -> find_columns l (columns df') = find_columns l (columns df)).

Lemma preserved_refl (keep : list string) (df : DataFrame) : preserved keep df df.
Proof. unfold preserved. auto. Qed.

Lemma preserved_trans (keep : list string) (d1 d2 d3 : DataFrame) :
  preserved keep d1 d2 -> preserved keep d2 d3 -> preserved keep d1 d3.
Proof.
  intros (N1 & W1 & D1 & K1) (N2 & W2 & D2 & K2).
  split; [congruence|]. split; [auto|]. split; [auto|].
  intros l Hl. rewrite K2, K1 by exact Hl. reflexivity.
Qed.

Definition D_keeps (keep : list string) {A} (m : D A) : Prop :=
  forall df, preserved keep df (snd (m df)).

Section Keeps.
Context (keep : list string).

Lemma D_keeps_ret {A} (a : A) : D_keeps keep (mret a : D A).
Proof. intros df. apply preserved_refl. Qed.

Lemma D_keeps_read {A} (f : DataFrame -> result A) : D_keeps keep (read f).
Proof. intros df. apply preserved_refl. Qed.

Lemma D_keeps_pure_of {A} (r : result A) : D_keeps keep (pure_of r).
Proof. intros df. apply preserved_refl. Qed.

Lemma D_keeps_bind {A B} (m : D A) (k : A -> D B) :
  D_keeps keep m -> (forall a, D_keeps keep (k a)) -> D_keeps keep (m ≫= k).
Proof.
  intros Hm Hk df. rewrite D_run_bind. specialize (Hm df).
  destruct (m df) as [[a|e] df1]; simpl in *; [|exact Hm].
  eapply preserved_trans; [exact Hm | apply Hk].
Qed.

Lemma D_keeps_floats (l : string) : D_keeps keep (floats l).
Proof.
  unfold floats. apply D_keeps_bind; [apply D_keeps_read|].
  intros s. apply D_keeps_pure_of.
Qed.

Lemma D_keeps_assign (l : string) (s : series) : l ∉ keep -> D_keeps keep (assign l s).
Proof.
  intros Hl df. unfold assign. destruct (setitem l s df) as [df'|e] eqn:E; simpl;
    [|apply preserved_refl].
  destruct (setitem_inv _ _ _ _ E) as (_ & Hn & _ & Hother & _).
  split; [exact Hn|]. split; [exact (setitem_wf _ _ _ _ E)|].
  split; [exact (setitem_nodup _ _ _ _ E)|].
  intros l' Hl'. apply Hother. intros ->. contradiction.
Qed.

Lemma D_keeps_for_each {A} (xs : list A) (body : A -> D unit) :
  (forall x, D_keeps keep (body x)) -> D_keeps keep (for_each xs body).
Proof.
  intros Hbody. induction xs as [|x xs IH]; simpl.
  - apply D_keeps_ret.
  - apply D_keeps_bind; [apply Hbody | intros _; exact IH].
Qed.

End Keeps.

Ltac keeps_step :=
  first
    [ apply D_keeps_ret | apply D_keeps_read | apply D_keeps_pure_of
    | apply D_keeps_floats
    | apply D_keeps_bind; [|intros ?]
    | apply D_keeps_for_each; intros ?
    | match goal with
      | |- D_keeps _ (if ?b then _ else _) => destruct b eqn:?
      end ].

Section StageKeeps.
Context (K : Kernel).

Lemma transform_var_keeps (keep : list string) (feature : string) :
  (forall l, l ∈ variant_labels feature true -> l ∉ keep) ->
  D_keeps keep (InPlace._transform_var K feature).
Proof.
  intros Hv. unfold InPlace._transform_var.
  repeat first
    [ apply D_keeps_assign; apply Hv; unfold variant_labels; simpl;
      repeat first [left; reflexivity | right]
    | keeps_step ].
Qed.

Lemma normalise_var_keeps (weight : Q) (key_columns : list string) :
  D_keeps key_columns (InPlace._normalise_var weight key_columns).
Proof.
  unfold InPlace._normalise_var. apply D_keeps_bind; [apply D_keeps_read | intros cols].
  apply D_keeps_for_each. intros column.
  destruct (bool_decide (column ∉ key_columns)) eqn:E; [|apply D_keeps_ret].
  apply bool_decide_eq_true in E.
  repeat first [apply D_keeps_assign; exact E | keeps_step].
Qed.

Lemma p_values_of_keeps (keep cols key_columns : list string) :
  D_keeps keep (InPlace.p_values_of K cols key_columns).
Proof. induction cols as [|c cols IH]; simpl; repeat first [exact IH | keeps_step]. Qed.

Lemma best_gaussian_keeps (keep : list string) (feature : string)
    (key_columns : list string) :
  feature +:+ "_best" ∉ keep ->
  D_keeps keep (InPlace._get_best_gaussian_transformation K feature key_columns).
Proof.
  intros Hb. unfold InPlace._get_best_gaussian_transformation.
  repeat first [apply p_values_of_keeps | apply D_keeps_assign; exact Hb | keeps_step].
Qed.

(** The three stages leave the key columns alone when no key column has
    the name of a variant. *)
Lemma stages_keep (feature : string) (weight : Q) (la_keys : list string)
    (normalise : bool) :
  (forall l, l ∈ variant_labels feature true -> l ∉ la_keys) ->
  feature +:+ "_best" ∉ la_keys ->
  D_keeps la_keys (stages K feature weight la_keys normalise).
Proof.
  intros Hv Hb. unfold stages.
  apply D_keeps_bind; [apply transform_var_keeps; exact Hv | intros g].
  apply D_keeps_bind.
  { destruct normalise; [apply normalise_var_keeps | apply D_keeps_ret]. }
  intros _. apply D_keeps_bind; [apply best_gaussian_keeps; exact Hb | intros _].
  apply D_keeps_ret.
Qed.

End StageKeeps.

(** ** Merging on keys that identify the rows *)

Lemma omap_lookup_shift (c : cell) (s : series) (idx : list nat) :
  omap (fun i => (c :: s) !! i) (map S idx) = omap (fun i => s !! i) idx.
Proof.
  induction idx as [|i idx IH]; [reflexivity|].
  simpl. unfold omap in IH. rewrite IH. reflexivity.
Qed.

Lemma take_rows_all (s : series) : take_rows (seq 0 (length s)) s = s.
Proof.
  unfold take_rows. induction s as [|c s IH]; [reflexivity|].
  simpl length. rewrite <- cons_seq, <- fmap_S_seq. simpl.
  rewrite (omap_lookup_shift c s), IH. reflexivity.
Qed.

(** No two rows carry the same key. *)
Definition distinct_keys (ks : list series) (n : nat) : Prop :=
  forall i j, (i < n)%nat -> (j < n)%nat ->
              key_eqb (key_at ks i) (key_at ks j) = true -> i = j.

Lemma key_eqb_refl (ks : list series) (i : nat) :
  Forall (fun k => (i < length k)%nat) ks -> key_eqb (key_at ks i) (key_at ks i) = true.
Proof.
  unfold key_eqb, key_at. induction 1 as [|k ks Hk _ IH]; [reflexivity|].
  simpl. destruct (lookup_lt_is_Some_2 k i Hk) as [c Hc]. rewrite Hc, cell_eqb_refl.
  exact IH.
Qed.

Lemma filter_seq_none (P : nat -> Prop) `{forall i, Decision (P i)} (start n : nat) :
  (forall j, (start <= j < start + n)%nat -> ~ P j) -> filter P (seq start n) = [].
Proof.
  revert start. induction n as [|n IH]; intros start Hn; [reflexivity|].
  simpl. rewrite filter_cons, decide_False by (apply Hn; lia).
  apply IH. intros j Hj. apply Hn. lia.
Qed.

Lemma filter_seq_one (P : nat -> Prop) `{forall i, Decision (P i)} (start n i : nat) :
  (start <= i < start + n)%nat ->
  (forall j, (start <= j < start + n)%nat -> (P j <-> j = i)) ->
  filter P (seq start n) = [i].
Proof.
  revert start. induction n as [|n IH]; intros start Hi HP; [lia|].
  simpl. rewrite filter_cons. destruct (decide (P start)) as [Hs|Hs].
  - apply HP in Hs; [|lia]. subst i. f_equal.
    apply filter_seq_none. intros j Hj Hpj. apply HP in Hpj; lia.
  - apply IH.
    + destruct (decide (start = i)) as [->|Hne]; [|lia].
      exfalso. apply Hs, HP; [lia | reflexivity].
    + intros j Hj. apply HP. lia.
Qed.

Lemma bind_diagonal (f : nat -> list (nat * nat)) (outer : list nat) :
  (forall i, i ∈ outer -> f i = [(i, i)]) -> outer ≫= f = map (fun i => (i, i)) outer.
Proof.
  induction outer as [|i idx IH]; intros Hrow; [reflexivity|].
  rewrite bind_cons, Hrow by left. simpl. f_equal. apply IH.
  intros j Hj. apply Hrow. right. exact Hj.
Qed.

Lemma join_pairs_diagonal (ks : list series) (n : nat) :
  Forall (fun k => length k = n) ks -> distinct_keys ks n ->
  join_pairs ks ks n n = map (fun i => (i, i)) (seq 0 n).
Proof.
  intros Hlen Hdist. unfold join_pairs.
  assert (forall i, i ∈ seq 0 n ->
            (filter (fun j => key_eqb (key_at ks i) (key_at ks j) = true) (seq 0 n)
               ≫= fun j => [(i, j)]) = [(i, i)]) as Hrow.
  { intros i Hi. apply elem_of_seq in Hi.
    rewrite (filter_seq_one _ 0 n i); [reflexivity | lia |].
    intros j Hj. split.
    - intros Heq. symmetry. apply Hdist; [lia | lia | exact Heq].
    - intros ->. apply key_eqb_refl. eapply Forall_impl; [exact Hlen|].
      intros k Hk. simpl in Hk. lia. }
  apply bind_diagonal. exact Hrow.
Qed.


Lemma merge_adds_column (left right : DataFrame) (on : list string) (ks : list series)
    (l : string) (s : series) (n : nat) :
  nrows left = n -> nrows right = n -> wf_df left -> length s = n ->
  mapM (M := result) (fun k => getitem k left) on = Ok ks ->
  mapM (M := result) (fun k => getitem k right) on = Ok ks ->
  Forall (fun k => length k = n) ks -> distinct_keys ks n ->
  filter (fun c => c.1 ∉ on) (columns right) = [(l, s)] ->
  (forall l', l' ∈ labels right <-> l' ∈ on \/ l' = l) ->
  l ∉ labels left ->
  merge left right on = Ok (mkDF n (columns left ++ [(l, s)])).
Proof.
  intros Hnl Hnr Hwf Hs Hlk Hrk Hlen Hdist Hfilter Hlabels Hfresh.
  unfold merge. rewrite Hlk. simpl. rewrite Hrk. simpl.
  rewrite Hnl, Hnr, (join_pairs_diagonal ks n Hlen Hdist), Hfilter.
  rewrite length_map, length_seq.
  assert ((map (fun i => (i, i)) (seq 0 n)).*1 = seq 0 n) as ->.
  { rewrite <- list_fmap_compose. apply list_fmap_id. }
  assert ((map (fun i => (i, i)) (seq 0 n)).*2 = seq 0 n) as ->.
  { rewrite <- list_fmap_compose. apply list_fmap_id. }
  f_equal. f_equal. f_equal.
  - rewrite <- (list_fmap_id (columns left)) at 2.
    apply Forall_fmap_ext, Forall_forall. intros [l' s'] Hc. simpl.
    assert (length s' = n) as Hlen'.
    { unfold wf_df in Hwf. rewrite Forall_forall in Hwf. rewrite <- Hnl.
      exact (Hwf _ Hc). }
    rewrite <- Hlen', take_rows_all. f_equal.
    assert (l' ∈ labels left) as Hl'.
    { apply (list_elem_of_fmap_2 fst) in Hc. exact Hc. }
    destruct (decide (l' ∈ on)) as [Hon|Hon].
    + rewrite bool_decide_eq_false_2 by tauto. reflexivity.
    + assert (has_label l' right = false) as ->.
      { apply has_label_false. rewrite Hlabels. intros [H| ->]; contradiction. }
      rewrite andb_false_r. reflexivity.
  - simpl. apply has_label_false in Hfresh. rewrite Hfresh, andb_false_r. simpl.
    rewrite <- Hs, take_rows_all. reflexivity.
Qed.

(** ** Selecting columns by label *)

Lemma append_empty (f : string) : f +:+ "" = f.
Proof.
  induction f as [|c f IH]; [reflexivity|].
  change (String c (f +:+ "") = String c f). f_equal. exact IH.
Qed.

Lemma find_columns_pairs (l l0 : string) (ss : list series) :
  find_columns l (map (pair l0) ss) = if decide (l0 = l) then ss else [].
Proof.
  induction ss as [|s ss IH]; simpl.
  - destruct (decide (l0 = l)); reflexivity.
  - rewrite find_columns_cons, IH. simpl. destruct (decide (l0 = l)); reflexivity.
Qed.

(** In the frame selected, a label asked for once names the columns it
    named in the source. *)
Lemma select_columns_find (ls : list string) (cs cs' : list (string * series)) (l : string) :
  select_columns ls cs = Ok cs' -> NoDup ls -> l ∈ ls ->
  find_columns l cs' = find_columns l cs.
Proof.
  revert cs'. induction ls as [|l0 ls IH]; intros cs' Hsel Hnd Hl; [inversion Hl|].
  simpl in Hsel. destruct (find_columns l0 cs) as [|s0 ss] eqn:Hf; [discriminate|].
  apply result_bind_ok in Hsel as (rest & Hrest & [= <-]).
  change ((l0, s0) :: map (pair l0) ss ++ rest) with (map (pair l0) (s0 :: ss) ++ rest).
  apply NoDup_cons in Hnd as [Hl0 Hnd].
  rewrite find_columns_app, find_columns_pairs.
  destruct (decide (l0 = l)) as [->|Hne].
  - rewrite (find_columns_notin l rest), app_nil_r; [symmetry; exact Hf|].
    destruct (select_columns_inv _ _ _ Hrest) as [_ Hiff]. rewrite Hiff. exact Hl0.
  - simpl. apply (IH rest Hrest Hnd).
    inversion Hl; subst; [congruence | assumption].
Qed.

Lemma select_columns_missing (ls : list string) (cs : list (string * series)) (l : string) :
  l ∈ ls -> l ∉ map fst cs -> failed (select_columns ls cs).
Proof.
  intros Hl Hmiss. induction ls as [|l0 ls IH]; [inversion Hl|]. simpl.
  destruct (decide (l0 = l)) as [->|Hne].
  - rewrite (find_columns_notin l cs Hmiss). exact I.
  - destruct (find_columns l0 cs); [exact I|].
    assert (l ∈ ls) as Hin by (inversion Hl; subst; [congruence | assumption]).
    specialize (IH Hin). destruct (select_columns ls cs); [contradiction | exact I].
Qed.

Lemma select_columns_unique (ls : list string) (ks : list series) (df : DataFrame) :
  mapM (M := result) (fun k => getitem k df) ls = Ok ks ->
  select_columns ls (columns df) = Ok (zip ls ks).
Proof.
  intros H. apply mapM_result_inv in H.
  induction H as [|l k ls ks Hk _ IH]; [reflexivity|]. simpl.
  unfold getitem in Hk.
  destruct (find_columns l (columns df)) as [|s [|s' ss]]; try discriminate.
  injection Hk as ->. rewrite IH. reflexivity.
Qed.

Lemma mapM_result_ext {A B} (f g : A -> result B) (l : list A) :
  (forall a, a ∈ l -> f a = g a) -> mapM (M := result) f l = mapM (M := result) g l.
Proof.
  induction l as [|a l IH]; intros Hext; [reflexivity|]. simpl.
  rewrite (Hext a) by left. rewrite IH; [reflexivity|].
  intros a' Ha'. apply Hext. right. exact Ha'.
Qed.

Lemma mapM_result_length {A B} (f : A -> result B) (l : list A) (bs : list B) :
  mapM (M := result) f l = Ok bs -> length bs = length l.
Proof. intros H. apply mapM_result_inv in H. symmetry. exact (Forall2_length _ _ _ H). Qed.

Lemma getitem_app_keys (l : string) (cs done : list (string * series)) (n n' : nat) :
  l ∉ map fst done -> getitem l (mkDF n (cs ++ done)) = getitem l (mkDF n' cs).
Proof.
  intros Hl. unfold getitem. simpl. rewrite find_columns_app.
  rewrite (find_columns_notin l done Hl), app_nil_r. reflexivity.
Qed.

Lemma select_columns_labels (ls : list string) (cs cs' : list (string * series)) :
  NoDup (map fst cs) -> select_columns ls cs = Ok cs' -> map fst cs' = ls.
Proof.
  intros Hnd Hsel. destruct (select_columns_inv _ _ _ Hsel) as [Hin Hiff].
  destruct (select_columns_nodup ls cs Hnd) as (cs'' & Hsel' & Hl).
  - intros l Hl. apply Hiff in Hl. apply list_elem_of_fmap in Hl as (c & -> & Hc).
    rewrite Forall_forall in Hin. apply (list_elem_of_fmap_2 fst). apply Hin. exact Hc.
  - congruence.
Qed.

Lemma filter_none {A} (P : A -> Prop) `{forall a, Decision (P a)} (l : list A) :
  (forall a, a ∈ l -> ~ P a) -> filter P l = [].
Proof.
  induction l as [|a l IH]; intros Hl; [reflexivity|].
  rewrite filter_cons, decide_False by (apply Hl; left).
  apply IH. intros a' Ha'. apply Hl. right. exact Ha'.
Qed.

Lemma chosen_column_suffix (ct : option (gmap string string)) (feature : string) :
  exists sfx, chosen_column ct feature = feature +:+ sfx.
Proof.
  unfold chosen_column. destruct ct as [m|]; [destruct (m !! feature) as [code|]|]; eauto.
Qed.

Section Assembly.
Context (K : Kernel) (la_keys : list string) (normalise : bool)
        (ct : option (gmap string string)) (dall : DataFrame) (ks : list series).
Hypothesis labels_distinct : NoDup (labels dall).
Hypothesis well_formed : wf_df dall.
Hypothesis keys_distinct : NoDup la_keys.
Hypothesis key_columns_of : mapM (M := result) (fun k => getitem k dall) la_keys = Ok ks.
Hypothesis rows_identified : distinct_keys ks (nrows dall).

(** The output table with the columns [done] added to the key columns. *)
Definition out_frame (done : list (string * series)) : DataFrame :=
  mkDF (nrows dall) (zip la_keys ks ++ done).

(** [s] is the column chosen for [feature] from the table the stages
    left. *)
Definition produced (feature : string) (weight : Q) (s : series) : Prop :=
  length s = nrows dall /\
  exists d0 td g,
    getitems (la_keys ++ [feature]) dall = Ok d0 /\
    stages K feature weight la_keys normalise d0 = (Ok g, td) /\
    getitem (chosen_column ct feature) td = Ok s.

Lemma key_lengths : Forall (fun k : series => length k = nrows dall) ks.
Proof.
  pose proof (mapM_result_inv _ _ _ key_columns_of) as Hall.
  clear key_columns_of rows_identified keys_distinct.
  induction Hall as [|l k ls ks' Hk _ IH]; constructor; [|exact IH].
  exact (getitem_length _ _ _ well_formed Hk).
Qed.

Lemma key_count : length ks = length la_keys.
Proof. exact (mapM_result_length _ _ _ key_columns_of). Qed.

Lemma key_find (l : string) :
  l ∈ la_keys -> find_columns l (zip la_keys ks) = find_columns l (columns dall).
Proof.
  intros Hl.
  exact (select_columns_find la_keys (columns dall) (zip la_keys ks) l
           (select_columns_unique _ _ _ key_columns_of) keys_distinct Hl).
Qed.

Lemma keys_of_out_frame (done : list (string * series)) :
  (forall l, l ∈ la_keys -> l ∉ map fst done) ->
  mapM (M := result) (fun k => getitem k (out_frame done)) la_keys = Ok ks.
Proof.
  intros Hfresh. rewrite <- key_columns_of. apply mapM_result_ext. intros l Hl.
  unfold out_frame, getitem. simpl.
  rewrite find_columns_app, (find_columns_notin l done (Hfresh l Hl)), app_nil_r.
  rewrite (key_find l Hl). reflexivity.
Qed.

Lemma out_frame_labels (done : list (string * series)) :
  labels (out_frame done) = la_keys ++ map fst done.
Proof.
  unfold labels, out_frame. simpl. rewrite map_app, fst_zip; [reflexivity|].
  rewrite key_count. lia.
Qed.

Lemma out_frame_wf (done : list (string * series)) :
  Forall (fun c => length c.2 = nrows dall) done -> wf_df (out_frame done).
Proof.
  intros Hdone. unfold wf_df, out_frame. simpl. apply Forall_app. split; [|exact Hdone].
  apply Forall_forall. intros [l k] Hin. simpl.
  apply elem_of_zip_r in Hin. pose proof key_lengths as Hlen.
  rewrite Forall_forall in Hlen. exact (Hlen k Hin).
Qed.

(** One turn of the loop for a feature of positive weight adds the column
    chosen for it, and nothing else changes. *)
Lemma feature_step_adds (done : list (string * series)) (feature : string) (weight : Q)
    (dout1 : DataFrame) :
  Forall (fun c => length c.2 = nrows dall) done ->
  (forall l, l ∈ la_keys -> l ∉ map fst done) ->
  (forall sfx, feature +:+ sfx ∉ la_keys) ->
  chosen_column ct feature ∉ map fst done ->
  Qltb 0 weight = true ->
  feature_step K la_keys normalise ct dall (out_frame done) (feature, weight) = Ok dout1 ->
  exists s, produced feature weight s /\
            dout1 = out_frame (done ++ [(chosen_column ct feature, s)]).
Proof.
  intros Hdone Hfresh Hapart Hnew Hpos. unfold feature_step. simpl fst. simpl snd.
  destruct (getitems (la_keys ++ [feature]) dall) as [d0|e] eqn:Hd0; simpl; [|discriminate].
  rewrite Hpos.
  destruct (stages K feature weight la_keys normalise d0) as [[g|e] td] eqn:Hst;
    [|discriminate].
  set (chosen := chosen_column ct feature) in *.
  destruct (getitems (la_keys ++ [chosen]) td) as [cu|e] eqn:Hcu; simpl; [|discriminate].
  intros Hmerge.
  assert (feature ∉ la_keys) as Hf.
  { specialize (Hapart ""). rewrite append_empty in Hapart. exact Hapart. }
  assert (chosen ∉ la_keys) as Hchosen.
  { destruct (chosen_column_suffix ct feature) as [sfx Hsfx]. unfold chosen.
    rewrite Hsfx. apply Hapart. }
  (* the table the stages start from *)
  destruct (getitems_wf _ _ _ Hd0 well_formed) as [Hwf0 Hn0].
  pose proof Hd0 as Hsel0. unfold getitems in Hsel0.
  destruct (select_columns (la_keys ++ [feature]) (columns dall)) as [cs0|e] eqn:Hcs0;
    simpl in Hsel0; [|discriminate].
  injection Hsel0 as Hd0eq.
  assert (NoDup (la_keys ++ [feature])) as Hnd_ls0.
  { apply NoDup_app. split; [exact keys_distinct|]. split; [|apply NoDup_singleton].
    intros l Hl Hl'. apply list_elem_of_singleton in Hl'. subst l. contradiction. }
  assert (NoDup (labels d0)) as Hnd0.
  { rewrite <- Hd0eq. unfold labels. simpl.
    rewrite (select_columns_labels _ _ _ labels_distinct Hcs0). exact Hnd_ls0. }
  (* the table the stages leave *)
  destruct (stages_keep K feature weight la_keys normalise) with (df := d0)
    as (Hn1 & Hwf1 & Hnd1 & Hkeep).
  { intros l Hl. unfold variant_labels in Hl.
    apply list_elem_of_fmap in Hl as (sfx & -> & _). apply Hapart. }
  { apply Hapart. }
  rewrite Hst in Hn1, Hwf1, Hnd1, Hkeep. simpl in Hn1, Hwf1, Hnd1, Hkeep.
  specialize (Hwf1 Hwf0). specialize (Hnd1 Hnd0).
  (* the frame handed to the merge *)
  pose proof Hcu as Hselu. unfold getitems in Hselu.
  destruct (select_columns (la_keys ++ [chosen]) (columns td)) as [cs|e] eqn:Hcs;
    simpl in Hselu; [|discriminate].
  injection Hselu as Hcueq.
  assert (NoDup (la_keys ++ [chosen])) as Hnd_ls.
  { apply NoDup_app. split; [exact keys_distinct|]. split; [|apply NoDup_singleton].
    intros l Hl Hl'. apply list_elem_of_singleton in Hl'. subst l. contradiction. }
  pose proof (select_columns_labels _ _ _ Hnd1 Hcs) as Hlabels_cs.
  destruct (select_columns_app _ _ _ _ Hcs) as (c1 & c2 & Hc1 & Hc2 & Hcs12).
  pose proof (select_columns_labels _ _ _ Hnd1 Hc1) as Hl1.
  pose proof (select_columns_labels _ _ _ Hnd1 Hc2) as Hl2.
  destruct c2 as [|[l2 s] [|c2' c2'']]; try discriminate.
  simpl in Hl2. injection Hl2 as ->.
  assert ((chosen, s) ∈ columns td) as Hin_td.
  { destruct (select_columns_inv _ _ _ Hc2) as [Hall _].
    rewrite Forall_forall in Hall. apply Hall. left. }
  pose proof (in_columns_getitem _ _ _ Hnd1 Hin_td) as Hs.
  assert (length s = nrows dall) as Hlen_s.
  { rewrite (getitem_length _ _ _ Hwf1 Hs). congruence. }
  exists s. split.
  { split; [exact Hlen_s|]. exists d0, td, g. auto. }
  cut (merge (out_frame done) cu la_keys
       = Ok (out_frame (done ++ [(chosen, s)]))).
  { intros Hm. rewrite Hm in Hmerge. injection Hmerge as <-. reflexivity. }
  rewrite <- Hcueq.
  rewrite (merge_adds_column (out_frame done) (mkDF (nrows td) cs) la_keys ks chosen s
             (nrows dall)).
  - unfold out_frame. simpl. rewrite <- app_assoc. reflexivity.
  - reflexivity.
  - simpl. congruence.
  - apply out_frame_wf. exact Hdone.
  - exact Hlen_s.
  - apply keys_of_out_frame. exact Hfresh.
  - rewrite <- key_columns_of. apply mapM_result_ext. intros l Hl.
    unfold getitem. simpl.
    rewrite (select_columns_find _ _ _ l Hcs Hnd_ls) by (apply elem_of_app; left; exact Hl).
    rewrite (Hkeep l Hl). rewrite <- Hd0eq. simpl.
    rewrite (select_columns_find _ _ _ l Hcs0 Hnd_ls0) by (apply elem_of_app; left; exact Hl).
    reflexivity.
  - exact key_lengths.
  - exact rows_identified.
  - simpl. rewrite Hcs12, filter_app.
    rewrite (filter_none (fun c : string * series => c.1 ∉ la_keys) c1).
    + rewrite filter_cons, filter_nil. simpl. rewrite decide_True by exact Hchosen.
      reflexivity.
    + intros c Hc Hnot. apply Hnot. rewrite <- Hl1.
      apply (list_elem_of_fmap_2 fst). exact Hc.
  - intros l'. unfold labels. simpl. rewrite Hlabels_cs, elem_of_app, list_elem_of_singleton.
    reflexivity.
  - rewrite out_frame_labels, elem_of_app. intros [H|H]; contradiction.
Qed.

(** The labels of the columns the loop adds, in the order of the features. *)
Definition chosen_labels (features : list (string * Q)) : list string :=
  map (fun item => chosen_column ct item.1)
      (filter (fun item => Qltb 0 item.2 = true) features).

(** The whole loop: the output is the key columns followed by one column for
    each feature of positive weight, the one chosen for it. *)
Lemma loop_adds (features : list (string * Q)) :
  forall (done : list (string * series)) (dout : DataFrame),
  Forall (fun c => length c.2 = nrows dall) done ->
  (forall l, l ∈ la_keys -> l ∉ map fst done) ->
  (forall f wt sfx, (f, wt) ∈ features -> f +:+ sfx ∉ la_keys) ->
  NoDup (map fst done ++ chosen_labels features) ->
  fold_result (feature_step K la_keys normalise ct dall) (out_frame done) features
    = Ok dout ->
  exists done',
    dout = out_frame (done ++ done') /\
    Forall (fun c => length c.2 = nrows dall) done' /\
    map fst done' = chosen_labels features /\
    forall f wt, (f, wt) ∈ features -> Qltb 0 wt = true ->
      exists s, produced f wt s /\ (chosen_column ct f, s) ∈ done'.
Proof.
  induction features as [|[f wt] features IH]; intros done dout Hdone Hfresh Hapart Hnd.
  - simpl. intros [= <-]. exists []. rewrite app_nil_r.
    repeat split; [constructor|]. intros f wt Hin. inversion Hin.
  - simpl. destruct (feature_step K la_keys normalise ct dall (out_frame done) (f, wt))
      as [dout1|e] eqn:Hstep; simpl; [|discriminate].
    intros Hfold.
    assert (forall f' wt' sfx, (f', wt') ∈ features -> f' +:+ sfx ∉ la_keys) as Hapart'.
    { intros f' wt' sfx Hin. apply (Hapart f' wt'). right. exact Hin. }
    destruct (Qltb 0 wt) eqn:Hpos.
    + unfold chosen_labels in Hnd. rewrite filter_cons in Hnd.
      rewrite decide_True in Hnd by exact Hpos. simpl in Hnd.
      fold (chosen_labels features) in Hnd.
      assert (chosen_column ct f ∉ map fst done) as Hnew.
      { apply NoDup_app in Hnd as (_ & Hdisj & _). intros Hin.
        apply (Hdisj _ Hin). left. }
      destruct (feature_step_adds done f wt dout1 Hdone Hfresh) as (s & Hprod & ->);
        [intros sfx; apply (Hapart f wt); left|exact Hnew|exact Hpos|exact Hstep|].
      destruct (IH (done ++ [(chosen_column ct f, s)]) dout)
        as (done' & -> & Hlen' & Hlabels' & Hall').
      * apply Forall_app. split; [exact Hdone|]. constructor; [|constructor].
        simpl. apply Hprod.
      * intros l Hl. rewrite map_app. simpl. rewrite elem_of_app, list_elem_of_singleton.
        intros [Hin| ->]; [exact (Hfresh l Hl Hin)|].
        destruct (chosen_column_suffix ct f) as [sfx Hsfx]. rewrite Hsfx in Hl.
        apply (Hapart f wt sfx); [left|exact Hl].
      * exact Hapart'.
      * rewrite map_app. simpl. rewrite <- app_assoc. simpl. exact Hnd.
      * exact Hfold.
      * exists ((chosen_column ct f, s) :: done'). split; [|split; [|split]].
        -- rewrite <- app_assoc. reflexivity.
        -- constructor; [apply Hprod|exact Hlen'].
        -- unfold chosen_labels. rewrite filter_cons, decide_True by exact Hpos.
           simpl. f_equal. exact Hlabels'.
        -- intros f' wt' Hin Hpos'. inversion Hin as [|? ? ? Hin']; subst.
           ++ exists s. split; [exact Hprod|left].
           ++ destruct (Hall' f' wt' Hin' Hpos') as (s' & Hs' & Hin_s').
              exists s'. split; [exact Hs'|right; exact Hin_s'].
    + assert (dout1 = out_frame done) as ->.
      { unfold feature_step in Hstep. simpl in Hstep.
        destruct (getitems (la_keys ++ [f]) dall); simpl in Hstep; [|discriminate].
        rewrite Hpos in Hstep. congruence. }
      unfold chosen_labels in Hnd. rewrite filter_cons in Hnd.
      rewrite decide_False in Hnd by (simpl; rewrite Hpos; discriminate).
      fold (chosen_labels features) in Hnd.
      destruct (IH done dout Hdone Hfresh Hapart' Hnd Hfold)
        as (done' & -> & Hlen' & Hlabels' & Hall').
      exists done'. split; [reflexivity|]. split; [exact Hlen'|]. split.
      * unfold chosen_labels. rewrite filter_cons.
        rewrite decide_False by (simpl; rewrite Hpos; discriminate). exact Hlabels'.
      * intros f' wt' Hin Hpos'. inversion Hin as [|? ? ? Hin']; subst.
        -- congruence.
        -- exact (Hall' f' wt' Hin' Hpos').
Qed.

(** So the table [transform_data] assembles holds, under the label chosen
    for a feature of positive weight, the column of that label in the table
    the stages left for that feature. *)
Lemma assembled_columns (features : list (string * Q)) (dout : DataFrame) :
  (forall f wt sfx, (f, wt) ∈ features -> f +:+ sfx ∉ la_keys) ->
  NoDup (chosen_labels features) ->
  fold_result (feature_step K la_keys normalise ct dall)
              (mkDF (nrows dall) (zip la_keys ks)) features = Ok dout ->
  labels dout = la_keys ++ chosen_labels features /\
  forall f wt, (f, wt) ∈ features -> Qltb 0 wt = true ->
    exists s, produced f wt s /\ getitem (chosen_column ct f) dout = Ok s.
Proof.
  intros Hapart Hnd Hfold.
  destruct (loop_adds features [] dout) as (done' & -> & Hlen & Hlabels & Hall).
  - constructor.
  - intros l _ Hin. inversion Hin.
  - exact Hapart.
  - exact Hnd.
  - unfold out_frame. rewrite app_nil_r. exact Hfold.
  - simpl. rewrite out_frame_labels, Hlabels. split; [reflexivity|].
    intros f wt Hin Hpos. destruct (Hall f wt Hin Hpos) as (s & Hprod & Hin_s).
    exists s. split; [exact Hprod|]. apply in_columns_getitem.
    + rewrite out_frame_labels, Hlabels. apply NoDup_app. split; [exact keys_distinct|].
      split; [|exact Hnd]. intros l Hl Hl'.
      unfold chosen_labels in Hl'. apply list_elem_of_fmap in Hl' as ([f' wt'] & -> & Hin').
      apply list_elem_of_filter in Hin' as [_ Hin']. simpl in Hl.
      destruct (chosen_column_suffix ct f') as [sfx Hsfx]. rewrite Hsfx in Hl.
      exact (Hapart f' wt' sfx Hin' Hl).
    + unfold out_frame. simpl. apply elem_of_app. right. exact Hin_s.
Qed.

End Assembly.

(** When the column an override names is missing from the table the stages
    leave, the turn of the loop raises [KeyError]. *)
Lemma feature_step_missing_variant (K : Kernel) (la_keys : list string) (normalise : bool)
    (ct : gmap string string) (dall : DataFrame) (feature code : string) (weight : Q) :
  ct !! feature = Some code -> 0 < weight ->
  (forall d0, getitems (la_keys ++ [feature]) dall = Ok d0 ->
     (feature +:+ "_" +:+ code)
       ∉ labels (snd (stages K feature weight la_keys normalise d0))) ->
  forall dout,
    failed (feature_step K la_keys normalise (Some ct) dall dout (feature, weight)).
Proof.
  intros Hct Hw Hmiss dout. unfold feature_step. simpl fst. simpl snd.
  destruct (getitems (la_keys ++ [feature]) dall) as [d0|e] eqn:Hd0; simpl; [|exact I].
  apply Qltb_true in Hw. rewrite Hw. specialize (Hmiss d0 eq_refl).
  destruct (stages K feature weight la_keys normalise d0) as [[g|e] td]; [|exact I].
  simpl in Hmiss. unfold chosen_column. rewrite Hct. unfold getitems.
  pose proof (select_columns_missing (la_keys ++ [feature +:+ "_" +:+ code]) (columns td)
                (feature +:+ "_" +:+ code)) as Hsel.
  destruct (select_columns (la_keys ++ [feature +:+ "_" +:+ code]) (columns td));
    simpl; [|exact I].
  exfalso. apply Hsel; [apply elem_of_app; right; left | exact Hmiss].
Qed.

(** C6.  Let the table read have distinct labels, the key columns identify
    its rows, no feature label extend to a key label, and the columns chosen
    for the features of positive weight have distinct labels.  For a feature
    of positive weight to which the override map gives a code, whatever the
    p-values of the kernel: when [transform_data] returns, the column
    [<feature>_<code>] of its output is the column of that label in the
    table the stages left for the feature, and the output has the key
    columns and the chosen columns only; and when no column of that label is
    in the table the stages leave, [transform_data] raises. *)
Theorem override_selects_named_variant
    (K : Kernel) (la_keys output_folders : list string) (features : list (string * Q))
    (report normalise : bool) (ct : gmap string string) (feature code : string)
    (weight : Q) (dall : DataFrame) (ks : list series) (w : world) :
  csv_files w !! joinpath INPUT_PATH params.aggregated_file = Some dall ->
  wf_df dall -> NoDup (labels dall) -> NoDup la_keys ->
  mapM (M := result) (fun k => getitem k dall) la_keys = Ok ks ->
  distinct_keys ks (nrows dall) ->
  (forall f wt sfx, (f, wt) ∈ features -> f +:+ sfx ∉ la_keys) ->
  NoDup (chosen_labels (Some ct) features) ->
  (feature, weight) ∈ features -> 0 < weight -> ct !! feature = Some code ->
  (forall out w',
     transform_data K la_keys output_folders features report normalise (Some ct) w
       = (Ok out, w') ->
     exists dout d0 td g s,
       heap w' !! out = Some dout /\
       labels dout = la_keys ++ chosen_labels (Some ct) features /\
       getitems (la_keys ++ [feature]) dall = Ok d0 /\
       stages K feature weight la_keys normalise d0 = (Ok g, td) /\
       getitem (feature +:+ "_" +:+ code) td = Ok s /\
       getitem (feature +:+ "_" +:+ code) dout = Ok s) /\
  ((forall d0, getitems (la_keys ++ [feature]) dall = Ok d0 ->
      (feature +:+ "_" +:+ code)
        ∉ labels (snd (stages K feature weight la_keys normalise d0))) ->
   failed (fst (transform_data K la_keys output_folders features report normalise
                               (Some ct) w))).
Proof.
  intros Hfile Hwf Hnd Hkeys Hks Hdist Hapart Hchosen Hin Hw Hct. split.
  - intros out w' Hrun.
    apply transform_data_ok in Hrun as (dall' & d0 & dout & Hfile' & Hd0 & Hfold & Hout).
    rewrite Hfile in Hfile'. injection Hfile' as <-.
    unfold getitems in Hd0. rewrite (select_columns_unique _ _ _ Hks) in Hd0.
    simpl in Hd0. injection Hd0 as <-.
    destruct (assembled_columns K la_keys normalise (Some ct) dall ks Hnd Hwf Hkeys Hks
                Hdist features dout Hapart Hchosen Hfold) as [Hlabels Hall].
    apply Qltb_true in Hw.
    destruct (Hall feature weight Hin Hw) as (s & (_ & d1 & td & g & Hd1 & Hst & Hs) & Hs').
    unfold chosen_column in Hs, Hs'. rewrite Hct in Hs, Hs'.
    exists dout, d1, td, g, s. auto 10.
  - intros Hmiss.
    destruct (transform_data K la_keys output_folders features report normalise
                             (Some ct) w) as [[out|e] w'] eqn:E; [|exact I].
    apply transform_data_ok in E as (dall' & d0 & dout & Hfile' & _ & Hfold & _).
    rewrite Hfile in Hfile'. injection Hfile' as <-.
    pose proof (fold_result_fails (feature_step K la_keys normalise (Some ct) dall)
                  features (feature, weight) Hin
                  (feature_step_missing_variant K la_keys normalise ct dall feature code
                     weight Hct Hw Hmiss) d0) as Hf.
    rewrite Hfold in Hf. contradiction.
Qed.

Definition zero_las : DataFrame :=
  mkDF 4 [ ("code", [Str "E1"; Str "E2"; Str "E3"; Str "E4"]);
           ("name", [Str "A"; Str "B"; Str "C"; Str "D"]);
           ("x", [Num 0; Num 20; Num 30; Num 1000]) ].

(** The run with the override ['squared'] for the feature [x] of
    [four_las]. *)
Definition override_run : result ref * world :=
  transform_data Sample.kernel ["code"; "name"] four_folders [("x", 1)] true true
                 (Some {[ "x" := "squared" ]}) (world_with_input four_las).

Lemma override_selects_named_variant_witness :
  exists dout d0 td g s,
    heap (snd override_run) !! 6%nat = Some dout /\
    labels dout
      = ["code"; "name"] ++ chosen_labels (Some {[ "x" := "squared" ]}) [("x", 1)] /\
    getitems (["code"; "name"] ++ ["x"]) four_las = Ok d0 /\
    stages Sample.kernel "x" 1 ["code"; "name"] true d0 = (Ok g, td) /\
    getitem ("x" +:+ "_" +:+ "squared") td = Ok s /\
    getitem ("x" +:+ "_" +:+ "squared") dout = Ok s.
Proof.
  destruct (override_selects_named_variant Sample.kernel ["code"; "name"] four_folders
              [("x", 1)] true true {[ "x" := "squared" ]} "x" "squared" 1 four_las
              [ [Str "E1"; Str "E2"; Str "E3"; Str "E4"];
                [Str "A"; Str "B"; Str "C"; Str "D"] ]
              (world_with_input four_las)) as [Hsel _].
  - vm_compute. reflexivity.
  - repeat constructor.
  - apply (bool_decide_unpack _). vm_compute. reflexivity.
  - apply (bool_decide_unpack _). vm_compute. reflexivity.
  - vm_compute. reflexivity.
  - intros i j Hi Hj. simpl in Hi, Hj.
    destruct i as [|[|[|[|i]]]]; try lia;
      destruct j as [|[|[|[|j]]]]; try lia;
      vm_compute; congruence.
  - intros f wt sfx Hin Hkey. apply list_elem_of_singleton in Hin. injection Hin as -> ->.
    simpl in Hkey. repeat (apply elem_of_cons in Hkey as [Hkey|Hkey]; [discriminate|]).
    inversion Hkey.
  - apply (bool_decide_unpack _). vm_compute. reflexivity.
  - left.
  - reflexivity.
  - vm_compute. reflexivity.
  - apply (Hsel 6%nat (snd override_run)). vm_compute. reflexivity.
Defined.

(** In that run the best column is [x_log], the first of the highest
    p-value, and the output has the column [x_squared] all the same; without
    an override the output has [x_best], which equals [x_log]. *)
Example override_bypasses_best :
  let keys := ["code"; "name"] in
  let plain := transform_data Sample.kernel keys four_folders [("x", 1)] true true None
                              (world_with_input four_las) in
  (labels <$> heap (snd override_run) !! 6%nat) = Some ["code"; "name"; "x_squared"] /\
  (labels <$> heap (snd plain) !! 6%nat) = Some ["code"; "name"; "x_best"] /\
  (exists td best squared,
     heap (snd override_run) !! 4%nat = Some td /\
     getitem "x_best" td = Ok best /\ getitem "x_log" td = Ok best /\
     getitem "x_squared" td = Ok squared /\ squared <> best /\
     (heap (snd override_run) !! 6%nat ≫= fun d => Some (getitem "x_squared" d))
       = Some (Ok squared)).
Proof.
  split; [vm_compute; reflexivity|]. split; [vm_compute; reflexivity|].
  eexists _, _, _. split; [vm_compute; reflexivity|].
  split; [vm_compute; reflexivity|]. split; [vm_compute; reflexivity|].
  split; [vm_compute; reflexivity|]. split; [discriminate|]. vm_compute. reflexivity.
Qed.

(** With the override ['bc'] for a feature that has a zero, [x_bc] is not
    produced and the run raises [KeyError: 'x_bc']. *)
Example override_of_missing_variant_key_error :
  fst (transform_data Sample.kernel ["code"; "name"] four_folders [("x", 1)] true true
                      (Some {[ "x" := "bc" ]}) (world_with_input zero_las))
  = Raise (KeyError "x_bc").
Proof. vm_compute. reflexivity. Qed.

(** * Further properties of the code *)

(** ** The stable sort keeps equal keys in the order they came in *)



Section Stability.
Context {A : Type} (key : A -> Q) (pos : A -> nat).








End Stability.

Lemma increasing_seq (s n : nat) : StronglySorted lt (seq s n).
Proof.
  revert s. induction n as [|n IH]; intros s; simpl; constructor; [apply IH|].
  apply Forall_forall. intros i Hi. apply elem_of_seq in Hi. lia.
Qed.





(** ** The peers of an authority whose distance to every other is positive *)



Lemma count_label (ss : list string) (s : string) :
  NoDup ss -> s ∈ ss ->
  length (filter (fun c => cell_eqb (Str s) c = true) (map Str ss)) = 1%nat.
Proof.
  assert (forall t, cell_eqb (Str s) (Str t) = true <-> s = t) as Heqb.
  { intros t. simpl. apply bool_decide_eq_true. }
  assert (forall l, s ∉ l ->
            filter (fun c => cell_eqb (Str s) c = true) (map Str l) = []) as Hnone.
  { induction l as [|t l IH]; intros Hs; [reflexivity|].
    change (map Str (t :: l)) with (Str t :: map Str l).
    rewrite filter_cons, decide_False.
    - apply IH. intros H. apply Hs. right. exact H.
    - rewrite Heqb. intros ->. apply Hs. left. }
  induction ss as [|t ss IH]; intros Hnd Hs; [inversion Hs|].
  apply NoDup_cons in Hnd as [Ht Hnd].
  change (map Str (t :: ss)) with (Str t :: map Str ss). rewrite filter_cons.
  destruct (decide (s = t)) as [E|Hne].
  - rewrite decide_True by (apply Heqb; exact E).
    rewrite (Hnone ss) by (rewrite E; exact Ht). reflexivity.
  - rewrite decide_False by (rewrite Heqb; exact Hne).
    apply IH; [exact Hnd|]. apply elem_of_cons in Hs as [Hs|Hs]; [contradiction | exact Hs].
Qed.




Section PeerRows.
Context (dm : DistMatrix) (names : list string) (k : Z) (j : nat) (name : string).
Hypothesis square : dm_square dm.
Hypothesis named : dm_labels dm = map Str names.
Hypothesis names_distinct : NoDup names.
Hypothesis at_j : names !! j = Some name.
Hypothesis own_distance : entry dm j j = Some 0.
Hypothesis others_apart : forall i d, i <> j -> entry dm i j = Some d -> 0 < d.
Hypothesis k_in_range : (0 <= k < Z.of_nat (length names))%Z.









End PeerRows.


(** The cityblock distances of [four_las]: [B] is as far from [A] as from
    [C]. *)
Definition four_matrix : DistMatrix :=
  mkDM [Str "A"; Str "B"; Str "C"; Str "D"]
       [ [0; 10; 20; 990]; [10; 0; 10; 980]; [20; 10; 0; 970]; [990; 980; 970; 0] ].


(** The rows of that table: the peers of [B] are [A] then [C], which are
    as near, in the order of the matrix. *)
Example peers_of_four_matrix :
  n_nearest_neighbours_array four_matrix 2
  = Ok [ [Str "A"; Str "B"; Str "C"]; [Str "B"; Str "A"; Str "C"];
         [Str "C"; Str "B"; Str "A"]; [Str "D"; Str "C"; Str "B"] ] /\
  distance_matrix Sample.kernel four_las "code" "name" "cityblock" = Ok four_matrix.
Proof. vm_compute. split; reflexivity. Qed.

(** ** When [calculate_distance] returns, and what it has written then *)

Lemma append_length (a b : string) :
  String.length (a +:+ b) = (String.length a + String.length b)%nat.
Proof. induction a as [|c a IH]; simpl; [reflexivity | rewrite IH; reflexivity]. Qed.

Lemma suffix_of_equal_length (x y a b : string) :
  String.length a = String.length b -> x +:+ a = y +:+ b -> a = b.
Proof.
  revert y. induction x as [|c x IH]; intros [|c' y] Hlen H.
  - exact H.
  - exfalso. change (a = String c' (y +:+ b)) in H.
    rewrite H in Hlen. simpl in Hlen. rewrite append_length in Hlen. lia.
  - exfalso. change (String c (x +:+ a) = b) in H.
    rewrite <- H in Hlen. simpl in Hlen. rewrite append_length in Hlen. lia.
  - change (String c (x +:+ a) = String c' (y +:+ b)) in H.
    injection H as _ H. exact (IH y Hlen H).
Qed.

Lemma peer_row_width_in_range (dm : DistMatrix) (names : list string) (k : Z)
    (j : nat) (name : string) :
  dm_square dm -> dm_labels dm = map Str names -> NoDup names ->
  names !! j = Some name -> (k < Z.of_nat (length names))%Z ->
  exists peers,
    peer_row dm k j (Str name) = Ok (Str name :: peers) /\ length peers = Z.to_nat k.
Proof.
  intros Hsq Hnamed Hnd Hj Hk. unfold peer_row.
  assert (length (filter (fun c => cell_eqb (Str name) c = true) (dm_labels dm)) = 1%nat)
    as ->.
  { rewrite Hnamed. apply count_label; [exact Hnd|].
    exact (list_elem_of_lookup_2 _ _ _ Hj). }
  rewrite Nat.eqb_refl. eexists. split; [reflexivity|].
  rewrite length_drop, length_map. unfold nsmallest.
  rewrite length_take, stable_sort_length, length_zip_with.
  rewrite (column_of_length dm j Hsq).
  - rewrite Hnamed, length_map. lia.
  - rewrite Hnamed, length_map. exact (lookup_lt_Some _ _ _ Hj).
Qed.

Lemma peer_rows_in_range (dm : DistMatrix) (names : list string) (k : Z) :
  dm_square dm -> dm_labels dm = map Str names -> NoDup names ->
  (k < Z.of_nat (length names))%Z ->
  exists rows,
    n_nearest_neighbours_array dm k = Ok rows /\
    length rows = length names /\
    Forall (fun r => length r = S (Z.to_nat k)) rows /\
    omap (fun r : list cell => r !! 0%nat) rows = map Str names.
Proof.
  intros Hsq Hnamed Hnd Hk. unfold n_nearest_neighbours_array. rewrite Hnamed.
  assert (forall names' s,
            (forall j name, names' !! j = Some name -> names !! (s + j)%nat = Some name) ->
            exists rows,
              mapM (M := result) (fun jc : nat * cell => peer_row dm k jc.1 jc.2)
                   (imap (fun i => pair (s + i)%nat) (map Str names')) = Ok rows /\
              length rows = length names' /\
              Forall (fun r => length r = S (Z.to_nat k)) rows /\
              omap (fun r : list cell => r !! 0%nat) rows = map Str names') as Hgen.
  { induction names' as [|name names' IH]; intros s Hs.
    - exists []. repeat split. constructor.
    - destruct (peer_row_width_in_range dm names k (s + 0) name Hsq Hnamed Hnd)
        as (peers & Hrow & Hlen); [apply (Hs 0%nat); reflexivity | exact Hk |].
      destruct (IH (S s)) as (rows & Hrows & Hlens & Hall & Hfirst).
      { intros j name' Hj'. replace (S s + j)%nat with (s + S j)%nat by lia.
        apply (Hs (S j)). exact Hj'. }
      exists ((Str name :: peers) :: rows).
      change (map Str (name :: names')) with (Str name :: map Str names').
      rewrite imap_cons. simpl mapM. cbn [fst snd]. rewrite Hrow. simpl.
      rewrite (imap_ext _ (fun i => pair (S s + i)%nat)) by (intros; simpl; f_equal; lia).
      rewrite Hrows. simpl. split; [reflexivity|]. split; [f_equal; exact Hlens|]. split.
      + constructor; [simpl; f_equal; exact Hlen | exact Hall].
      + f_equal. exact Hfirst. }
  apply (Hgen names 0%nat). intros j name Hj. exact Hj.
Qed.

Lemma frame_of_rows_wide (cols : list string) (rows : list (list cell)) :
  rows <> [] -> Forall (fun r => length r = length cols) rows ->
  frame_of_rows cols rows
  = Ok (mkDF (length rows) (imap (fun j c => (c, omap (fun r => r !! j) rows)) cols)).
Proof.
  intros Hne Hall. unfold frame_of_rows. destruct rows as [|r rows]; [congruence|].
  assert (forallb (fun r0 => length r0 =? length cols)%nat (r :: rows) = true) as ->;
    [|reflexivity].
  apply forallb_forall. intros r0 Hr0. apply Nat.eqb_eq.
  rewrite Forall_forall in Hall. apply Hall, list_elem_of_In. exact Hr0.
Qed.

Lemma labels_of_imap (cols : list string) (g : nat -> string -> series) :
  map fst (imap (fun j c => (c, g j c)) cols) = cols.
Proof.
  revert g. induction cols as [|c cols IH]; intros g; [reflexivity|].
  rewrite imap_cons. simpl. f_equal. exact (IH (fun j => g (S j))).
Qed.

Lemma getitem_first_of_imap (l : string) (cols : list string)
    (g : nat -> string -> series) :
  l ∉ cols -> getitem l (mkDF (length (g 0%nat l)) (imap (fun j c => (c, g j c)) (l :: cols)))
              = Ok (g 0%nat l).
Proof.
  intros Hl. unfold getitem. cbn [columns]. rewrite imap_cons, find_columns_cons. simpl.
  rewrite decide_True by reflexivity.
  rewrite find_columns_notin; [reflexivity|].
  pose proof (labels_of_imap cols (fun j => g (S j))) as Hlabels.
  unfold compose. rewrite Hlabels. exact Hl.
Qed.

Section DistanceRun.
Context (K : Kernel).

(** The run of [calculate_distance] when each of its steps returns. *)
Lemma calculate_distance_run (w : world) (df : ref) (d : DataFrame)
    (output_folders : list string) (la_code la_name : string) (k : Z)
    (distance_metric output : string) (dm : DistMatrix) (long peers ex : DataFrame)
    (rows : list (list cell)) :
  heap w !! df = Some d -> output_folders !! 1%nat = Some output ->
  distance_matrix K d la_code la_name distance_metric = Ok dm ->
  create_pairwise_distance_df dm la_name "distance" = Ok long ->
  n_nearest_neighbours_array dm k = Ok rows ->
  frame_of_rows (peer_columns la_name k) rows = Ok peers ->
  example_rows la_name peers = Ok ex ->
  calculate_distance K df output_folders la_code la_name k distance_metric w
  = (Ok tt,
     mkWorld (heap w) (next_ref w)
       (<[joinpath "output" "example_peers.csv" := ex]>
          (<[joinpath "output" "peers.csv" := peers]>
             (<[joinpath output "example_peers.csv" := ex]>
                (<[joinpath output "peers.csv" := peers]>
                   (<[joinpath "output" "distances.csv" := long]>
                      (<[joinpath output "distances.csv" := long]> (csv_files w)))))))
       ([ (CsvFile, "output", "example_peers.csv"); (CsvFile, "output", "peers.csv");
          (CsvFile, output, "example_peers.csv"); (CsvFile, output, "peers.csv");
          (CsvFile, "output", "distances.csv"); (CsvFile, output, "distances.csv") ]
        ++ written w)).
Proof.
  intros Hd Hout Hdm Hlong Hrows Hpeers Hex. unfold calculate_distance.
  unfold mbind, M_bind, load, lift. rewrite Hd, Hout. simpl.
  rewrite Hdm, Hlong. simpl. rewrite Hrows, Hpeers, Hex. reflexivity.
Qed.

End DistanceRun.

Lemma output_distances_path (output name : string) :
  name = "peers.csv" \/ name = "example_peers.csv" ->
  joinpath output name <> joinpath "output" "distances.csv".
Proof.
  unfold joinpath. intros [-> | ->] H.
  - change (output +:+ "/peers.csv" = "output/dis" +:+ "tances.csv") in H.
    apply suffix_of_equal_length in H; [discriminate | reflexivity].
  - change (output +:+ "/example_peers.csv" = "ou" +:+ "tput/distances.csv") in H.
    apply suffix_of_equal_length in H; [discriminate | reflexivity].
Qed.

Section DistanceReturns.
Context (K : Kernel).

(** X2.  On a table that fits the schema, with a folder list that has the
    output folder and [k] below the number of authorities (zero and
    negative [k] included), [calculate_distance] returns.  It leaves every
    table as it was and has written, in this order, [distances.csv] in the
    run's output folder and in [output], then [peers.csv] and
    [example_peers.csv] in each of the two.  The files in [output] hold the
    long table of the distance matrix, the peers table (one row per
    authority, the names in its first column, [k] peer columns) and the
    rows of the peers table for the example authorities.  The peer columns
    are labelled by the numbers 1 to [k]; labels are strings here, so the
    name column is taken not to be labelled by one of these numerals. *)
Theorem calculate_distance_returns
    (w : world) (df : ref) (d : DataFrame) (output_folders : list string)
    (la_code la_name : string) (k : Z) (metric output : string)
    (ss : list string) (m : list Q -> list Q -> Q) :
  heap w !! df = Some d ->
  NoDup (labels d) -> wf_df d -> (0 < nrows d)%nat ->
  la_code ∈ labels d -> la_code <> la_name ->
  getitem la_name d = Ok (map Str ss) -> NoDup ss ->
  (forall l s, (l, s) ∈ columns d -> l ∉ [la_code; la_name] -> exists x, s = of_float x) ->
  pdist_metric K metric = Some m ->
  output_folders !! 1%nat = Some output ->
  (k < Z.of_nat (nrows d))%Z ->
  la_name ∉ map (fun i : nat => pretty i) (seq 1 (Z.to_nat k)) ->
  exists dm long rows peers ex w',
    calculate_distance K df output_folders la_code la_name k metric w = (Ok tt, w') /\
    heap w' = heap w /\
    distance_matrix K d la_code la_name metric = Ok dm /\
    create_pairwise_distance_df dm la_name "distance" = Ok long /\
    n_nearest_neighbours_array dm k = Ok rows /\
    frame_of_rows (peer_columns la_name k) rows = Ok peers /\
    labels peers = peer_columns la_name k /\ nrows peers = nrows d /\
    getitem la_name peers = Ok (map Str ss) /\
    example_rows la_name peers = Ok ex /\
    written w'
    = [ (CsvFile, "output", "example_peers.csv"); (CsvFile, "output", "peers.csv");
        (CsvFile, output, "example_peers.csv"); (CsvFile, output, "peers.csv");
        (CsvFile, "output", "distances.csv"); (CsvFile, output, "distances.csv") ]
      ++ written w /\
    csv_files w' !! joinpath "output" "distances.csv" = Some long /\
    csv_files w' !! joinpath "output" "peers.csv" = Some peers /\
    csv_files w' !! joinpath "output" "example_peers.csv" = Some ex.
Proof.
  intros Hd Hnd Hwf Hpos Hcode Hne Hname Hss Hnum Hm Hout Hk Hfresh.
  destruct (distance_matrix_ok K d la_code la_name metric m Hnd Hwf Hpos Hcode
              (getitem_ok_label _ _ _ Hname) Hne Hnum Hm) as [dm Hdm].
  destruct (distance_matrix_inv K d la_code la_name metric dm Hwf Hdm)
    as (Hin & Hlen & Hsq & _ & _).
  assert (dm_labels dm = map Str ss) as Hnamed.
  { pose proof (in_columns_getitem _ _ _ Hnd Hin) as H. congruence. }
  assert (length ss = nrows d) as Hn.
  { rewrite <- Hlen, Hnamed, length_map. reflexivity. }
  destruct (pairwise_rows_spec dm ss Hsq Hnamed Hss) as (prs & Hprs & _).
  assert (exists long, create_pairwise_distance_df dm la_name "distance" = Ok long)
    as [long Hlong].
  { unfold create_pairwise_distance_df. rewrite Hprs. simpl. eauto. }
  destruct (peer_rows_in_range dm ss k Hsq Hnamed Hss) as (rows & Hrows & Hrlen & Hwide & Hfirst);
    [lia|].
  set (peers := mkDF (length rows)
                     (imap (fun j c => (c, omap (fun r : list cell => r !! j) rows))
                           (peer_columns la_name k))).
  assert (frame_of_rows (peer_columns la_name k) rows = Ok peers) as Hpeers.
  { apply frame_of_rows_wide.
    - intros ->. simpl in Hrlen. lia.
    - rewrite peer_columns_length. exact Hwide. }
  assert (getitem la_name peers = Ok (map Str ss)) as Hnames.
  { rewrite <- Hfirst. unfold peers, peer_columns.
    replace (length rows) with (length (omap (fun r : list cell => r !! 0%nat) rows))
      by (rewrite Hfirst, length_map; lia).
    apply (getitem_first_of_imap la_name _
             (fun j _ => omap (fun r : list cell => r !! j) rows)). exact Hfresh. }
  assert (exists ex, example_rows la_name peers = Ok ex) as [ex Hex].
  { unfold example_rows. rewrite Hnames. simpl. eauto. }
  eexists dm, long, rows, peers, ex, _.
  split; [exact (calculate_distance_run K w df d output_folders la_code la_name k metric
                   output dm long peers ex rows Hd Hout Hdm Hlong Hrows Hpeers Hex)|].
  simpl. split; [reflexivity|]. split; [exact Hdm|]. split; [exact Hlong|].
  split; [exact Hrows|]. split; [exact Hpeers|]. split.
  { unfold peers, labels. cbn [columns].
    exact (labels_of_imap _ (fun j _ => omap (fun r : list cell => r !! j) rows)). }
  split; [lia|]. split; [exact Hnames|]. split; [exact Hex|]. split; [reflexivity|].
  split; [|split].
  - rewrite lookup_insert_ne by discriminate.
    rewrite lookup_insert_ne by discriminate.
    rewrite lookup_insert_ne by (apply output_distances_path; auto).
    rewrite lookup_insert_ne by (apply output_distances_path; auto).
    apply lookup_insert_eq.
  - rewrite lookup_insert_ne by discriminate. apply lookup_insert_eq.
  - apply lookup_insert_eq.
Qed.

End DistanceReturns.

Lemma calculate_distance_returns_witness :
  exists dm long rows peers ex w',
    calculate_distance Sample.kernel 0%nat four_folders "code" "name" 2 "cityblock"
                       (world_of four_las) = (Ok tt, w') /\
    heap w' = heap (world_of four_las) /\
    distance_matrix Sample.kernel four_las "code" "name" "cityblock" = Ok dm /\
    create_pairwise_distance_df dm "name" "distance" = Ok long /\
    n_nearest_neighbours_array dm 2 = Ok rows /\
    frame_of_rows (peer_columns "name" 2) rows = Ok peers /\
    labels peers = peer_columns "name" 2 /\ nrows peers = nrows four_las /\
    getitem "name" peers = Ok (map Str ["A"; "B"; "C"; "D"]) /\
    example_rows "name" peers = Ok ex /\
    written w'
    = [ (CsvFile, "output", "example_peers.csv"); (CsvFile, "output", "peers.csv");
        (CsvFile, "run/data", "example_peers.csv"); (CsvFile, "run/data", "peers.csv");
        (CsvFile, "output", "distances.csv"); (CsvFile, "run/data", "distances.csv") ]
      ++ written (world_of four_las) /\
    csv_files w' !! joinpath "output" "distances.csv" = Some long /\
    csv_files w' !! joinpath "output" "peers.csv" = Some peers /\
    csv_files w' !! joinpath "output" "example_peers.csv" = Some ex.
Proof.
  apply (calculate_distance_returns Sample.kernel (world_of four_las) 0%nat four_las
           four_folders "code" "name" 2 "cityblock" "run/data" ["A"; "B"; "C"; "D"]
           Sample.cityblock).
  - reflexivity.
  - nodup_compute.
  - repeat constructor.
  - simpl. lia.
  - left.
  - discriminate.
  - reflexivity.
  - nodup_compute.
  - intros l s Hin Hl. simpl in Hin. elem_cases Hin; injection Hin as -> ->.
    + exfalso. apply Hl. left.
    + exfalso. apply Hl. right. left.
    + exists [10; 20; 30; 1000]. reflexivity.
  - reflexivity.
  - reflexivity.
  - simpl. lia.
  - apply (bool_decide_unpack _). vm_compute. reflexivity.
Defined.

(** The peers table of that run. *)
Example peers_table_of_four_las :
  csv_files (snd (calculate_distance Sample.kernel 0%nat four_folders "code" "name" 2
                    "cityblock" (world_of four_las))) !! "output/peers.csv"
  = Some (mkDF 4 [ ("name", [Str "A"; Str "B"; Str "C"; Str "D"]);
                   ("1", [Str "B"; Str "A"; Str "B"; Str "C"]);
                   ("2", [Str "C"; Str "C"; Str "A"; Str "B"]) ]).
Proof. vm_compute. reflexivity. Qed.

(** ** A number of peers that is zero or negative *)

Lemma peer_row_nonpositive (dm : DistMatrix) (names : list string) (k : Z)
    (j : nat) (name : string) :
  dm_labels dm = map Str names -> NoDup names -> name ∈ names -> (k <= 0)%Z ->
  peer_row dm k j (Str name) = Ok [Str name].
Proof.
  intros Hnamed Hnd Hin Hk. unfold peer_row.
  rewrite Hnamed, (count_label names name Hnd Hin), Nat.eqb_refl. f_equal. f_equal.
  apply drop_ge. rewrite length_map. unfold nsmallest. rewrite length_take. lia.
Qed.

(** X3.  With [k <= 0] nothing is refused: every row of peers is the name of the
    authority alone, and the peers table has the name column only. *)
Theorem nonpositive_k_lists_no_peers
    (dm : DistMatrix) (names : list string) (k : Z) (la_name : string) :
  dm_labels dm = map Str names -> NoDup names -> names <> [] -> (k <= 0)%Z ->
  n_nearest_neighbours_array dm k = Ok (map (fun s => [Str s]) names) /\
  frame_of_rows (peer_columns la_name k) (map (fun s => [Str s]) names)
  = Ok (mkDF (length names) [(la_name, map Str names)]).
Proof.
  intros Hnamed Hnd Hne Hk. split.
  - unfold n_nearest_neighbours_array. rewrite Hnamed.
    assert (forall names' s, names' ⊆ names ->
              mapM (M := result) (fun jc : nat * cell => peer_row dm k jc.1 jc.2)
                   (imap (fun i => pair (s + i)%nat) (map Str names'))
              = Ok (map (fun s => [Str s]) names')) as Hgen.
    { induction names' as [|name names' IH]; intros s Hsub; [reflexivity|].
      change (map Str (name :: names')) with (Str name :: map Str names').
      rewrite imap_cons. simpl mapM. cbn [fst snd].
      rewrite (peer_row_nonpositive dm names k _ name Hnamed Hnd) by
        (try exact Hk; apply Hsub; left).
      simpl.
      rewrite (imap_ext _ (fun i => pair (S s + i)%nat)) by (intros; simpl; f_equal; lia).
      rewrite IH; [reflexivity|]. intros x Hx. apply Hsub. right. exact Hx. }
    apply (Hgen names 0%nat). reflexivity.
  - rewrite frame_of_rows_wide.
    + unfold peer_columns. replace (Z.to_nat k) with 0%nat by lia. simpl.
      rewrite length_map. do 4 f_equal.
      clear. induction names as [|s names IH]; [reflexivity|]. simpl. f_equal. exact IH.
    + destruct names; [congruence | discriminate].
    + rewrite peer_columns_length. replace (Z.to_nat k) with 0%nat by lia.
      apply Forall_fmap, Forall_forall. intros s _. reflexivity.
Qed.

Lemma nonpositive_k_lists_no_peers_witness :
  n_nearest_neighbours_array four_matrix (-1)
  = Ok (map (fun s => [Str s]) ["A"; "B"; "C"; "D"]) /\
  frame_of_rows (peer_columns "name" (-1)) (map (fun s => [Str s]) ["A"; "B"; "C"; "D"])
  = Ok (mkDF (length ["A"; "B"; "C"; "D"]) [("name", map Str ["A"; "B"; "C"; "D"])]).
Proof.
  apply (nonpositive_k_lists_no_peers four_matrix ["A"; "B"; "C"; "D"] (-1) "name").
  - reflexivity.
  - nodup_compute.
  - discriminate.
  - lia.
Defined.

(** ** What [transform_data] asks of the aggregated file *)

Section TransformInput.
Context (K : Kernel).

(** X4.  The file must be there and hold every key column and every feature
    listed: the column of a feature is selected before its weight is
    looked at, so a feature that the file lacks makes [transform_data]
    raise also when its weight is zero or negative. *)
Theorem transform_data_needs_every_column
    (la_keys output_folders : list string) (features : list (string * Q))
    (report normalise : bool) (ct : option (gmap string string)) (w : world) :
  (csv_files w !! joinpath INPUT_PATH params.aggregated_file = None \/
   exists dall, csv_files w !! joinpath INPUT_PATH params.aggregated_file = Some dall /\
     ((exists key, key ∈ la_keys /\ key ∉ labels dall) \/
      (exists feature weight, (feature, weight) ∈ features /\ feature ∉ labels dall))) ->
  failed (fst (transform_data K la_keys output_folders features report normalise ct w)).
Proof.
  intros Hbad.
  destruct (transform_data K la_keys output_folders features report normalise ct w)
    as [[out|e] w'] eqn:E; [|exact I].
  apply transform_data_ok in E as (dall & d0 & dout & Hfile & Hd0 & Hfold & _).
  destruct Hbad as [Hnone | (dall' & Hfile' & Hbad)]; [congruence|].
  rewrite Hfile in Hfile'. injection Hfile' as <-.
  destruct Hbad as [(key & Hkey & Hmiss) | (feature & weight & Hin & Hmiss)].
  - unfold getitems in Hd0.
    pose proof (select_columns_missing la_keys (columns dall) key Hkey Hmiss) as Hsel.
    destruct (select_columns la_keys (columns dall)); [contradiction | discriminate].
  - assert (forall acc, failed (feature_step K la_keys normalise ct dall acc
                                  (feature, weight))) as Hstep.
    { intros acc. unfold feature_step, getitems. simpl fst.
      pose proof (select_columns_missing (la_keys ++ [feature]) (columns dall) feature)
        as Hsel.
      destruct (select_columns (la_keys ++ [feature]) (columns dall)); [|exact I].
      exfalso. apply Hsel; [apply elem_of_app; right; left | exact Hmiss]. }
    pose proof (fold_result_fails _ features (feature, weight) Hin Hstep d0) as Hf.
    rewrite Hfold in Hf. contradiction.
Qed.

End TransformInput.

Lemma transform_data_needs_every_column_witness :
  failed (fst (transform_data Sample.kernel ["code"; "name"] four_folders
                 [("x", 1); ("y", 0)] true true None (world_with_input four_las))).
Proof.
  apply (transform_data_needs_every_column Sample.kernel ["code"; "name"] four_folders
           [("x", 1); ("y", 0)] true true None (world_with_input four_las)).
  right. exists four_las. split; [vm_compute; reflexivity|].
  right. exists "y", 0. split; [right; left|].
  apply (bool_decide_unpack _). vm_compute. reflexivity.
Defined.

(** The run of the witness raises [KeyError: 'y'] for the feature of weight
    zero, after the figure of the feature [x] has been saved. *)
Example unused_feature_key_error :
  let run := transform_data Sample.kernel ["code"; "name"] four_folders
               [("x", 1); ("y", 0)] true true None (world_with_input four_las) in
  fst run = Raise (KeyError "y") /\
  written (snd run) = [ (FigureFile, "run/plots", "x");
                        (FigureFile, "reports/transformations", "x") ].
Proof. vm_compute. split; reflexivity. Qed.

(** ** The table [transform_data] returns *)

Lemma append_prefix_inj (x y a : string) : x +:+ a = y +:+ a -> x = y.
Proof.
  revert y. induction x as [|c x IH]; intros [|c' y] H.
  - reflexivity.
  - exfalso. change (a = String c' (y +:+ a)) in H.
    apply (f_equal String.length) in H. simpl in H. rewrite append_length in H. lia.
  - exfalso. change (String c (x +:+ a) = a) in H.
    apply (f_equal String.length) in H. simpl in H. rewrite append_length in H. lia.
  - change (String c (x +:+ a) = String c' (y +:+ a)) in H.
    injection H as -> H. f_equal. exact (IH y H).
Qed.

Lemma best_labels_distinct (features : list (string * Q)) :
  NoDup (map fst features) -> NoDup (chosen_labels None features).
Proof.
  intros Hnd. unfold chosen_labels, chosen_column.
  assert (NoDup (map fst (filter (fun item : string * Q => Qltb 0 item.2 = true) features)))
    as Hsub.
  { apply (sublist_NoDup _ (map fst features)); [exact Hnd|].
    apply fmap_sublist, sublist_filter. }
  set (kept := filter (fun item : string * Q => Qltb 0 item.2 = true) features) in *.
  change (NoDup (map (fun item : string * Q => item.1 +:+ "_best") kept)).
  replace (map (fun item : string * Q => item.1 +:+ "_best") kept)
    with (map (fun f => f +:+ "_best") (map fst kept))
    by (rewrite <- list_fmap_compose; reflexivity).
  apply NoDup_fmap_2; [|exact Hsub].
  intros a b. apply append_prefix_inj.
Qed.

Section ReturnedTable.
Context (K : Kernel).

(** X5.  Let the table read have distinct labels, the key columns identify its
    rows, no feature label extend to a key label, and the features be
    listed once each.  When [transform_data] returns without an override,
    the table it returns has the rows of the table read and the same key
    columns, followed by one column [<feature>_best] for each feature of
    positive weight, in the order of the features; a feature of weight zero
    or less has no column.  Each [<feature>_best] is the column of that
    label in the table the three stages left for the feature. *)
Theorem transform_data_returns_keys_and_best
    (la_keys output_folders : list string) (features : list (string * Q))
    (report normalise : bool) (dall : DataFrame) (ks : list series)
    (w w' : world) (out : ref) :
  csv_files w !! joinpath INPUT_PATH params.aggregated_file = Some dall ->
  wf_df dall -> NoDup (labels dall) -> NoDup la_keys ->
  mapM (M := result) (fun k => getitem k dall) la_keys = Ok ks ->
  distinct_keys ks (nrows dall) ->
  (forall f wt sfx, (f, wt) ∈ features -> f +:+ sfx ∉ la_keys) ->
  NoDup (map fst features) ->
  transform_data K la_keys output_folders features report normalise None w = (Ok out, w') ->
  exists dout,
    heap w' !! out = Some dout /\ wf_df dout /\ nrows dout = nrows dall /\
    labels dout
    = la_keys ++ map (fun item => item.1 +:+ "_best")
                     (filter (fun item : string * Q => Qltb 0 item.2 = true) features) /\
    (forall key, key ∈ la_keys -> getitem key dout = getitem key dall) /\
    (forall f wt, (f, wt) ∈ features -> 0 < wt ->
       exists d0 td g s,
         getitems (la_keys ++ [f]) dall = Ok d0 /\
         stages K f wt la_keys normalise d0 = (Ok g, td) /\
         getitem (f +:+ "_best") td = Ok s /\
         getitem (f +:+ "_best") dout = Ok s).
Proof.
  intros Hfile Hwf Hnd Hkeys Hks Hdist Hapart Hfeat Hrun.
  apply transform_data_ok in Hrun as (dall' & d0 & dout & Hfile' & Hd0 & Hfold & Hout).
  rewrite Hfile in Hfile'. injection Hfile' as <-.
  unfold getitems in Hd0. rewrite (select_columns_unique _ _ _ Hks) in Hd0.
  simpl in Hd0. injection Hd0 as <-.
  pose proof (best_labels_distinct features Hfeat) as Hbest.
  destruct (assembled_columns K la_keys normalise None dall ks Hnd Hwf Hkeys Hks Hdist
              features dout Hapart Hbest Hfold) as [Hlabels Hall].
  destruct (loop_adds K la_keys normalise None dall ks Hnd Hwf Hkeys Hks Hdist
              features [] dout) as (done' & Hdout & Hlen & Hfst & _).
  { constructor. }
  { intros l _ H. inversion H. }
  { exact Hapart. }
  { exact Hbest. }
  { unfold out_frame. rewrite app_nil_r. exact Hfold. }
  simpl in Hdout.
  exists dout. split; [exact Hout|]. split.
  { rewrite Hdout. exact (out_frame_wf la_keys dall ks Hwf Hks done' Hlen). }
  split; [rewrite Hdout; reflexivity|]. split; [exact Hlabels|]. split.
  - intros key Hkey. rewrite Hdout. unfold getitem, out_frame. simpl.
    rewrite find_columns_app, (key_find la_keys dall ks Hkeys Hks key Hkey).
    rewrite (find_columns_notin key done'); [rewrite app_nil_r; reflexivity|].
    rewrite Hfst. unfold chosen_labels. intros H.
    apply list_elem_of_fmap in H as ([f wt] & -> & Hin).
    apply list_elem_of_filter in Hin as [_ Hin].
    exact (Hapart f wt "_best" Hin Hkey).
  - intros f wt Hin Hpos. apply Qltb_true in Hpos.
    destruct (Hall f wt Hin Hpos) as (s & (_ & d1 & td & g & Hd1 & Hst & Hs) & Hs').
    exists d1, td, g, s. auto.
Qed.

End ReturnedTable.

Definition two_feature_las : DataFrame :=
  mkDF 4 [ ("code", [Str "E1"; Str "E2"; Str "E3"; Str "E4"]);
           ("name", [Str "A"; Str "B"; Str "C"; Str "D"]);
           ("x", [Num 10; Num 20; Num 30; Num 1000]);
           ("y", [Num 4; Num 3; Num 2; Num 1]) ].

(** A run on [two_feature_las] in which the feature [y] has weight zero. *)
Definition weighted_run : result ref * world :=
  transform_data Sample.kernel ["code"; "name"] four_folders [("y", 0); ("x", 1)]
                 true true None (world_with_input two_feature_las).

Lemma transform_data_returns_keys_and_best_witness :
  exists dout,
    heap (snd weighted_run) !! 8%nat = Some dout /\ wf_df dout /\
    nrows dout = nrows two_feature_las /\
    labels dout
    = ["code"; "name"]
      ++ map (fun item => item.1 +:+ "_best")
             (filter (fun item : string * Q => Qltb 0 item.2 = true) [("y", 0); ("x", 1)]) /\
    (forall key, key ∈ ["code"; "name"] -> getitem key dout = getitem key two_feature_las) /\
    (forall f wt, (f, wt) ∈ [("y", 0); ("x", 1)] -> 0 < wt ->
       exists d0 td g s,
         getitems (["code"; "name"] ++ [f]) two_feature_las = Ok d0 /\
         stages Sample.kernel f wt ["code"; "name"] true d0 = (Ok g, td) /\
         getitem (f +:+ "_best") td = Ok s /\
         getitem (f +:+ "_best") dout = Ok s).
Proof.
  apply (transform_data_returns_keys_and_best Sample.kernel ["code"; "name"] four_folders
           [("y", 0); ("x", 1)] true true two_feature_las
           [ [Str "E1"; Str "E2"; Str "E3"; Str "E4"];
             [Str "A"; Str "B"; Str "C"; Str "D"] ]
           (world_with_input two_feature_las) (snd weighted_run) 8%nat).
  - vm_compute. reflexivity.
  - repeat constructor.
  - nodup_compute.
  - nodup_compute.
  - vm_compute. reflexivity.
  - intros i j Hi Hj.
    destruct i as [|[|[|[|i]]]]; try lia;
      destruct j as [|[|[|[|j]]]]; try lia;
      vm_compute; congruence.
  - intros f wt sfx Hin Hkey. simpl in Hin. elem_cases Hin; injection Hin as -> ->;
      simpl in Hkey; elem_cases Hkey; discriminate.
  - nodup_compute.
  - vm_compute. reflexivity.
Defined.

(** The table of that run: no column for [y]. *)
Example weighted_run_labels :
  (labels <$> heap (snd weighted_run) !! 8%nat) = Some ["code"; "name"; "x_best"].
Proof. vm_compute. reflexivity. Qed.

(** ** The files a run that returns has written *)

(** When [m] returns it has written exactly [new], the most recent
    first. *)
Definition M_writes (new : list log_entry) {A} (m : M A) : Prop :=
  forall w a w', m w = (Ok a, w') -> written w' = new ++ written w.

Lemma M_writes_nothing {A} (m : M A) : M_logs (fun _ => False) m -> M_writes [] m.
Proof.
  intros Hm w a w' Hrun. destruct (Hm w) as (new & Hnew & Hall).
  rewrite Hrun in Hnew. simpl in Hnew.
  destruct new as [|e new]; [exact Hnew|]. inversion Hall; contradiction.
Qed.

Lemma M_writes_bind {A B} (n1 n2 : list log_entry) (m : M A) (k : A -> M B) :
  M_writes n1 m -> (forall a, M_writes n2 (k a)) -> M_writes (n2 ++ n1) (m ≫= k).
Proof.
  intros Hm Hk w b w' Hrun. apply M_bind_ok in Hrun as (a & w1 & Hm1 & Hk1).
  rewrite (Hk a w1 b w' Hk1), (Hm w a w1 Hm1), app_assoc. reflexivity.
Qed.

Lemma M_writes_after {A B} (n : list log_entry) (m : M A) (k : A -> M B) :
  M_writes [] m -> (forall a, M_writes n (k a)) -> M_writes n (m ≫= k).
Proof.
  intros Hm Hk. rewrite <- (app_nil_r n). exact (M_writes_bind [] n m k Hm Hk).
Qed.

Lemma M_writes_before {A B} (n : list log_entry) (m : M A) (k : A -> M B) :
  M_writes n m -> (forall a, M_writes [] (k a)) -> M_writes n (m ≫= k).
Proof. intros Hm Hk. exact (M_writes_bind n [] m k Hm Hk). Qed.

Lemma M_writes_ret {A} (a : A) : M_writes [] (mret a : M A).
Proof. intros w a' w' [= _ <-]. reflexivity. Qed.

(** A step that takes a value out of an option: the rest runs on that
    value only. *)
Lemma M_writes_of_option {A B} (n : list log_entry) (o : option A) (e : exn)
    (k : A -> M B) :
  (forall a, o = Some a -> M_writes n (k a)) -> M_writes n (lift (of_option o e) ≫= k).
Proof.
  intros Hk w b w' Hrun. apply M_bind_ok in Hrun as (a & w1 & Hl & Hk1).
  apply lift_ok in Hl as [Ho ->]. destruct o as [a'|]; [|discriminate].
  injection Ho as ->. exact (Hk a eq_refl w b w' Hk1).
Qed.

Section Written.
Context (K : Kernel).

Lemma transformation_report_writes (output : string) (df : ref) (feature : string)
    (normalise gtz : bool) :
  M_writes [ (FigureFile, output, feature);
             (FigureFile, joinpath params.report_folder params.transformations_folder,
              feature) ]
           (transformation_report output df feature normalise gtz).
Proof.
  unfold transformation_report. intros w [] w' H.
  apply M_bind_ok in H as (d & w1 & Hload & H). apply load_inv in Hload as [_ ->].
  repeat (apply M_bind_ok in H as (? & ? & Hl & H); apply lift_ok in Hl as [_ ->]).
  apply M_bind_ok in H as ([] & w2 & Hg & H).
  assert (w2 = w) as ->.
  { destruct gtz.
    - repeat (apply M_bind_ok in Hg as (? & ? & Hl & Hg); apply lift_ok in Hl as [_ ->]).
      injection Hg as <-. reflexivity.
    - injection Hg as <-. reflexivity. }
  simpl in H. injection H as <-. reflexivity.
Qed.

(** The figures one turn of the loop saves, the most recent first. *)
Definition feature_figures (output_folders : list string) (report : bool)
    (item : string * Q) : list log_entry :=
  if Qltb 0 item.2 && report then
    match output_folders !! 3%nat with
    | Some out =>
        [ (FigureFile, out, item.1);
          (FigureFile, joinpath params.report_folder params.transformations_folder,
           item.1) ]
    | None => []
    end
  else [].

Fixpoint report_figures (output_folders : list string) (report : bool)
    (features : list (string * Q)) : list log_entry :=
  match features with
  | [] => []
  | item :: rest =>
      report_figures output_folders report rest
      ++ feature_figures output_folders report item
  end.

Lemma process_feature_writes (la_keys output_folders : list string)
    (report normalise : bool) (ct : option (gmap string string))
    (df_all out : ref) (item : string * Q) :
  M_writes (feature_figures output_folders report item)
    (process_feature K la_keys output_folders report normalise ct df_all out item).
Proof.
  unfold process_feature, feature_figures. destruct item as [feature weight]. simpl.
  apply M_writes_after; [apply M_writes_nothing, select_logs|]. intros view.
  apply M_writes_after; [apply M_writes_nothing, copy_logs|]. intros df_var.
  destruct (Qltb 0 weight); simpl; [|apply M_writes_ret].
  apply M_writes_after.
  { apply M_writes_nothing. unfold _transform_var. repeat logs_step. }
  intros [td g].
  apply M_writes_after.
  { apply M_writes_nothing. destruct normalise; [|apply M_logs_ret].
    unfold _normalise_var. repeat logs_step. }
  intros td1.
  apply M_writes_after.
  { apply M_writes_nothing. unfold _get_best_gaussian_transformation. repeat logs_step. }
  intros td2.
  apply M_writes_before.
  - destruct report; [|apply M_writes_ret].
    apply M_writes_of_option. intros out3 ->. apply transformation_report_writes.
  - intros []. apply M_writes_after; [apply M_writes_nothing, select_logs|]. intros cu.
    apply M_writes_nothing, merge_new_logs.
Qed.

Lemma fold_loop_writes (la_keys output_folders : list string)
    (report normalise : bool) (ct : option (gmap string string))
    (df_all : ref) (features : list (string * Q)) :
  forall out,
    M_writes (report_figures output_folders report features)
      (fold_loop (process_feature K la_keys output_folders report normalise ct df_all)
                 out features).
Proof.
  induction features as [|item features IH]; intros out; simpl.
  - apply M_writes_ret.
  - apply M_writes_bind; [apply process_feature_writes | intros out'; apply IH].
Qed.

End Written.

Section ReturnedFiles.
Context (K : Kernel).

(** What a run of [transform_data] that returns leaves: the log and the
    two copies of the table returned. *)
Lemma transform_data_written
    (la_keys output_folders : list string) (features : list (string * Q))
    (report normalise : bool) (ct : option (gmap string string))
    (w w' : world) (out : ref) :
  transform_data K la_keys output_folders features report normalise ct w = (Ok out, w') ->
  exists output dout,
    output_folders !! 1%nat = Some output /\
    heap w' !! out = Some dout /\
    written w'
    = [ (CsvFile, "output", "features.csv"); (CsvFile, output, "features.csv") ]
      ++ report_figures output_folders report features ++ written w /\
    csv_files w' !! joinpath output "features.csv" = Some dout /\
    csv_files w' !! joinpath "output" "features.csv" = Some dout.
Proof.
  unfold transform_data. intros H.
  apply M_bind_ok in H as (df_all & w1 & Hread & H).
  pose proof (M_writes_nothing _ (M_logs_read_csv _ _) w df_all w1 Hread) as E1.
  apply read_csv_inv in Hread as (dall & Hdall & Hall).
  apply M_bind_ok in H as (view & w2 & Hsel & H).
  pose proof (M_writes_nothing _ (select_logs _ _ _) w1 view w2 Hsel) as E2.
  apply select_inv in Hsel as (d & d0 & Hd & Hd0 & Hview & Hkeep2).
  apply M_bind_ok in H as (out0 & w3 & Hcopy & H).
  pose proof (M_writes_nothing _ (copy_logs _ _) w2 out0 w3 Hcopy) as E3.
  apply copy_inv in Hcopy as (d' & Hd' & Hout0 & Hkeep3).
  apply M_bind_ok in H as (out1 & w4 & Hfold & H).
  pose proof (fold_loop_writes K la_keys output_folders report normalise ct df_all
                features out0 w3 out1 w4 Hfold) as E4.
  destruct (fold_loop_ok K la_keys output_folders report normalise ct df_all dall features
              out0 out1 d' w3 w4) as (dout & _ & _ & [Hout1 _]).
  { apply Hkeep3, Hkeep2, Hall. }
  { exact Hout0. }
  { exact Hfold. }
  apply M_bind_ok in H as (output & w5 & Hl & H). apply lift_ok in Hl as [Hfolder ->].
  destruct (output_folders !! 1%nat) as [output'|] eqn:Hsome; [|discriminate].
  injection Hfolder as ->.
  apply M_bind_ok in H as ([] & w6 & Hcsv & H). injection H as <- <-.
  simpl in Hcsv. unfold to_csv, mbind, M_bind, load in Hcsv.
  rewrite Hout1 in Hcsv. simpl in Hcsv. rewrite Hout1 in Hcsv. simpl in Hcsv.
  injection Hcsv as <-. simpl.
  exists output, dout. split; [reflexivity|]. split; [exact Hout1|]. split.
  { rewrite E4, E3, E2, E1. reflexivity. }
  split; [|apply lookup_insert_eq].
  destruct (decide (joinpath OUTPUT_PATH "features.csv" = joinpath output "features.csv"))
    as [->|Hne]; [apply lookup_insert_eq|].
  rewrite lookup_insert_ne by exact Hne. apply lookup_insert_eq.
Qed.

(** X6.  When [transform_data] returns it has saved, for each feature of
    positive weight in turn, the figure of the transformation report in
    [reports/transformations] and in the fourth folder of the run (when
    [report] is set), and then written [features.csv] in the second folder
    of the run and in [output]; both files hold the table returned. *)
Theorem transform_data_writes_features
    (la_keys output_folders : list string) (features : list (string * Q))
    (report normalise : bool) (ct : option (gmap string string))
    (w w' : world) (out : ref) :
  transform_data K la_keys output_folders features report normalise ct w = (Ok out, w') ->
  exists output dout,
    output_folders !! 1%nat = Some output /\
    heap w' !! out = Some dout /\
    written w'
    = [ (CsvFile, "output", "features.csv"); (CsvFile, output, "features.csv") ]
      ++ report_figures output_folders report features ++ written w /\
    csv_files w' !! joinpath output "features.csv" = Some dout /\
    csv_files w' !! joinpath "output" "features.csv" = Some dout.
Proof.
  intros H.
  exact (transform_data_written la_keys output_folders features report normalise ct
           w w' out H).
Qed.

End ReturnedFiles.

Lemma transform_data_writes_features_witness :
  exists output dout,
    four_folders !! 1%nat = Some output /\
    heap (snd weighted_run) !! 8%nat = Some dout /\
    written (snd weighted_run)
    = [ (CsvFile, "output", "features.csv"); (CsvFile, output, "features.csv") ]
      ++ report_figures four_folders true [("y", 0); ("x", 1)]
      ++ written (world_with_input two_feature_las) /\
    csv_files (snd weighted_run) !! joinpath output "features.csv" = Some dout /\
    csv_files (snd weighted_run) !! joinpath "output" "features.csv" = Some dout.
Proof.
  apply (transform_data_writes_features Sample.kernel ["code"; "name"] four_folders
           [("y", 0); ("x", 1)] true true None (world_with_input two_feature_las)
           (snd weighted_run) 8%nat).
  vm_compute. reflexivity.
Defined.

(** The files of that run, the most recent first. *)
Example weighted_run_files :
  written (snd weighted_run)
  = [ (CsvFile, "output", "features.csv"); (CsvFile, "run/data", "features.csv");
      (FigureFile, "run/plots", "x"); (FigureFile, "reports/transformations", "x") ].
Proof. vm_compute. reflexivity. Qed.

(** ** The range of a normalised column *)





(** ** Normalising a table that is normalised already *)






(** ** A weight that is zero or negative *)

(** X9.  [_normalise_var] refuses a weight of zero or less as soon as it comes
    to a column that is not a key: the scaler raises on the range
    [(0, weight)] (or the column cannot be read as numbers), and the table
    is as it was. *)
Theorem normalise_var_refuses_nonpositive_weight
    (weight : Q) (key_columns : list string) (df : DataFrame) :
  weight <= 0 -> (exists l, l ∈ labels df /\ l ∉ key_columns) ->
  exists e, InPlace._normalise_var weight key_columns df = (Raise e, df).
Proof.
  intros Hw. rewrite _normalise_var_unfold. generalize (labels df) as cols.
  induction cols as [|col cols IH]; intros (l & Hl & Hk); [inversion Hl|].
  cbn [for_each]. rewrite D_run_bind. unfold normalise_column at 1.
  destruct (bool_decide (col ∉ key_columns)) eqn:Hcol.
  - rewrite D_run_bind. destruct (floats col df) as [[x|e] d'] eqn:Hf.
    + apply floats_inv in Hf as [-> _]. rewrite D_run_bind.
      unfold pure_of, MinMaxScaler_fit_transform.
      assert (Qle_bool weight 0 = true) as -> by (apply Qle_bool_iff; exact Hw).
      eauto.
    + apply floats_inv in Hf as [-> _]. eauto.
  - rewrite D_run_ret. apply IH. exists l. split; [|exact Hk].
    apply bool_decide_eq_false in Hcol. apply dec_stable in Hcol.
    apply elem_of_cons in Hl as [->|Hl]; [contradiction | exact Hl].
Qed.

Lemma normalise_var_refuses_nonpositive_weight_witness :
  exists e, InPlace._normalise_var (-1) ["index"] frame_c3 = (Raise e, frame_c3).
Proof.
  apply (normalise_var_refuses_nonpositive_weight (-1) ["index"] frame_c3).
  - discriminate.
  - exists "transformation_1". split.
    + right. left.
    + intros H. apply elem_of_cons in H as [H|H]; [discriminate | inversion H].
Defined.

(** ** A table without candidates *)

(** X10.  When every column is a key column the dict of p-values is empty,
    [max] raises, and the table is as it was. *)
Theorem best_gaussian_needs_a_candidate
    (K : Kernel) (feature : string) (key_columns : list string) (df : DataFrame) :
  (forall l, l ∈ labels df -> l ∈ key_columns) ->
  InPlace._get_best_gaussian_transformation K feature key_columns df
  = (Raise (ValueError "max() arg is an empty sequence"), df).
Proof.
  intros Hall. unfold InPlace._get_best_gaussian_transformation.
  rewrite D_run_bind. unfold read at 1. rewrite D_run_bind.
  assert (forall cols, (forall l, l ∈ cols -> l ∈ key_columns) ->
            InPlace.p_values_of K cols key_columns df = (Ok [], df)) as Hnone.
  { induction cols as [|col cols IH]; intros Hcols; [reflexivity|]. simpl.
    rewrite bool_decide_eq_false_2.
    - apply IH. intros l Hl. apply Hcols. right. exact Hl.
    - intros Hn. apply Hn. apply Hcols. left. }
  rewrite (Hnone _ Hall). reflexivity.
Qed.

Lemma best_gaussian_needs_a_candidate_witness :
  InPlace._get_best_gaussian_transformation Sample.kernel "x" ["code"; "name"]
    (mkDF 2 [("code", [Str "E1"; Str "E2"]); ("name", [Str "A"; Str "B"])])
  = (Raise (ValueError "max() arg is an empty sequence"),
     mkDF 2 [("code", [Str "E1"; Str "E2"]); ("name", [Str "A"; Str "B"])]).
Proof.
  apply (best_gaussian_needs_a_candidate Sample.kernel "x" ["code"; "name"]).
  intros l Hl. simpl in Hl. exact Hl.
Defined.

(** ** What the stages leave alone *)

(** X11.  The three stages of a feature, in the order [transform_data] runs
    them, never change the number of rows nor a column whose label is a key
    (no key label being the feature followed by a variant suffix or
    [_best]), also when one of them raises. *)
Theorem stages_never_touch_keys
    (K : Kernel) (feature : string) (weight : Q) (la_keys : list string)
    (normalise : bool) (df : DataFrame) :
  (forall sfx, feature +:+ sfx ∉ la_keys) ->
  let df' := snd (stages K feature weight la_keys normalise df) in
  nrows df' = nrows df /\
  (wf_df df -> wf_df df') /\
  (NoDup (labels df) -> NoDup (labels df')) /\
  forall key, key ∈ la_keys -> getitem key df' = getitem key df.
Proof.
  intros Hapart.
  destruct (stages_keep K feature weight la_keys normalise) with (df := df)
    as (Hn & Hwf & Hnd & Hkeep).
  - intros l Hl. unfold variant_labels in Hl.
    apply list_elem_of_fmap in Hl as (sfx & -> & _). apply Hapart.
  - apply Hapart.
  - simpl. split; [exact Hn|]. split; [exact Hwf|]. split; [exact Hnd|].
    intros key Hkey. unfold getitem. rewrite (Hkeep key Hkey). reflexivity.
Qed.

Lemma stages_never_touch_keys_witness :
  let df' := snd (stages Sample.kernel "x" 1 ["code"; "name"] true four_las) in
  nrows df' = nrows four_las /\
  (wf_df four_las -> wf_df df') /\
  (NoDup (labels four_las) -> NoDup (labels df')) /\
  forall key, key ∈ ["code"; "name"] -> getitem key df' = getitem key four_las.
Proof.
  apply (stages_never_touch_keys Sample.kernel "x" 1 ["code"; "name"] true four_las).
  intros sfx H. simpl in H. elem_cases H; discriminate.
Defined.

(** ** Box-Cox raising on a positive column *)

(** X12.  When every value is positive and Box-Cox raises (SciPy refuses constant
    data), [_transform_var] raises with the table half done: the
    Yeo-Johnson, square-root, log1p and squared columns have been added to
    the table passed in, and none of the three columns for positive data. *)
Theorem transform_var_stops_at_boxcox
    (K : Kernel) (feature : string) (df : DataFrame) (x yj : list Q) (e : exn) :
  NoDup (labels df) -> wf_df df -> getitem feature df = Ok (of_float x) ->
  Forall (fun v => 0 < v) x ->
  yeojohnson K x = Ok yj -> length yj = length x -> boxcox K x = Raise e ->
  exists df',
    InPlace._transform_var K feature df = (Raise e, df') /\
    transformed K feature x yj None df df'.
Proof.
  intros Hnd Hwf Hx Hall Hyj Hlyj Hbc.
  assert (length x = nrows df) as Hlen.
  { rewrite <- (getitem_length _ _ _ Hwf Hx). symmetry. apply of_float_length. }
  apply all_positive_iff in Hall.
  remember (InPlace._transform_var K feature df) as run eqn:Hrun.
  unfold InPlace._transform_var in Hrun.
  rewrite D_run_bind, (floats_ok _ _ _ Hx) in Hrun.
  rewrite D_run_bind, (floats_ok _ _ _ Hx) in Hrun.
  rewrite D_run_bind in Hrun. unfold pure_of at 1 in Hrun. rewrite Hyj in Hrun.
  assert (x <> []) as Hne.
  { intros ->. unfold yeojohnson in Hyj. discriminate. }
  destruct (list_min_max_some x Hne) as (m & _ & Hm & _).
  rewrite Hm, (min_positive_iff _ _ Hm), Hall in Hrun.
  rewrite D_run_bind in Hrun.
  destruct (assign_run (feature +:+ "_yj") (of_float yj) df)
    as (d1 & Ha1 & Hn1 & Hnd1 & Hl1 & Hyj1 & Ho1 & Hwf1);
    [rewrite of_float_length; lia | exact Hnd |].
  rewrite Ha1 in Hrun.
  assert (getitem feature d1 = Ok (of_float x)) as Hx1 by (chase_getitem).
  rewrite D_run_bind, (floats_ok _ _ _ Hx1), D_run_bind in Hrun.
  destruct (assign_run (feature +:+ "_sqrr") (of_float (map (power_half K) x)) d1)
    as (d2 & Ha2 & Hn2 & Hnd2 & Hl2 & Hsq2 & Ho2 & Hwf2);
    [rewrite of_float_length, length_map; lia | exact Hnd1 |].
  rewrite Ha2 in Hrun.
  assert (getitem feature d2 = Ok (of_float x)) as Hx2 by (chase_getitem).
  rewrite D_run_bind, (floats_ok _ _ _ Hx2), D_run_bind in Hrun.
  destruct (assign_run (feature +:+ "_log") (of_float (map (log1p K) x)) d2)
    as (d3 & Ha3 & Hn3 & Hnd3 & Hl3 & Hlg3 & Ho3 & Hwf3);
    [rewrite of_float_length, length_map; lia | exact Hnd2 |].
  rewrite Ha3 in Hrun.
  assert (getitem feature d3 = Ok (of_float x)) as Hx3 by (chase_getitem).
  rewrite D_run_bind, (floats_ok _ _ _ Hx3), D_run_bind in Hrun.
  destruct (assign_run (feature +:+ "_squared") (of_float (map (fun v => v * v) x)) d3)
    as (d4 & Ha4 & Hn4 & Hnd4 & Hl4 & Hsd4 & Ho4 & Hwf4);
    [rewrite of_float_length, length_map; lia | exact Hnd3 |].
  rewrite Ha4 in Hrun.
  assert (getitem feature d4 = Ok (of_float x)) as Hx4 by (chase_getitem).
  rewrite D_run_bind in Hrun.
  rewrite D_run_bind, (floats_ok _ _ _ Hx4) in Hrun.
  rewrite D_run_bind in Hrun. unfold pure_of at 1 in Hrun. rewrite Hbc in Hrun.
  exists d4. split; [exact Hrun|].
  unfold transformed.
  split; [lia|]. split; [exact Hnd4|]. split; [auto 10|].
  split.
  { unfold has_label in *. rewrite Hl4, Hl3, Hl2, Hl1. reflexivity. }
  split; [chase_getitem|]. split; [chase_getitem|]. split; [chase_getitem|].
  split; [chase_getitem|]. split; [chase_getitem|].
  split; [exact I|].
  intros l Hnot. chase_frame Hnot.
Qed.

(** A kernel whose Box-Cox refuses constant data, as SciPy's does. *)
Definition refusing_kernel : Kernel := {|
  shapiro_pvalue := shapiro_pvalue Sample.kernel;
  yeojohnson_mle := yeojohnson_mle Sample.kernel;
  boxcox_mle := fun x =>
    match list_min x, list_max x with
    | Some lo, Some hi =>
        if Qeq_bool lo hi then Raise (ValueError "Data must not be constant.")
        else boxcox_mle Sample.kernel x
    | _, _ => boxcox_mle Sample.kernel x
    end;
  power_half := power_half Sample.kernel;
  log1p := log1p Sample.kernel;
  power_neg_half := power_neg_half Sample.kernel;
  pdist_metric := pdist_metric Sample.kernel
|}.

Definition constant_feature : DataFrame :=
  mkDF 3 [ ("index", [Num 0; Num 1; Num 2]); ("x", [Num 5; Num 5; Num 5]) ].

Lemma transform_var_stops_at_boxcox_witness :
  exists df',
    InPlace._transform_var refusing_kernel "x" constant_feature
    = (Raise (ValueError "Data must not be constant."), df') /\
    transformed refusing_kernel "x" [5; 5; 5] [5; 5; 5] None constant_feature df'.
Proof.
  apply (transform_var_stops_at_boxcox refusing_kernel "x" constant_feature
           [5; 5; 5] [5; 5; 5]).
  - apply (bool_decide_unpack _). vm_compute. reflexivity.
  - repeat constructor.
  - reflexivity.
  - repeat constructor.
  - reflexivity.
  - reflexivity.
  - reflexivity.
Defined.

(** The labels of the table after that run. *)
Example constant_feature_half_done :
  labels (snd (InPlace._transform_var refusing_kernel "x" constant_feature))
  = ["index"; "x"; "x_yj"; "x_sqrr"; "x_log"; "x_squared"].
Proof. vm_compute. reflexivity. Qed.

(** ** The transformation report after the stages *)

(** Statements that only add labels to the table. *)
Definition D_adds {A} (m : D A) : Prop :=
  forall df l, l ∈ labels df -> l ∈ labels (snd (m df)).

Lemma D_adds_ret {A} (a : A) : D_adds (mret a : D A).
Proof. intros df l H. exact H. Qed.

Lemma D_adds_read {A} (f : DataFrame -> result A) : D_adds (read f).
Proof. intros df l H. exact H. Qed.

Lemma D_adds_pure_of {A} (r : result A) : D_adds (pure_of r).
Proof. intros df l H. exact H. Qed.

Lemma D_adds_bind {A B} (m : D A) (k : A -> D B) :
  D_adds m -> (forall a, D_adds (k a)) -> D_adds (m ≫= k).
Proof.
  intros Hm Hk df l Hl. rewrite D_run_bind. specialize (Hm df l Hl).
  destruct (m df) as [[a|e] df1]; simpl in *; [apply Hk|]; exact Hm.
Qed.

Lemma D_adds_floats (l : string) : D_adds (floats l).
Proof.
  unfold floats. apply D_adds_bind; [apply D_adds_read|].
  intros s. apply D_adds_pure_of.
Qed.

Lemma D_adds_assign (l : string) (s : series) : D_adds (assign l s).
Proof.
  intros df l' Hl'. unfold assign. destruct (setitem l s df) as [df'|e] eqn:E; simpl;
    [|exact Hl'].
  destruct (setitem_inv _ _ _ _ E) as (_ & _ & Hlabels & _).
  apply (labels_after_assign l l' df df' Hlabels). left. exact Hl'.
Qed.

Lemma D_adds_for_each {A} (xs : list A) (body : A -> D unit) :
  (forall x, D_adds (body x)) -> D_adds (for_each xs body).
Proof.
  intros Hbody. induction xs as [|x xs IH]; simpl.
  - apply D_adds_ret.
  - apply D_adds_bind; [apply Hbody | intros _; exact IH].
Qed.

Ltac adds_step :=
  first
    [ apply D_adds_ret | apply D_adds_read | apply D_adds_pure_of
    | apply D_adds_floats | apply D_adds_assign
    | apply D_adds_bind; [|intros ?]
    | apply D_adds_for_each; intros ?
    | match goal with
      | |- D_adds (if ?b then _ else _) => destruct b eqn:?
      end ].

Lemma normalise_var_adds (weight : Q) (key_columns : list string) :
  D_adds (InPlace._normalise_var weight key_columns).
Proof. unfold InPlace._normalise_var. repeat adds_step. Qed.

Lemma p_values_of_adds (K : Kernel) (cols key_columns : list string) :
  D_adds (InPlace.p_values_of K cols key_columns).
Proof. induction cols as [|c cols IH]; simpl; repeat first [exact IH | adds_step]. Qed.

Lemma best_gaussian_adds (K : Kernel) (feature : string) (key_columns : list string) :
  D_adds (InPlace._get_best_gaussian_transformation K feature key_columns).
Proof.
  unfold InPlace._get_best_gaussian_transformation.
  repeat first [apply p_values_of_adds | adds_step].
Qed.

Section ReportAfterStages.
Context (K : Kernel).

(** X13.  After [_transform_var], with or without [_normalise_var], and
    [_get_best_gaussian_transformation] have returned on a table with
    distinct labels whose feature column is numeric and not negative
    (negative values give NaN variants, which this model leaves out), the
    transformation report finds every column it draws, for the flag that
    [_transform_var] returned: it returns, having saved its figure in
    [reports/transformations] and in the folder given, and changes no
    table. *)
Theorem report_finds_the_columns_of_the_stages
    (feature : string) (weight : Q) (la_keys : list string) (normalise : bool)
    (d0 td : DataFrame) (x : list Q) (g : bool) (output : string) (r : ref) (w : world) :
  NoDup (labels d0) -> wf_df d0 -> getitem feature d0 = Ok (of_float x) ->
  Forall (fun v => 0 <= v) x ->
  stages K feature weight la_keys normalise d0 = (Ok g, td) ->
  heap w !! r = Some td ->
  transformation_report output r feature normalise g w
  = (Ok tt,
     mkWorld (heap w) (next_ref w) (csv_files w)
       ([ (FigureFile, output, feature);
          (FigureFile, joinpath params.report_folder params.transformations_folder,
           feature) ] ++ written w)).
Proof.
  intros Hnd Hwf Hx _ Hst Hr. unfold stages in Hst. rewrite D_run_bind in Hst.
  destruct (InPlace._transform_var K feature d0) as [[g1|e] d1] eqn:Htv; [|discriminate].
  destruct (transform_var_inv K feature d0 x g1 d1 Hnd Hwf Hx Htv)
    as (_ & yj & bc & _ & Hbc & Ht).
  destruct Ht as (_ & Hnd1 & _ & _ & Hf & Hyj & Hsq & Hlg & Hsd & Hpos & _).
  rewrite D_run_bind in Hst.
  pose proof (normalise_var_keeps weight la_keys d1) as Hk2.
  pose proof (normalise_var_adds weight la_keys d1) as Ha2.
  set (second := if normalise then InPlace._normalise_var weight la_keys else mret tt)
    in Hst.
  assert (NoDup (labels (snd (second d1))) /\
          forall l, l ∈ labels d1 -> l ∈ labels (snd (second d1))) as [Hnd2 Hin2].
  { unfold second. destruct normalise.
    - split; [exact (proj1 (proj2 (proj2 Hk2)) Hnd1) | exact Ha2].
    - split; [exact Hnd1 | auto]. }
  destruct (second d1) as [[[]|e] d2]; [|discriminate]. simpl in Hnd2, Hin2.
  rewrite D_run_bind in Hst.
  pose proof (best_gaussian_keeps K [] feature la_keys (not_elem_of_nil _) d2) as Hk3.
  pose proof (best_gaussian_adds K feature la_keys d2) as Ha3.
  destruct (InPlace._get_best_gaussian_transformation K feature la_keys d2)
    as [[[]|e] d3]; [|discriminate].
  simpl in Hk3, Ha3. injection Hst as <- <-.
  assert (forall l s, getitem l d1 = Ok s -> exists s', getitem l d3 = Ok s') as Hfind.
  { intros l s Hl. apply getitem_nodup.
    - exact (proj1 (proj2 (proj2 Hk3)) Hnd2).
    - apply Ha3, Hin2. exact (getitem_ok_label _ _ _ Hl). }
  destruct (Hfind _ _ Hf) as [s1 H1]. destruct (Hfind _ _ Hsq) as [s2 H2].
  destruct (Hfind _ _ Hyj) as [s3 H3]. destruct (Hfind _ _ Hlg) as [s4 H4].
  destruct (Hfind _ _ Hsd) as [s5 H5].
  unfold transformation_report, mbind, M_bind, load, lift. rewrite Hr. simpl.
  rewrite H1, H2, H3, H4, H5.
  destruct g1.
  - destruct Hbc as (b & -> & _). destruct Hpos as (Hb & Hrs & Hrc).
    destruct (Hfind _ _ Hrs) as [s6 H6]. destruct (Hfind _ _ Hb) as [s7 H7].
    destruct (Hfind _ _ Hrc) as [s8 H8].
    rewrite H6, H7, H8. reflexivity.
  - reflexivity.
Qed.

End ReportAfterStages.

Lemma report_finds_the_columns_of_the_stages_witness :
  transformation_report "run/plots" 0%nat "x" true true
    (world_of (snd (stages Sample.kernel "x" 1 ["code"; "name"] true four_las)))
  = (Ok tt,
     mkWorld {[ 0%nat := snd (stages Sample.kernel "x" 1 ["code"; "name"] true four_las) ]}
       1 ∅
       ([ (FigureFile, "run/plots", "x");
          (FigureFile, joinpath params.report_folder params.transformations_folder, "x") ]
        ++ [])).
Proof.
  apply (report_finds_the_columns_of_the_stages Sample.kernel "x" 1 ["code"; "name"] true
           four_las (snd (stages Sample.kernel "x" 1 ["code"; "name"] true four_las))
           [10; 20; 30; 1000] true "run/plots" 0%nat
           (world_of (snd (stages Sample.kernel "x" 1 ["code"; "name"] true four_las)))).
  - apply (bool_decide_unpack _). vm_compute. reflexivity.
  - repeat constructor.
  - reflexivity.
  - repeat constructor; discriminate.
  - vm_compute. reflexivity.
  - reflexivity.
Defined.

(** ** The files of a whole run that returns *)

Lemma output_features_path (output name : string) :
  name = "peers.csv" \/ name = "example_peers.csv" \/ name = "distances.csv" ->
  joinpath output name <> joinpath "output" "features.csv".
Proof.
  unfold joinpath. intros [-> | [-> | ->]] H.
  - change (output +:+ "/peers.csv" = "output/fe" +:+ "atures.csv") in H.
    apply suffix_of_equal_length in H; [discriminate | reflexivity].
  - change (output +:+ "/example_peers.csv" = "o" +:+ "utput/features.csv") in H.
    apply suffix_of_equal_length in H; [discriminate | reflexivity].
  - change (output +:+ "/distances.csv" = "outpu" +:+ "t/features.csv") in H.
    apply suffix_of_equal_length in H; [discriminate | reflexivity].
Qed.

Section WholeRun.
Context (K : Kernel).

Lemma calculate_distance_inv (w w' : world) (df : ref) (output_folders : list string)
    (la_code la_name : string) (k : Z) (distance_metric : string) :
  calculate_distance K df output_folders la_code la_name k distance_metric w = (Ok tt, w') ->
  exists d output dm long rows peers ex,
    heap w !! df = Some d /\ output_folders !! 1%nat = Some output /\
    distance_matrix K d la_code la_name distance_metric = Ok dm /\
    create_pairwise_distance_df dm la_name "distance" = Ok long /\
    n_nearest_neighbours_array dm k = Ok rows /\
    frame_of_rows (peer_columns la_name k) rows = Ok peers /\
    example_rows la_name peers = Ok ex.
Proof.
  unfold calculate_distance. intros H.
  apply M_bind_ok in H as (d & w1 & Hload & H). apply load_inv in Hload as [Hd ->].
  apply M_bind_ok in H as (output & w1 & Hl & H). apply lift_ok in Hl as [Hout ->].
  destruct (output_folders !! 1%nat) as [output'|] eqn:Hsome; [|discriminate].
  injection Hout as ->.
  apply M_bind_ok in H as (dm & w1 & Hl & H). apply lift_ok in Hl as [Hdm ->].
  apply M_bind_ok in H as (long & w1 & Hl & H). apply lift_ok in Hl as [Hlong ->].
  apply M_bind_ok in H as ([] & w1 & _ & H).
  apply M_bind_ok in H as (rows & w2 & Hl & H). apply lift_ok in Hl as [Hrows ->].
  apply M_bind_ok in H as (peers & w2 & Hl & H). apply lift_ok in Hl as [Hpeers ->].
  apply M_bind_ok in H as (ex & w2 & Hl & H). apply lift_ok in Hl as [Hex ->].
  exists d, output, dm, long, rows, peers, ex. auto 10.
Qed.

(** X14.  A run of the two model calls of [main.py] that returns has written
    eight CSV files and the figures of the transformation report, in this
    order: the figures, feature by feature; [features.csv] in the output
    folder of the run and in [output]; [distances.csv] in both; and
    [peers.csv] with [example_peers.csv] in both.  [features.csv] in
    [output] holds the table the distances were computed from. *)
Theorem main_writes_all_outputs
    (la_code la_name : string) (n_la_peers : Z) (feature_weights : list (string * Q))
    (folders : list string) (w w' : world) :
  main K la_code la_name n_la_peers feature_weights folders w = (Ok tt, w') ->
  exists output features_table dm,
    folders !! 1%nat = Some output /\
    written w'
    = [ (CsvFile, "output", "example_peers.csv"); (CsvFile, "output", "peers.csv");
        (CsvFile, output, "example_peers.csv"); (CsvFile, output, "peers.csv");
        (CsvFile, "output", "distances.csv"); (CsvFile, output, "distances.csv");
        (CsvFile, "output", "features.csv"); (CsvFile, output, "features.csv") ]
      ++ report_figures folders true feature_weights ++ written w /\
    csv_files w' !! joinpath "output" "features.csv" = Some features_table /\
    distance_matrix K features_table la_code la_name "euclidean" = Ok dm /\
    (exists long, create_pairwise_distance_df dm la_name "distance" = Ok long /\
                  csv_files w' !! joinpath "output" "distances.csv" = Some long).
Proof.
  unfold main. intros H. apply M_bind_ok in H as (df & w1 & Htd & Hcd).
  destruct (transform_data_written K _ _ _ _ _ _ _ _ _ Htd)
    as (output & dout & Hout & Hdf & Hlog & _ & Hfile).
  destruct (calculate_distance_inv _ _ _ _ _ _ _ _ Hcd)
    as (d & output' & dm & long & rows & peers & ex & Hd & Hout' & Hdm & Hlong & Hrows
        & Hpeers & Hex).
  rewrite Hdf in Hd. injection Hd as <-. rewrite Hout in Hout'. injection Hout' as <-.
  rewrite (calculate_distance_run K w1 df dout folders la_code la_name n_la_peers
             "euclidean" output dm long peers ex rows Hdf Hout Hdm Hlong Hrows Hpeers Hex)
    in Hcd.
  injection Hcd as <-. simpl.
  exists output, dout, dm. split; [exact Hout|]. split; [rewrite Hlog; reflexivity|].
  split; [|split; [exact Hdm|]].
  - rewrite lookup_insert_ne by discriminate.
    rewrite lookup_insert_ne by discriminate.
    rewrite lookup_insert_ne by (apply output_features_path; auto).
    rewrite lookup_insert_ne by (apply output_features_path; auto).
    rewrite lookup_insert_ne by discriminate.
    rewrite lookup_insert_ne by (apply output_features_path; auto).
    exact Hfile.
  - exists long. split; [exact Hlong|].
    rewrite lookup_insert_ne by discriminate.
    rewrite lookup_insert_ne by discriminate.
    rewrite lookup_insert_ne by (apply output_distances_path; auto).
    rewrite lookup_insert_ne by (apply output_distances_path; auto).
    apply lookup_insert_eq.
Qed.

End WholeRun.

(** A whole run on [four_las] with two peers to find. *)
Definition whole_run : result unit * world :=
  main Sample.kernel "code" "name" 2 [("x", 1)] four_folders (world_with_input four_las).

Lemma main_writes_all_outputs_witness :
  exists output features_table dm,
    four_folders !! 1%nat = Some output /\
    written (snd whole_run)
    = [ (CsvFile, "output", "example_peers.csv"); (CsvFile, "output", "peers.csv");
        (CsvFile, output, "example_peers.csv"); (CsvFile, output, "peers.csv");
        (CsvFile, "output", "distances.csv"); (CsvFile, output, "distances.csv");
        (CsvFile, "output", "features.csv"); (CsvFile, output, "features.csv") ]
      ++ report_figures four_folders true [("x", 1)]
      ++ written (world_with_input four_las) /\
    csv_files (snd whole_run) !! joinpath "output" "features.csv" = Some features_table /\
    distance_matrix Sample.kernel features_table "code" "name" "euclidean" = Ok dm /\
    (exists long, create_pairwise_distance_df dm "name" "distance" = Ok long /\
                  csv_files (snd whole_run) !! joinpath "output" "distances.csv" = Some long).
Proof.
  apply (main_writes_all_outputs Sample.kernel "code" "name" 2 [("x", 1)] four_folders
           (world_with_input four_las) (snd whole_run)).
  vm_compute. reflexivity.
Defined.

(** The peers that run finds. *)
Example whole_run_peers :
  csv_files (snd whole_run) !! "output/peers.csv"
  = Some (mkDF 4 [ ("name", [Str "A"; Str "B"; Str "C"; Str "D"]);
                   ("1", [Str "B"; Str "C"; Str "B"; Str "C"]);
                   ("2", [Str "C"; Str "A"; Str "D"; Str "B"]) ]).
Proof. vm_compute. reflexivity. Qed.

(** * The report of [src/report.py]

    [run_report] and the three functions it calls.  What matplotlib draws
    is left out: a figure is the file it is saved to.  The frame read has
    the authority code as its index and the weighted features as columns;
    Pearson's coefficient is not rational and is a parameter, as is the
    unstable sort of [sort_values].  Where the coefficient is undefined (a
    constant column) pandas has NaN, which is above no threshold;
    [pearson] stands for a value that is not above it either. *)

Module report_params.
Definition high_corr_value : Q := 8 # 10.
End report_params.

Section Report.
Context (pearson : list Q -> list Q -> Q).
Context (sort_values_descending :
           list (string * string * Q) -> list (string * string * Q)).

(** [pd.read_csv(path, index_col=index_col, usecols=usecols)]: every name
    in [usecols] must be a column of the file; the columns kept come in the
    order of the file, and the index column is no column of the frame. *)
Definition read_csv_usecols (path index_col : string) (usecols : list string)
  : M DataFrame := fun w =>
  match csv_files w !! path with
  | None => (Raise (FileNotFoundError path), w)
  | Some d =>
      match filter (fun l => l ∉ labels d) usecols with
      | [] =>
          (Ok (mkDF (nrows d)
                    (filter (fun c => c.1 ∈ usecols /\ c.1 <> index_col) (columns d))),
           w)
      | _ :: _ => (Raise (ValueError "Usecols do not match columns"), w)
      end
  end.

(** [create_histogram] (report.py 49-58): [df.hist] needs the column, with
    numbers in it; the figure goes to the report folder and to [output]. *)
Definition create_histogram (output : string) (df : DataFrame) (col fig_name : string)
  : M unit :=
  s ← lift (getitem col df);
  lift (match as_float s with
        | Ok _ => Ok tt
        | Raise _ =>
            Raise (ValueError "hist method requires numerical or datetime columns")
        end);;
  for_each [params.report_folder; output] (fun path => savefig path fig_name).

(** [df.corr()]: the coefficient of every column with every column, with
    the labels of both. *)
Definition corr (df : DataFrame) : result (list (string * list (string * Q))) :=
  cols ← mapM (M := result)
              (fun c : string * series => x ← as_float c.2; Ok (c.1, x)) (columns df);
  Ok (map (fun c : string * list Q =>
             (c.1, map (fun c' : string * list Q => (c'.1, pearson c.2 c'.2)) cols))
          cols).

(** [create_corrplot] (report.py 93-129) *)
Definition create_corrplot (output : string) (df : DataFrame) (symmetrical : bool)
  : M (list (string * list (string * Q))) :=
  c ← lift (corr df);
  let title_string := "corr_matrix_plot" +:+ (if symmetrical then "_sym" else EmptyString) in
  for_each [params.report_folder; output] (fun path => savefig path title_string);;
  mret c.

(** [corr.abs().stack().reset_index()] with the columns named [Var 1],
    [Var 2] and [Corr]. *)
Definition stacked (c : list (string * list (string * Q))) : list (string * string * Q) :=
  row ← c; e ← row.2; [(row.1, e.1, Qabs e.2)].

(** Two rows hold the same [frozenset] of variables. *)
Definition same_frozenset (r r' : string * string * Q) : bool :=
  bool_decide (r.1.1 ∈ [r'.1.1; r'.1.2] /\ r.1.2 ∈ [r'.1.1; r'.1.2] /\
               r'.1.1 ∈ [r.1.1; r.1.2] /\ r'.1.2 ∈ [r.1.1; r.1.2]).

(** [corr[~mask_dupes]]: a row goes when an earlier row holds the same
    frozenset, or when its two variables are the same. *)
Fixpoint without_dupes (earlier rows : list (string * string * Q))
  : list (string * string * Q) :=
  match rows with
  | [] => []
  | r :: rest =>
      let mask_dupes :=
        existsb (same_frozenset r) earlier || bool_decide (r.1.1 = r.1.2) in
      (if mask_dupes then [] else [r]) ++ without_dupes (earlier ++ [r]) rest
  end.

(** [show_high_correlation] (report.py 200-238), without what it prints. *)
Definition show_high_correlation (output : string) (df : DataFrame)
    (c : list (string * list (string * Q))) (high_value : Q) : M unit :=
  let c := without_dupes [] (stacked c) in
  let high_corr :=
    sort_values_descending (filter (fun r => Qltb high_value r.2 = true) c) in
  for_each high_corr (fun row =>
    lift (getitem row.1.1 df);;
    lift (getitem row.1.2 df);;
    for_each [params.report_folder; output]
      (fun path => savefig path (row.1.1 +:+ "_" +:+ row.1.2 +:+ "_Corr"))).

(** [run_report] (report.py 262-300) *)
Definition run_report (la_code : string) (output_folders : list string)
    (features : list (string * Q)) : M unit :=
  OUT_REPORTS ← lift (of_option (output_folders !! 2%nat)
                                (IndexError "list index out of range"));
  let features := map fst (filter (fun item => Qltb 0 item.2 = true) features) in
  df ← read_csv_usecols (joinpath INPUT_PATH params.aggregated_file) la_code
                        (la_code :: features);
  for_each features (fun feature =>
    create_histogram OUT_REPORTS df feature (feature +:+ "_histogram.png"));;
  create_corrplot OUT_REPORTS df true;;
  correlations ← create_corrplot OUT_REPORTS df false;
  show_high_correlation OUT_REPORTS df correlations report_params.high_corr_value.

End Report.

(** ** The pairs of variables that [show_high_correlation] keeps *)

Lemma without_dupes_app (earlier l1 l2 : list (string * string * Q)) :
  without_dupes earlier (l1 ++ l2)
  = without_dupes earlier l1 ++ without_dupes (earlier ++ l1) l2.
Proof.
  revert earlier. induction l1 as [|r l1 IH]; intros earlier; simpl.
  - rewrite app_nil_r. reflexivity.
  - rewrite IH, <- !app_assoc. reflexivity.
Qed.

Lemma without_dupes_all_masked (earlier l : list (string * string * Q)) :
  Forall (fun r => r.1.1 = r.1.2 \/ exists r', r' ∈ earlier /\ same_frozenset r r' = true) l ->
  without_dupes earlier l = [].
Proof.
  revert earlier. induction l as [|r l IH]; intros earlier Hall; [reflexivity|].
  apply Forall_cons in Hall as [Hr Hall]. simpl.
  assert (existsb (same_frozenset r) earlier || bool_decide (r.1.1 = r.1.2) = true) as ->.
  { apply orb_true_iff. destruct Hr as [Heq | (r' & Hin & Hsame)].
    - right. apply bool_decide_eq_true. exact Heq.
    - left. apply existsb_exists. exists r'. split; [apply list_elem_of_In; exact Hin|].
      exact Hsame. }
  apply IH. eapply Forall_impl; [exact Hall|]. intros r0 [H|(r' & Hin & Hsame)].
  - left. exact H.
  - right. exists r'. split; [apply elem_of_app; left; exact Hin | exact Hsame].
Qed.

Lemma without_dupes_none_masked (earlier l : list (string * string * Q)) :
  Forall (fun r => r.1.1 <> r.1.2) l ->
  Forall (fun r => forall r', r' ∈ earlier -> same_frozenset r r' = false) l ->
  StronglySorted (fun r' r => same_frozenset r r' = false) l ->
  without_dupes earlier l = l.
Proof.
  revert earlier. induction l as [|r l IH]; intros earlier Hne Hearlier Hs; [reflexivity|].
  apply Forall_cons in Hne as [Hr Hne]. apply Forall_cons in Hearlier as [Hre Hearlier].
  apply StronglySorted_inv in Hs as [Hs Hrl]. simpl.
  assert (existsb (same_frozenset r) earlier || bool_decide (r.1.1 = r.1.2) = false) as ->.
  { apply orb_false_iff. split.
    - destruct (existsb (same_frozenset r) earlier) eqn:E; [|reflexivity].
      apply existsb_exists in E as (r' & Hin & Hsame).
      rewrite (Hre r') in Hsame; [discriminate | apply list_elem_of_In; exact Hin].
    - apply bool_decide_eq_false. exact Hr. }
  simpl. f_equal. apply IH; [exact Hne | | exact Hs].
  rewrite Forall_forall in Hearlier, Hrl |- *. intros r0 Hr0 r' Hr'.
  apply elem_of_app in Hr' as [Hr'|Hr']; [exact (Hearlier r0 Hr0 r' Hr')|].
  apply list_elem_of_singleton in Hr'. subst r'. exact (Hrl r0 Hr0).
Qed.

Lemma same_frozenset_swap (a b : string) (p q : Q) :
  same_frozenset (a, b, p) (b, a, q) = true.
Proof.
  apply bool_decide_eq_true. simpl.
  repeat split; first [left; reflexivity | right; left; reflexivity].
Qed.

Lemma same_frozenset_other (a b x y : string) (p q : Q) :
  x ∉ [a; b] \/ y ∉ [a; b] -> same_frozenset (a, b, p) (x, y, q) = false.
Proof.
  intros H. apply bool_decide_eq_false. simpl. intros (_ & _ & Hx & Hy).
  destruct H as [H|H]; contradiction.
Qed.

Lemma same_frozenset_one_other (a b y : string) (p q : Q) :
  y <> b -> a <> b -> same_frozenset (a, b, p) (a, y, q) = false.
Proof.
  intros Hy Hab. apply bool_decide_eq_false. simpl. intros (_ & Hb & _ & _).
  apply elem_of_cons in Hb as [Hb|Hb]; [congruence|].
  apply list_elem_of_singleton in Hb. congruence.
Qed.

Section KeptPairs.
Context (pearson : list Q -> list Q -> Q).

(** The row of the stacked matrix for the columns [c] and [c']. *)
Definition corr_row (c c' : string * list Q) : string * string * Q :=
  (c.1, c'.1, Qabs (pearson c.2 c'.2)).

(** Each column with each later column, in the order of the columns. *)
Fixpoint ordered_pairs (cols : list (string * list Q)) : list (string * string * Q) :=
  match cols with
  | [] => []
  | c :: rest => map (corr_row c) rest ++ ordered_pairs rest
  end.

Definition blocks (cols part : list (string * list Q)) : list (string * string * Q) :=
  c ← part; map (corr_row c) cols.

Lemma stacked_matrix (cols : list (string * list Q)) :
  stacked (map (fun c : string * list Q =>
                  (c.1, map (fun c' : string * list Q => (c'.1, pearson c.2 c'.2)) cols))
               cols)
  = blocks cols cols.
Proof.
  assert (forall part,
            stacked (map (fun c : string * list Q =>
                            (c.1, map (fun c' : string * list Q =>
                                         (c'.1, pearson c.2 c'.2)) cols)) part)
            = blocks cols part) as Hgen; [|apply Hgen].
  unfold stacked, blocks.
  induction part as [|c part IH]; [reflexivity|].
  change (map ?f (c :: part)) with (f c :: map f part).
  rewrite !bind_cons, IH. f_equal. simpl.
  clear. induction cols as [|c' cols IH]; [reflexivity|].
  change (map ?f (c' :: cols)) with (f c' :: map f cols).
  rewrite bind_cons, IH. reflexivity.
Qed.

Lemma elem_of_blocks (cols part : list (string * list Q)) (r : string * string * Q) :
  r ∈ blocks cols part -> exists d c, d ∈ part /\ c ∈ cols /\ r = corr_row d c.
Proof.
  unfold blocks. intros H. apply list_elem_of_bind in H as (d & Hr & Hd).
  apply list_elem_of_fmap in Hr as (c & -> & Hc). eauto.
Qed.

Lemma block_kept (done rest : list (string * list Q)) (c : string * list Q) :
  NoDup (map fst (done ++ c :: rest)) ->
  without_dupes (blocks (done ++ c :: rest) done) (map (corr_row c) (done ++ c :: rest))
  = map (corr_row c) rest.
Proof.
  intros Hnd. set (cols := done ++ c :: rest).
  rewrite map_app in Hnd. simpl in Hnd.
  apply NoDup_app in Hnd as (_ & Hdisj & Hnd). apply NoDup_cons in Hnd as [Hc Hnd].
  assert (forall d, d ∈ done -> d.1 <> c.1) as Hdc.
  { intros d Hd Heq. apply (Hdisj d.1); [apply (list_elem_of_fmap_2 fst); exact Hd|].
    rewrite Heq. left. }
  assert (forall d r, d ∈ done -> r ∈ rest -> d.1 <> r.1) as Hdr.
  { intros d r Hd Hr Heq. apply (Hdisj d.1); [apply (list_elem_of_fmap_2 fst); exact Hd|].
    rewrite Heq. right. apply (list_elem_of_fmap_2 fst). exact Hr. }
  assert (forall r, r ∈ rest -> c.1 <> r.1) as Hcr.
  { intros r Hr Heq. apply Hc. rewrite Heq. apply (list_elem_of_fmap_2 fst). exact Hr. }
  unfold cols at 2. rewrite map_app. change (map (corr_row c) (c :: rest))
    with ([corr_row c c] ++ map (corr_row c) rest).
  rewrite !without_dupes_app.
  rewrite (without_dupes_all_masked _ (map (corr_row c) done)).
  2:{ apply Forall_fmap, Forall_forall. intros d Hd. right.
      exists (corr_row d c). split; [|apply same_frozenset_swap].
      unfold blocks. apply list_elem_of_bind. exists d. split; [|exact Hd].
      apply (list_elem_of_fmap_2 (corr_row d)). unfold cols.
      apply elem_of_app. right. left. }
  rewrite (without_dupes_all_masked _ [corr_row c c]).
  2:{ constructor; [left; reflexivity | constructor]. }
  simpl. apply without_dupes_none_masked.
  - apply Forall_fmap, Forall_forall. intros r Hr. exact (Hcr r Hr).
  - apply Forall_fmap, Forall_forall. intros r Hr r0 Hr0. simpl.
    apply elem_of_app in Hr0 as [Hr0|Hr0]; [apply elem_of_app in Hr0 as [Hr0|Hr0]|].
    + apply elem_of_blocks in Hr0 as (d & c' & Hd & _ & ->).
      apply same_frozenset_other. left. intros H.
      apply elem_of_cons in H as [H|H]; [exact (Hdc d Hd H)|].
      apply list_elem_of_singleton in H. exact (Hdr d r Hd Hr H).
    + apply list_elem_of_fmap in Hr0 as (d & -> & Hd).
      apply same_frozenset_other. right. intros H.
      apply elem_of_cons in H as [H|H]; [exact (Hdc d Hd H)|].
      apply list_elem_of_singleton in H. exact (Hdr d r Hd Hr H).
    + apply list_elem_of_singleton in Hr0. subst r0.
      apply same_frozenset_one_other; [|exact (Hcr r Hr)].
      exact (Hcr r Hr).
  - clear -Hnd Hcr. induction rest as [|r rest IH]; [constructor|].
    apply NoDup_cons in Hnd as [Hr Hnd]. simpl. constructor.
    + apply IH; [exact Hnd|]. intros r' Hr'. apply Hcr. right. exact Hr'.
    + apply Forall_fmap, Forall_forall. intros r' Hr'. simpl.
      apply same_frozenset_one_other; [|apply Hcr; right; exact Hr'].
      intros Heq. apply Hr. rewrite Heq. apply (list_elem_of_fmap_2 fst). exact Hr'.
Qed.

(** With distinct labels, what is left of the stacked matrix is each
    column paired with each later column. *)
Lemma kept_pairs (cols : list (string * list Q)) :
  NoDup (map fst cols) -> without_dupes [] (blocks cols cols) = ordered_pairs cols.
Proof.
  assert (forall rest done,
            NoDup (map fst (done ++ rest)) ->
            without_dupes (blocks (done ++ rest) done) (blocks (done ++ rest) rest)
            = ordered_pairs rest) as Hgen.
  { induction rest as [|c rest IH]; intros done Hnd; [reflexivity|].
    unfold blocks at 2. rewrite bind_cons. fold (blocks (done ++ c :: rest) rest).
    rewrite without_dupes_app, (block_kept done rest c Hnd). simpl. f_equal.
    replace (blocks (done ++ c :: rest) done ++ map (corr_row c) (done ++ c :: rest))
      with (blocks (done ++ c :: rest) (done ++ [c]))
      by (unfold blocks; rewrite bind_app, bind_singleton; reflexivity).
    replace (done ++ c :: rest) with ((done ++ [c]) ++ rest) in *
      by (rewrite <- app_assoc; reflexivity).
    apply IH. exact Hnd. }
  intros Hnd. exact (Hgen cols [] Hnd).
Qed.

End KeptPairs.

(** ** The figures of [run_report] *)

(** A figure saved in the report folder and then in [output]. *)
Definition saved_twice (output name : string) : list log_entry :=
  [ (FigureFile, params.report_folder, name); (FigureFile, output, name) ].

Definition with_files (new : list log_entry) (w : world) : world :=
  mkWorld (heap w) (next_ref w) (csv_files w) (rev new ++ written w).

Lemma with_files_nil (w : world) : with_files [] w = w.
Proof. destruct w. reflexivity. Qed.

Lemma with_files_app (n1 n2 : list log_entry) (w : world) :
  with_files n2 (with_files n1 w) = with_files (n1 ++ n2) w.
Proof. unfold with_files. simpl. rewrite rev_app_distr, app_assoc. reflexivity. Qed.

Lemma savefig_twice (output name : string) (w : world) :
  for_each (M := M) [params.report_folder; output] (fun path => savefig path name) w
  = (Ok tt, with_files (saved_twice output name) w).
Proof. reflexivity. Qed.

Lemma find_columns_filter (P : string * series -> Prop) `{forall c, Decision (P c)}
    (l : string) (cs : list (string * series)) :
  (forall c, c.1 = l -> P c) -> find_columns l (filter P cs) = find_columns l cs.
Proof.
  intros Hl. induction cs as [|c cs IH]; [reflexivity|].
  rewrite filter_cons. destruct (decide (P c)) as [Hc|Hc].
  - rewrite !find_columns_cons, IH. reflexivity.
  - rewrite find_columns_cons, IH, decide_False; [reflexivity|].
    intros Heq. apply Hc. exact (Hl c Heq).
Qed.

Section ReportRuns.
Context (pearson : list Q -> list Q -> Q).
Context (sort_values_descending :
           list (string * string * Q) -> list (string * string * Q)).

Lemma histograms_saved (output : string) (df : DataFrame) (features : list string) :
  (forall f, f ∈ features -> exists x, getitem f df = Ok (of_float x)) ->
  forall w,
    for_each features
      (fun feature => create_histogram output df feature (feature +:+ "_histogram.png")) w
    = (Ok tt,
       with_files (f ← features; saved_twice output (f +:+ "_histogram.png")) w).
Proof.
  induction features as [|f features IH]; intros Hnum w.
  - simpl. rewrite with_files_nil. reflexivity.
  - destruct (Hnum f) as [x Hx]; [left|].
    cbn [for_each]. rewrite M_run_bind. unfold create_histogram at 1.
    rewrite M_run_bind, M_run_lift, Hx.
    rewrite M_run_bind, M_run_lift, as_float_of_float.
    rewrite savefig_twice, IH by (intros f' Hf'; apply Hnum; right; exact Hf').
    rewrite with_files_app, bind_cons. reflexivity.
Qed.

Lemma scatters_saved (output : string) (df : DataFrame)
    (rows : list (string * string * Q)) :
  (forall r, r ∈ rows ->
     (exists s, getitem r.1.1 df = Ok s) /\ (exists s, getitem r.1.2 df = Ok s)) ->
  forall w,
    for_each rows (fun row =>
      lift (getitem row.1.1 df);;
      lift (getitem row.1.2 df);;
      for_each [params.report_folder; output]
        (fun path => savefig path (row.1.1 +:+ "_" +:+ row.1.2 +:+ "_Corr"))) w
    = (Ok tt,
       with_files (r ← rows; saved_twice output (r.1.1 +:+ "_" +:+ r.1.2 +:+ "_Corr")) w).
Proof.
  set (body := fun row : string * string * Q =>
         lift (getitem row.1.1 df);;
         lift (getitem row.1.2 df);;
         for_each (M := M) [params.report_folder; output]
           (fun path => savefig path (row.1.1 +:+ "_" +:+ row.1.2 +:+ "_Corr"))).
  induction rows as [|r rows IH]; intros Hcols w.
  - simpl. rewrite with_files_nil. reflexivity.
  - destruct (Hcols r) as [[s1 H1] [s2 H2]]; [left|].
    cbn [for_each]. rewrite M_run_bind. unfold body at 1.
    rewrite M_run_bind, M_run_lift, H1. rewrite M_run_bind, M_run_lift, H2.
    rewrite savefig_twice, IH by (intros r' Hr'; apply Hcols; right; exact Hr').
    rewrite with_files_app, bind_cons. reflexivity.
Qed.

Lemma elem_of_ordered_pairs (cols : list (string * list Q)) (r : string * string * Q) :
  r ∈ ordered_pairs pearson cols -> r.1.1 ∈ map fst cols /\ r.1.2 ∈ map fst cols.
Proof.
  induction cols as [|c cols IH]; simpl; [inversion 1|].
  intros H. apply elem_of_app in H as [H|H].
  - apply list_elem_of_fmap in H as (c' & -> & Hc'). simpl. split; [left|].
    right. apply (list_elem_of_fmap_2 fst). exact Hc'.
  - destruct (IH H) as [H1 H2]. split; right; assumption.
Qed.

Lemma numeric_columns (cs : list (string * series)) :
  Forall (fun c => exists x, c.2 = of_float x) cs ->
  exists cols,
    mapM (M := result) (fun c : string * series => x ← as_float c.2; Ok (c.1, x)) cs
    = Ok cols /\
    map (fun c : string * list Q => (c.1, of_float c.2)) cols = cs.
Proof.
  induction 1 as [|[l s] cs [x Hx] _ (cols & Hcols & Hmap)].
  - exists []. split; reflexivity.
  - simpl in Hx. subst s. exists ((l, x) :: cols). split.
    + simpl. rewrite as_float_of_float. simpl. rewrite Hcols. reflexivity.
    + simpl. rewrite Hmap. reflexivity.
Qed.

(** X15.  Let the aggregated file have rows and distinct labels, the authority
    code among them, and a numeric column for every feature of positive
    weight, of which there is at least one; the features are the keys of a
    dict, so each is listed once.  Then [run_report] returns, changes no
    table and no CSV file, and has saved, each in [reports] and in the third
    folder of the run and in this order: a histogram for each feature of
    positive weight, in the order of the features; the two correlation
    plots; and a scatter plot for each pair of weighted columns, the earlier
    in the file first, whose absolute coefficient is above 0.8, in the
    order of the sort.  A feature of weight zero or less is not read. *)
Theorem run_report_saves_its_figures
    (la_code : string) (output_folders : list string) (features : list (string * Q))
    (w : world) (d : DataFrame) (output : string) :
  (forall l, sort_values_descending l ≡ₚ l) ->
  csv_files w !! joinpath INPUT_PATH params.aggregated_file = Some d ->
  wf_df d -> nrows d <> 0%nat -> NoDup (labels d) -> la_code ∈ labels d ->
  NoDup (map fst features) ->
  output_folders !! 2%nat = Some output ->
  map fst (filter (fun item : string * Q => Qltb 0 item.2 = true) features) <> [] ->
  (forall f, f ∈ map fst (filter (fun item : string * Q => Qltb 0 item.2 = true) features) ->
     f <> la_code /\ exists x, getitem f d = Ok (of_float x)) ->
  let wanted := map fst (filter (fun item : string * Q => Qltb 0 item.2 = true) features) in
  exists cols,
    map (fun c : string * list Q => (c.1, of_float c.2)) cols
    = filter (fun c => c.1 ∈ wanted) (columns d) /\
    run_report pearson sort_values_descending la_code output_folders features w
    = (Ok tt,
       with_files
         ((f ← wanted; saved_twice output (f +:+ "_histogram.png"))
          ++ saved_twice output "corr_matrix_plot_sym"
          ++ saved_twice output "corr_matrix_plot"
          ++ (r ← sort_values_descending
                    (filter (fun r => Qltb report_params.high_corr_value r.2 = true)
                            (ordered_pairs pearson cols));
              saved_twice output (r.1.1 +:+ "_" +:+ r.1.2 +:+ "_Corr")))
         w).
Proof.
  intros Hsort Hfile _ _ Hnd Hcode _ Hout _ Hwanted wanted.
  set (sel := filter (fun c : string * series =>
                        c.1 ∈ la_code :: wanted /\ c.1 <> la_code) (columns d)).
  assert (sel = filter (fun c => c.1 ∈ wanted) (columns d)) as Hsel.
  { unfold sel. apply list_filter_iff. intros c. split.
    - intros [Hin Hne]. apply elem_of_cons in Hin as [Hin|Hin]; [contradiction | exact Hin].
    - intros Hin. split; [right; exact Hin | exact (proj1 (Hwanted _ Hin))]. }
  assert (Forall (fun c : string * series => exists x, c.2 = of_float x) sel) as Hnum.
  { apply Forall_forall. intros [l s] Hc. rewrite Hsel in Hc.
    apply list_elem_of_filter in Hc as [Hl Hc]. simpl in Hl |- *.
    destruct (Hwanted l Hl) as [_ [x Hx]]. exists x.
    pose proof (in_columns_getitem _ _ _ Hnd Hc) as Hs. congruence. }
  destruct (numeric_columns sel Hnum) as (cols & Hcols & Hmap).
  exists cols. split; [rewrite Hmap; exact Hsel|].
  set (df := mkDF (nrows d) sel).
  assert (NoDup (labels df)) as Hnd_df.
  { unfold df, labels. simpl. apply (sublist_NoDup _ (map fst (columns d))); [exact Hnd|].
    apply fmap_sublist, sublist_filter. }
  assert (map fst cols = labels df) as Hlabels.
  { unfold df, labels. simpl. rewrite <- Hmap, <- list_fmap_compose. reflexivity. }
  assert (forall f, f ∈ wanted -> exists x, getitem f df = Ok (of_float x)) as Hget.
  { intros f Hf. destruct (Hwanted f Hf) as [Hne [x Hx]]. exists x.
    unfold getitem, df. cbn [columns].
    assert (find_columns f sel = find_columns f (columns d)) as ->; [|exact Hx].
    unfold sel. apply find_columns_filter. intros c ->.
    split; [right; exact Hf | exact Hne]. }
  unfold run_report. fold wanted.
  rewrite M_run_bind, M_run_lift, Hout. cbn [of_option]. cbv beta iota.
  rewrite M_run_bind. unfold read_csv_usecols at 1. rewrite Hfile.
  rewrite (filter_none (fun l => l ∉ labels d) (la_code :: wanted)).
  2:{ intros l Hl Hmiss. apply Hmiss. apply elem_of_cons in Hl as [->|Hl]; [exact Hcode|].
      destruct (Hwanted l Hl) as [_ [x Hx]]. exact (getitem_ok_label _ _ _ Hx). }
  fold sel. fold df.
  rewrite M_run_bind, (histograms_saved output df wanted Hget).
  assert (corr pearson df
          = Ok (map (fun c : string * list Q =>
                       (c.1, map (fun c' : string * list Q => (c'.1, pearson c.2 c'.2)) cols))
                    cols)) as Hcorr.
  { unfold corr, df. simpl. rewrite Hcols. reflexivity. }
  rewrite M_run_bind. unfold create_corrplot at 1.
  rewrite M_run_bind, M_run_lift, Hcorr. rewrite M_run_bind, savefig_twice, M_run_ret.
  rewrite M_run_bind. unfold create_corrplot at 1.
  rewrite M_run_bind, M_run_lift, Hcorr. rewrite M_run_bind, savefig_twice, M_run_ret.
  unfold show_high_correlation.
  rewrite stacked_matrix, kept_pairs by (rewrite Hlabels; exact Hnd_df).
  rewrite scatters_saved.
  - rewrite !with_files_app, <- ?app_assoc. reflexivity.
  - intros r Hr. rewrite Hsort in Hr. apply list_elem_of_filter in Hr as [_ Hr].
    apply elem_of_ordered_pairs in Hr as [H1 H2]. rewrite Hlabels in H1, H2.
    split; apply getitem_nodup; assumption.
Qed.

End ReportRuns.

Section ReportRefusals.
Context (pearson : list Q -> list Q -> Q).
Context (sort_values_descending :
           list (string * string * Q) -> list (string * string * Q)).

(** X16.  [run_report] raises before it saves anything when the folder list has
    no third entry, when the aggregated file is missing, or when the file
    lacks the authority code or a feature of positive weight. *)
Theorem run_report_raises_before_any_figure
    (la_code : string) (output_folders : list string) (features : list (string * Q))
    (w : world) :
  (output_folders !! 2%nat = None \/
   csv_files w !! joinpath INPUT_PATH params.aggregated_file = None \/
   exists d, csv_files w !! joinpath INPUT_PATH params.aggregated_file = Some d /\
     exists l, l ∈ la_code :: map fst (filter (fun item : string * Q => Qltb 0 item.2 = true)
                                              features)
               /\ l ∉ labels d) ->
  exists e,
    run_report pearson sort_values_descending la_code output_folders features w
    = (Raise e, w).
Proof.
  intros Hbad. unfold run_report. rewrite M_run_bind, M_run_lift.
  destruct (output_folders !! 2%nat) as [output|]; [|eauto].
  cbn [of_option]. cbv beta iota. rewrite M_run_bind. unfold read_csv_usecols at 1.
  destruct Hbad as [Hbad | [Hnone | (d & Hfile & l & Hl & Hmiss)]]; [discriminate | |].
  - rewrite Hnone. eauto.
  - rewrite Hfile.
    destruct (filter (fun l0 => l0 ∉ labels d) _) as [|l0 ls] eqn:Hfilter; [|eauto].
    exfalso. assert (l ∈ @nil string) as Hin; [|inversion Hin].
    rewrite <- Hfilter. apply list_elem_of_filter. split; assumption.
Qed.

End ReportRefusals.

(** ** A report on concrete columns *)

Module SampleReport.

(** A rational stand-in for Pearson's coefficient: its square with its
    sign, zero when a column is constant. *)
Definition pearson_standin (x y : list Q) : Q :=
  let mx := Sample.mean x in
  let my := Sample.mean y in
  let cov := Sample.sum (zip_with (fun a b => (a - mx) * (b - my)) x y) in
  let vx := Sample.sum (map (fun a => (a - mx) * (a - mx)) x) in
  let vy := Sample.sum (map (fun b => (b - my) * (b - my)) y) in
  if Qeq_bool (vx * vy) 0 then 0
  else Qred ((if Qle_bool 0 cov then 1 else -1) * (cov * cov) / (vx * vy)).

Definition sort_values_descending (rows : list (string * string * Q))
  : list (string * string * Q) :=
  stable_sort (fun a b : string * string * Q => Qle_bool b.2 a.2) rows.

Definition correlated_las : DataFrame :=
  mkDF 4 [ ("code", [Str "E1"; Str "E2"; Str "E3"; Str "E4"]);
           ("name", [Str "A"; Str "B"; Str "C"; Str "D"]);
           ("x", [Num 1; Num 2; Num 3; Num 4]);
           ("y", [Num 1; Num 5; Num 2; Num 4]);
           ("z", [Num 2; Num 4; Num 6; Num 9]) ].

End SampleReport.

Lemma run_report_saves_its_figures_witness :
  let wanted := map fst (filter (fun item : string * Q => Qltb 0 item.2 = true)
                                [("z", 1); ("y", 0); ("x", 2)]) in
  exists cols,
    map (fun c : string * list Q => (c.1, of_float c.2)) cols
    = filter (fun c => c.1 ∈ wanted) (columns SampleReport.correlated_las) /\
    run_report SampleReport.pearson_standin SampleReport.sort_values_descending
               "code" four_folders [("z", 1); ("y", 0); ("x", 2)]
               (world_with_input SampleReport.correlated_las)
    = (Ok tt,
       with_files
         ((f ← wanted; saved_twice "run/report" (f +:+ "_histogram.png"))
          ++ saved_twice "run/report" "corr_matrix_plot_sym"
          ++ saved_twice "run/report" "corr_matrix_plot"
          ++ (r ← SampleReport.sort_values_descending
                    (filter (fun r => Qltb report_params.high_corr_value r.2 = true)
                            (ordered_pairs SampleReport.pearson_standin cols));
              saved_twice "run/report" (r.1.1 +:+ "_" +:+ r.1.2 +:+ "_Corr")))
         (world_with_input SampleReport.correlated_las)).
Proof.
  apply (run_report_saves_its_figures SampleReport.pearson_standin
           SampleReport.sort_values_descending "code" four_folders
           [("z", 1); ("y", 0); ("x", 2)] (world_with_input SampleReport.correlated_las)
           SampleReport.correlated_las "run/report").
  - intros l. apply stable_sort_perm.
  - vm_compute. reflexivity.
  - repeat constructor.
  - discriminate.
  - nodup_compute.
  - left.
  - nodup_compute.
  - reflexivity.
  - discriminate.
  - intros f Hf. vm_compute in Hf. elem_cases Hf; subst f.
    + split; [discriminate|]. exists [2; 4; 6; 9]. reflexivity.
    + split; [discriminate|]. exists [1; 2; 3; 4]. reflexivity.
Defined.

(** The figures of that run, the most recent first: the scatter plot is
    named [x_z_Corr], by the order of the columns in the file, whatever the
    order of the features; [y] has weight zero and no figure. *)
Example report_on_correlated_las :
  written (snd (run_report SampleReport.pearson_standin
                  SampleReport.sort_values_descending "code" four_folders
                  [("z", 1); ("y", 0); ("x", 2)]
                  (world_with_input SampleReport.correlated_las)))
  = [ (FigureFile, "run/report", "x_z_Corr"); (FigureFile, "reports", "x_z_Corr");
      (FigureFile, "run/report", "corr_matrix_plot");
      (FigureFile, "reports", "corr_matrix_plot");
      (FigureFile, "run/report", "corr_matrix_plot_sym");
      (FigureFile, "reports", "corr_matrix_plot_sym");
      (FigureFile, "run/report", "x_histogram.png");
      (FigureFile, "reports", "x_histogram.png");
      (FigureFile, "run/report", "z_histogram.png");
      (FigureFile, "reports", "z_histogram.png") ].
Proof. vm_compute. reflexivity. Qed.

Lemma run_report_raises_before_any_figure_witness :
  exists e,
    run_report SampleReport.pearson_standin SampleReport.sort_values_descending
               "code" four_folders [("x", 1); ("w", 1)]
               (world_with_input SampleReport.correlated_las)
    = (Raise e, world_with_input SampleReport.correlated_las).
Proof.
  apply (run_report_raises_before_any_figure SampleReport.pearson_standin
           SampleReport.sort_values_descending "code" four_folders [("x", 1); ("w", 1)]
           (world_with_input SampleReport.correlated_las)).
  right. right. exists SampleReport.correlated_las. split; [vm_compute; reflexivity|].
  exists "w". split.
  - vm_compute. right. right. left.
  - apply (bool_decide_unpack _). vm_compute. reflexivity.
Defined.

(** * The checks of [src/utils.py]

    [check_file_for_duplicates] and [check_121_mappings] look at one or two
    columns of a table and raise [ValueError] when the file is not fit for
    the pipeline.  Two cells hold the same value when [cell_eqb] says
    so. *)

Module utils.

Definition newline : string := String (ascii_of_nat 10) EmptyString.

(** [s.duplicated()]: a row is marked when a row before it holds the same
    value. *)
Fixpoint duplicated (earlier s : series) : list bool :=
  match s with
  | [] => []
  | c :: rest => existsb (cell_eqb c) earlier :: duplicated (c :: earlier) rest
  end.

(** [check_file_for_duplicates] (utils.py 212-218) *)
Definition check_file_for_duplicates (df : DataFrame) (file_name col : string)
  : result unit :=
  s ← getitem col df;
  if existsb id (duplicated [] s) then
    Raise (ValueError ("Your dataset: " +:+ file_name +:+ " contains duplicate " +:+ col
                       +:+ " values. " +:+ newline +:+ newline
                       +:+ "            This pipeline requires distinct " +:+ col
                       +:+ " values."))
  else Ok tt.

(** [pd.unique]: the values of [s] not in [seen], each once. *)
Fixpoint unique (seen s : series) : series :=
  match s with
  | [] => []
  | c :: rest =>
      if existsb (cell_eqb c) seen then unique seen rest else c :: unique (c :: seen) rest
  end.

(** The rows of [right] in the group of [key]. *)
Definition group (left right : series) (key : cell) : series :=
  map snd (filter (fun p : cell * cell => cell_eqb p.1 key = true) (zip left right)).

(** [df.groupby(left)[right].nunique()], a count for each value of [left];
    pandas sorts the groups, which the maximum does not see. *)
Definition nunique_by_group (left right : series) : list nat :=
  map (fun key => length (unique [] (group left right key))) (unique [] left).

(** [int(counts.max())]: the maximum of no count is NaN, which [int]
    refuses. *)
Definition int_max (counts : list nat) : result nat :=
  match counts with
  | [] => Raise (ValueError "cannot convert float NaN to integer")
  | c :: cs => Ok (foldr Nat.max c cs)
  end.

(** [check_121_mappings] (utils.py 243-253) *)
Definition check_121_mappings (df : DataFrame) (file_name left_field right_field : string)
  : result unit :=
  left ← getitem left_field df;
  right ← getitem right_field df;
  max_mapping ← int_max (nunique_by_group left right);
  if (1 <? max_mapping)%nat then
    Raise (ValueError ("Your dataset: " +:+ file_name +:+ " contains incorrect mappings. "
                       +:+ newline +:+ newline
                       +:+ "             It contains multiple " +:+ right_field
                       +:+ " values for each " +:+ left_field +:+ ". " +:+ newline +:+ newline
                       +:+ "            This pipeline requires 1 " +:+ right_field
                       +:+ " for each " +:+ left_field))
  else Ok tt.

End utils.

(** No two rows of [s] hold the same value. *)
Definition distinct_cells (s : series) : Prop :=
  forall i j a b, s !! i = Some a -> s !! j = Some b -> cell_eqb a b = true -> i = j.

(** Rows that agree on [left] agree on [right]. *)
Definition maps_to_one (left right : series) : Prop :=
  forall i j a a' b b',
    left !! i = Some a -> left !! j = Some a' ->
    right !! i = Some b -> right !! j = Some b' ->
    cell_eqb a a' = true -> cell_eqb b b' = true.

Lemma cell_eqb_sym (a b : cell) : cell_eqb a b = cell_eqb b a.
Proof.
  destruct a as [s|p], b as [t|q]; simpl; try reflexivity.
  - apply bool_decide_ext. split; congruence.
  - destruct (Qeq_bool p q) eqn:E.
    + symmetry. apply Qeq_bool_iff. symmetry. apply Qeq_bool_iff, E.
    + destruct (Qeq_bool q p) eqn:E'; [|reflexivity].
      apply Qeq_bool_iff in E'. symmetry in E'. apply Qeq_bool_iff in E'. congruence.
Qed.

Lemma cell_eqb_trans (a b c : cell) :
  cell_eqb a b = true -> cell_eqb b c = true -> cell_eqb a c = true.
Proof.
  destruct a as [s|p], b as [t|q], c as [u|r]; simpl; try discriminate.
  - intros H1 H2. apply bool_decide_eq_true in H1, H2. apply bool_decide_eq_true.
    congruence.
  - intros H1 H2. apply Qeq_bool_iff in H1, H2. apply Qeq_bool_iff.
    rewrite H1. exact H2.
Qed.

(** No row is marked as a duplicate exactly when the rows differ from the
    rows before them and from one another. *)
Lemma duplicated_none (earlier s : series) :
  existsb id (utils.duplicated earlier s) = false <->
  (forall j b, s !! j = Some b -> existsb (cell_eqb b) earlier = false) /\ distinct_cells s.
Proof.
  revert earlier. induction s as [|c rest IH]; intros earlier; simpl.
  - split; [|reflexivity]. intros _. split; [intros j b H; discriminate|].
    intros i j a b H; discriminate.
  - rewrite orb_false_iff, IH. split.
    + intros [Hc [Hrest Hd]]. split.
      * intros [|j] b Hj; simpl in Hj.
        -- injection Hj as <-. exact Hc.
        -- specialize (Hrest j b Hj). simpl in Hrest. apply orb_false_iff in Hrest.
           apply Hrest.
      * intros [|i] [|j] a b Hi Hj Hab; simpl in Hi, Hj.
        -- reflexivity.
        -- injection Hi as <-. specialize (Hrest j b Hj). simpl in Hrest.
           apply orb_false_iff in Hrest as [Hbc _]. rewrite cell_eqb_sym in Hbc. congruence.
        -- injection Hj as <-. specialize (Hrest i a Hi). simpl in Hrest.
           apply orb_false_iff in Hrest as [Hac _]. congruence.
        -- f_equal. exact (Hd i j a b Hi Hj Hab).
    + intros [Hearlier Hd]. split; [exact (Hearlier 0%nat c eq_refl)|]. split.
      * intros j b Hj. simpl. apply orb_false_iff. split.
        -- destruct (cell_eqb b c) eqn:Hbc; [|reflexivity].
           discriminate (Hd (S j) 0%nat b c Hj eq_refl Hbc).
        -- exact (Hearlier (S j) b Hj).
      * intros i j a b Hi Hj Hab.
        pose proof (Hd (S i) (S j) a b Hi Hj Hab) as E. lia.
Qed.

Lemma unique_nil (seen s : series) :
  utils.unique seen s = [] <-> forall j b, s !! j = Some b -> existsb (cell_eqb b) seen = true.
Proof.
  revert seen. induction s as [|c rest IH]; intros seen; simpl.
  - split; [intros _ j b H; discriminate | reflexivity].
  - destruct (existsb (cell_eqb c) seen) eqn:Hc.
    + rewrite IH. split.
      * intros H [|j] b Hj; simpl in Hj; [injection Hj as <-; exact Hc | exact (H j b Hj)].
      * intros H j b Hj. exact (H (S j) b Hj).
    + split; [discriminate|]. intros H. specialize (H 0%nat c eq_refl). congruence.
Qed.

(** Every value of [s] is in [seen] or has its like among the values
    kept. *)
Lemma unique_covers (seen s : series) (j : nat) (b : cell) :
  s !! j = Some b ->
  existsb (cell_eqb b) seen = true \/
  exists key, key ∈ utils.unique seen s /\ cell_eqb b key = true.
Proof.
  revert seen j. induction s as [|c rest IH]; intros seen j Hj; [discriminate|].
  simpl. destruct j as [|j]; simpl in Hj.
  - injection Hj as <-. destruct (existsb (cell_eqb c) seen) eqn:Hc; [left; reflexivity|].
    right. exists c. split; [left | apply cell_eqb_refl].
  - destruct (existsb (cell_eqb c) seen) eqn:Hc.
    + exact (IH seen j Hj).
    + destruct (IH (c :: seen) j Hj) as [Hseen | (key & Hkey & Hb)].
      * simpl in Hseen. apply orb_true_iff in Hseen as [Hbc | Hseen]; [|left; exact Hseen].
        right. exists c. split; [left | exact Hbc].
      * right. exists key. split; [right; exact Hkey | exact Hb].
Qed.

(** A list holds at most one value exactly when its rows all agree. *)
Lemma unique_at_most_one (s : series) :
  (length (utils.unique [] s) <= 1)%nat <->
  forall i j a b, s !! i = Some a -> s !! j = Some b -> cell_eqb a b = true.
Proof.
  destruct s as [|c rest]; simpl.
  - split; [intros _ i j a b H; discriminate | lia].
  - split.
    + intros Hlen. assert (utils.unique [c] rest = []) as Hnil.
      { destruct (utils.unique [c] rest); [reflexivity | simpl in Hlen; lia]. }
      pose proof (proj1 (unique_nil [c] rest) Hnil) as Hall.
      assert (forall i a, (c :: rest) !! i = Some a -> cell_eqb a c = true) as Hc.
      { intros [|i] a Hi; simpl in Hi.
        - injection Hi as <-. apply cell_eqb_refl.
        - specialize (Hall i a Hi). simpl in Hall. rewrite orb_false_r in Hall. exact Hall. }
      intros i j a b Hi Hj. apply (cell_eqb_trans a c b); [exact (Hc i a Hi)|].
      rewrite cell_eqb_sym. exact (Hc j b Hj).
    + intros Hall. replace (utils.unique [c] rest) with (@nil cell); [simpl; lia|].
      symmetry. apply unique_nil. intros j b Hj. simpl. rewrite orb_false_r.
      exact (Hall (S j) 0%nat b c Hj eq_refl).
Qed.

Lemma elem_of_group (left right : series) (key b : cell) :
  length left = length right ->
  (exists k, utils.group left right key !! k = Some b) <->
  exists i a, left !! i = Some a /\ right !! i = Some b /\ cell_eqb a key = true.
Proof.
  intros Hlen. unfold utils.group. split.
  - intros [k Hk]. apply list_elem_of_lookup_2 in Hk.
    apply list_elem_of_fmap in Hk as ([a b'] & -> & Hin).
    apply list_elem_of_filter in Hin as [Ha Hin].
    apply list_elem_of_lookup in Hin as [i Hi]. apply lookup_zip_with_Some in Hi
      as (a0 & b0 & [= <- <-] & Hl & Hr). exists i, a. auto.
  - intros (i & a & Hl & Hr & Ha). apply list_elem_of_lookup.
    apply list_elem_of_fmap. exists (a, b). split; [reflexivity|].
    apply list_elem_of_filter. split; [exact Ha|].
    apply list_elem_of_lookup. exists i. apply lookup_zip_with_Some. eauto.
Qed.

Lemma foldr_max_le (bound c : nat) (cs : list nat) :
  (foldr Nat.max c cs <= bound)%nat <-> Forall (fun n => (n <= bound)%nat) (c :: cs).
Proof.
  induction cs as [|c' cs IH]; simpl.
  - split; [intros H; repeat constructor; exact H | intros H; inversion H; assumption].
  - rewrite Nat.max_lub_iff, IH. split.
    + intros [Hc' H]. inversion H; subst. repeat constructor; assumption.
    + intros H. inversion H as [|? ? Hc H']; subst. inversion H'; subst.
      split; [assumption | constructor; assumption].
Qed.

(** Every group holds at most one value of [right] exactly when the rows
    that agree on [left] agree on [right]. *)
Lemma nunique_at_most_one (left right : series) :
  length left = length right ->
  Forall (fun n => (n <= 1)%nat) (utils.nunique_by_group left right) <->
  maps_to_one left right.
Proof.
  intros Hlen. unfold utils.nunique_by_group. rewrite Forall_fmap, Forall_forall.
  split.
  - intros Hall i j a a' b b' Hi Hj Hbi Hbj Haa.
    destruct (unique_covers [] left i a Hi) as [Hseen | (key & Hkey & Ha)];
      [discriminate|].
    pose proof (proj1 (unique_at_most_one _) (Hall key Hkey)) as Hgroup.
    assert (cell_eqb a' key = true) as Ha'.
    { apply (cell_eqb_trans a' a key); [rewrite cell_eqb_sym; exact Haa | exact Ha]. }
    destruct (proj2 (elem_of_group left right key b Hlen)) as [k Hk]; [eauto|].
    destruct (proj2 (elem_of_group left right key b' Hlen)) as [k' Hk']; [eauto|].
    exact (Hgroup k k' b b' Hk Hk').
  - intros Hone key Hkey. simpl. apply unique_at_most_one. intros k k' b b' Hk Hk'.
    destruct (proj1 (elem_of_group left right key b Hlen)) as (i & a & Hi & Hbi & Ha);
      [eauto|].
    destruct (proj1 (elem_of_group left right key b' Hlen)) as (j & a' & Hj & Hbj & Ha');
      [eauto|].
    apply (Hone i j a a' b b' Hi Hj Hbi Hbj).
    apply (cell_eqb_trans a key a'); [exact Ha | rewrite cell_eqb_sym; exact Ha'].
Qed.

(** The two outcomes of [check_file_for_duplicates] on a column. *)
Lemma duplicates_check (df : DataFrame) (file_name col : string) (s : series) :
  getitem col df = Ok s ->
  (utils.check_file_for_duplicates df file_name col = Ok tt /\ distinct_cells s) \/
  (exists msg, utils.check_file_for_duplicates df file_name col = Raise (ValueError msg)
               /\ ~ distinct_cells s).
Proof.
  intros Hs. unfold utils.check_file_for_duplicates. rewrite Hs. simpl.
  destruct (existsb id (utils.duplicated [] s)) eqn:Hdup.
  - right. eexists. split; [reflexivity|]. intros Hd.
    assert (existsb id (utils.duplicated [] s) = false) as E; [|congruence].
    apply duplicated_none. split; [reflexivity | exact Hd].
  - left. split; [reflexivity|]. apply duplicated_none in Hdup. apply Hdup.
Qed.

(** The two outcomes of [check_121_mappings] on two columns. *)
Lemma mappings_check (df : DataFrame) (file_name left_field right_field : string)
    (left right : series) :
  wf_df df ->
  getitem left_field df = Ok left ->
  getitem right_field df = Ok right ->
  (utils.check_121_mappings df file_name left_field right_field = Ok tt /\
   nrows df <> 0%nat /\ maps_to_one left right) \/
  (exists msg, utils.check_121_mappings df file_name left_field right_field
               = Raise (ValueError msg) /\
               (nrows df = 0%nat \/ ~ maps_to_one left right)).
Proof.
  intros Hwf Hl Hr. unfold utils.check_121_mappings. rewrite Hl, Hr. simpl.
  pose proof (getitem_length _ _ _ Hwf Hl) as Hll.
  pose proof (getitem_length _ _ _ Hwf Hr) as Hlr.
  assert (length left = length right) as Hlen by congruence.
  pose proof (nunique_at_most_one left right Hlen) as Hone.
  destruct (utils.nunique_by_group left right) as [|c cs] eqn:Hcounts.
  - right. eexists. split; [reflexivity|]. left.
    unfold utils.nunique_by_group in Hcounts. apply fmap_nil_inv in Hcounts.
    destruct left as [|a rest]; [simpl in Hll; lia | discriminate].
  - assert (nrows df <> 0%nat) as Hrows.
    { intros Hzero. rewrite Hzero in Hll. destruct left; [|discriminate].
      discriminate. }
    simpl. pose proof (foldr_max_le 1 c cs) as Hmax.
    destruct (1 <? foldr Nat.max c cs)%nat eqn:Hcmp.
    + right. eexists. split; [reflexivity|]. right. intros Hmaps.
      apply Nat.ltb_lt in Hcmp. apply Hone, Hmax in Hmaps. lia.
    + left. split; [reflexivity|]. split; [exact Hrows|].
      apply Hone, Hmax. apply Nat.ltb_ge in Hcmp. exact Hcmp.
Qed.

(** X17.  [check_file_for_duplicates] returns when no two rows of the
    column hold the same value, and raises [ValueError] when two rows do;
    without the column it raises [KeyError]. *)
Theorem check_file_for_duplicates_accepts_distinct_rows
    (df : DataFrame) (file_name col : string) :
  match getitem col df with
  | Ok s =>
      (distinct_cells s -> utils.check_file_for_duplicates df file_name col = Ok tt) /\
      (~ distinct_cells s ->
       exists msg, utils.check_file_for_duplicates df file_name col
                   = Raise (ValueError msg))
  | Raise e => utils.check_file_for_duplicates df file_name col = Raise e
  end.
Proof.
  destruct (getitem col df) as [s|e] eqn:Hs.
  - destruct (duplicates_check df file_name col s Hs) as [[Hok Hd] | (msg & Hraise & Hnot)].
    + split; [intros _; exact Hok | intros Hnot; contradiction].
    + split; [intros Hd; contradiction | intros _; eauto].
  - unfold utils.check_file_for_duplicates. rewrite Hs. reflexivity.
Qed.

(** X18.  On a table with rows, [check_121_mappings] returns when the rows
    that agree on [left_field] agree on [right_field] and raises
    [ValueError] when two of them differ; on a table without rows it raises
    [ValueError] as well, from the maximum of no count. *)
Theorem check_121_mappings_accepts_functions
    (df : DataFrame) (file_name left_field right_field : string) (left right : series) :
  wf_df df ->
  getitem left_field df = Ok left ->
  getitem right_field df = Ok right ->
  (nrows df <> 0%nat -> maps_to_one left right ->
   utils.check_121_mappings df file_name left_field right_field = Ok tt) /\
  (nrows df = 0%nat \/ ~ maps_to_one left right ->
   exists msg, utils.check_121_mappings df file_name left_field right_field
               = Raise (ValueError msg)).
Proof.
  intros Hwf Hl Hr.
  destruct (mappings_check df file_name left_field right_field left right Hwf Hl Hr)
    as [(Hok & Hrows & Hmaps) | (msg & Hraise & Hbad)].
  - split; [intros _ _; exact Hok|]. intros [Hzero | Hnot]; contradiction.
  - split; [|intros _; eauto]. intros Hrows Hmaps. destruct Hbad; contradiction.
Qed.

(** The tables of [tests/utils_test.py]. *)
Definition duped_df : DataFrame :=
  mkDF 3 [ ("test_lsoa_code", [Str "01"; Str "02"; Str "02"]);
           ("test_la_code", [Str "A"; Str "A"; Str "B"]) ].

Definition multiple_maps_df : DataFrame :=
  mkDF 3 [ ("test_lsoa_code", [Str "01"; Str "01"; Str "02"]);
           ("test_la_code", [Str "A"; Str "B"; Str "B"]) ].

Lemma check_file_for_duplicates_accepts_distinct_rows_witness :
  (distinct_cells [Str "01"; Str "02"; Str "02"] ->
   utils.check_file_for_duplicates duped_df "test_file" "test_lsoa_code" = Ok tt) /\
  (~ distinct_cells [Str "01"; Str "02"; Str "02"] ->
   exists msg, utils.check_file_for_duplicates duped_df "test_file" "test_lsoa_code"
               = Raise (ValueError msg)).
Proof.
  exact (check_file_for_duplicates_accepts_distinct_rows duped_df "test_file"
           "test_lsoa_code").
Defined.

Lemma check_121_mappings_accepts_functions_witness :
  (nrows multiple_maps_df <> 0%nat ->
   maps_to_one [Str "01"; Str "01"; Str "02"] [Str "A"; Str "B"; Str "B"] ->
   utils.check_121_mappings multiple_maps_df "test_file" "test_lsoa_code" "test_la_code"
   = Ok tt) /\
  (nrows multiple_maps_df = 0%nat \/
   ~ maps_to_one [Str "01"; Str "01"; Str "02"] [Str "A"; Str "B"; Str "B"] ->
   exists msg,
     utils.check_121_mappings multiple_maps_df "test_file" "test_lsoa_code" "test_la_code"
     = Raise (ValueError msg)).
Proof.
  apply (check_121_mappings_accepts_functions multiple_maps_df "test_file"
           "test_lsoa_code" "test_la_code").
  - repeat constructor.
  - reflexivity.
  - reflexivity.
Defined.

(** [test_check_for_duplicates] and [test_check_121_mappings]: both tables
    are refused.  A table with one row for each code passes both checks,
    and a table without rows fails the second. *)
Example utils_tests :
  failed (utils.check_file_for_duplicates duped_df "test_file" "test_lsoa_code") /\
  failed (utils.check_121_mappings multiple_maps_df "test_file" "test_lsoa_code"
            "test_la_code") /\
  (let df := mkDF 3 [ ("test_lsoa_code", [Str "01"; Str "02"; Str "03"]);
                      ("test_la_code", [Str "A"; Str "A"; Str "B"]) ] in
   utils.check_file_for_duplicates df "test_file" "test_lsoa_code" = Ok tt /\
   utils.check_121_mappings df "test_file" "test_lsoa_code" "test_la_code" = Ok tt) /\
  utils.check_file_for_duplicates multiple_maps_df "test_file" "test_la_code"
  = Raise (ValueError ("Your dataset: test_file contains duplicate test_la_code values. "
                       +:+ utils.newline +:+ utils.newline
                       +:+ "            This pipeline requires distinct test_la_code values."))
  /\ utils.check_121_mappings (mkDF 0 [("a", []); ("b", [])]) "test_file" "a" "b"
     = Raise (ValueError "cannot convert float NaN to integer").
Proof. repeat split; vm_compute; try exact I; reflexivity. Qed.

(** * The lookup of [src/clean.py]

    [clean_lookups] reads the lookup of LSOAs to local authorities, checks
    it with the two functions of [utils], takes out the rows of the
    authorities to remove and saves what is left.  The frame is rebound,
    never changed in place, so it is a value here. *)

Module clean_params.
Definition raw_folder := "raw".
Definition interim_folder := "interim".
Definition LSOA_code := "LSOA21CD".
Definition LSOA_UTLA_lookup_file := "LSOA21_to_UTLA22.csv".
End clean_params.

Module clean.

Definition RAW_DATA : string := joinpath params.data_folder clean_params.raw_folder.
Definition INTERIM_DATA : string := joinpath params.data_folder clean_params.interim_folder.

(** [pd.read_csv(path, usecols=usecols)]: every name in [usecols] must be a
    column of the file; the columns kept come in the order of the file. *)
Definition read_csv_columns (path : string) (usecols : list string) : M DataFrame :=
  fun w =>
  match csv_files w !! path with
  | None => (Raise (FileNotFoundError path), w)
  | Some d =>
      match filter (fun l => l ∉ labels d) usecols with
      | [] => (Ok (mkDF (nrows d) (filter (fun c => c.1 ∈ usecols) (columns d))), w)
      | _ :: _ => (Raise (ValueError "Usecols do not match columns"), w)
      end
  end.

(** A dict display [{k1: v1, k2: v2, ...}]: a key given again keeps its
    place and takes the later value. *)
Fixpoint dict_set (k v : string) (d : list (string * string)) : list (string * string) :=
  match d with
  | [] => [(k, v)]
  | (k', v') :: rest =>
      if decide (k = k') then (k', v) :: rest else (k', v') :: dict_set k v rest
  end.

Definition dict_of (items : list (string * string)) : list (string * string) :=
  fold_left (fun d item => dict_set item.1 item.2 d) items [].

(** [s[mask]] and [df[mask]] for a boolean mask: the rows marked. *)
Definition mask_rows (mask : list bool) (s : series) : series :=
  map snd (filter (fun p : bool * cell => p.1 = true) (zip mask s)).

Definition filter_rows (mask : list bool) (df : DataFrame) : DataFrame :=
  mkDF (length (filter (fun b : bool => b = true) mask))
       (map (fun c : string * series => (c.1, mask_rows mask c.2)) (columns df)).

(** One turn of the loop over [las_to_remove] (clean.py 122-126) *)
Definition remove_la (la_name : string) (lookup : DataFrame) (la : string)
  : result DataFrame :=
  names ← getitem la_name lookup;
  if existsb (cell_eqb (Str la)) names then
    Ok (filter_rows (map (fun c => negb (cell_eqb c (Str la))) names) lookup)
  else Ok lookup.

Fixpoint remove_las (la_name : string) (lookup : DataFrame) (las : list string)
  : result DataFrame :=
  match las with
  | [] => Ok lookup
  | la :: rest => lookup' ← remove_la la_name lookup la; remove_las la_name lookup' rest
  end.

(** [clean_lookups] (clean.py 103-135) *)
Definition clean_lookups (la_code la_name : string) (las_to_remove : list string)
    (lsoa_utla_file lsoa_code : string) : M unit :=
  LSOA_UTLA_lookup ← read_csv_columns (joinpath RAW_DATA lsoa_utla_file)
                                      [lsoa_code; la_code; la_name];
  lift (utils.check_file_for_duplicates LSOA_UTLA_lookup lsoa_utla_file lsoa_code);;
  lift (for_each (dict_of [(lsoa_code, la_name); (la_code, la_name); (la_name, la_code)])
          (fun item =>
             utils.check_121_mappings LSOA_UTLA_lookup lsoa_utla_file item.1 item.2));;
  LSOA_UTLA_lookup ← lift (match las_to_remove with
                           | [] => Ok LSOA_UTLA_lookup
                           | _ :: _ => remove_las la_name LSOA_UTLA_lookup las_to_remove
                           end);
  write_csv INTERIM_DATA lsoa_utla_file LSOA_UTLA_lookup.

End clean.

(** The rows of [s] at which the cell of [names] satisfies [P]. *)
Definition kept_rows (P : cell -> bool) (names s : series) : series :=
  map snd (filter (fun p : cell * cell => P p.1 = true) (zip names s)).

(** The rows of [df] at which the cell of [names] satisfies [P]. *)
Definition frame_kept (P : cell -> bool) (names : series) (df : DataFrame) : DataFrame :=
  mkDF (length (kept_rows P names names))
       (map (fun c : string * series => (c.1, kept_rows P names c.2)) (columns df)).

(** The cell names none of the authorities to remove. *)
Definition name_kept (las : list string) (c : cell) : bool :=
  forallb (fun la => negb (cell_eqb c (Str la))) las.

Lemma mask_rows_kept (P : cell -> bool) (names s : series) :
  clean.mask_rows (map P names) s = kept_rows P names s.
Proof.
  unfold clean.mask_rows, kept_rows. revert s.
  induction names as [|c names IH]; intros [|a s]; try reflexivity.
  simpl. rewrite !filter_cons. simpl.
  destruct (decide (P c = true)) as [Hc|Hc]; simpl; rewrite IH; reflexivity.
Qed.

Lemma mask_count_kept (P : cell -> bool) (names : series) :
  length (filter (fun b : bool => b = true) (map P names))
  = length (kept_rows P names names).
Proof.
  unfold kept_rows. induction names as [|c names IH]; [reflexivity|].
  simpl. rewrite !filter_cons. simpl.
  destruct (decide (P c = true)) as [Hc|Hc]; simpl; rewrite IH; reflexivity.
Qed.

Lemma kept_rows_length (P : cell -> bool) (names s : series) :
  length s = length names -> length (kept_rows P names s) = length (kept_rows P names names).
Proof.
  unfold kept_rows. revert s.
  induction names as [|c names IH]; intros [|a s] Hlen; try discriminate; [reflexivity|].
  simpl. rewrite !filter_cons. simpl. injection Hlen as Hlen.
  destruct (decide (P c = true)) as [Hc|Hc]; simpl; rewrite (IH s Hlen); reflexivity.
Qed.

Lemma kept_rows_all (P : cell -> bool) (names s : series) :
  Forall (fun c => P c = true) names -> length s = length names -> kept_rows P names s = s.
Proof.
  unfold kept_rows. intros Hall. revert s.
  induction Hall as [|c names Hc Hall IH]; intros [|a s] Hlen; try discriminate;
    [reflexivity|].
  simpl. rewrite filter_cons. simpl. injection Hlen as Hlen.
  rewrite decide_True by exact Hc. simpl. rewrite (IH s Hlen). reflexivity.
Qed.

Lemma kept_rows_compose (P Q' : cell -> bool) (names s : series) :
  length s = length names ->
  kept_rows Q' (kept_rows P names names) (kept_rows P names s)
  = kept_rows (fun c => P c && Q' c) names s.
Proof.
  unfold kept_rows. revert s.
  induction names as [|c names IH]; intros [|a s] Hlen; try discriminate; [reflexivity|].
  injection Hlen as Hlen. specialize (IH s Hlen).
  simpl. rewrite !filter_cons. simpl.
  destruct (decide (P c = true)) as [Hc|Hc]; simpl.
  - rewrite filter_cons. simpl. rewrite Hc. simpl.
    destruct (decide (Q' c = true)) as [Hq|Hq]; simpl; rewrite IH; reflexivity.
  - rewrite decide_False; [exact IH|]. apply not_true_is_false in Hc. rewrite Hc.
    discriminate.
Qed.

Lemma kept_rows_ext (P Q' : cell -> bool) (names s : series) :
  (forall c, P c = Q' c) -> kept_rows P names s = kept_rows Q' names s.
Proof.
  intros Hext. unfold kept_rows. f_equal. apply list_filter_iff. intros p.
  rewrite Hext. reflexivity.
Qed.

Lemma kept_rows_satisfy (P : cell -> bool) (names : series) :
  Forall (fun c => P c = true) (kept_rows P names names).
Proof.
  unfold kept_rows. induction names as [|c names IH]; [constructor|].
  simpl. rewrite filter_cons. simpl.
  destruct (decide (P c = true)) as [Hc|Hc]; simpl; [constructor; assumption | exact IH].
Qed.

Lemma find_columns_map (f : series -> series) (l : string) (cs : list (string * series)) :
  find_columns l (map (fun c : string * series => (c.1, f c.2)) cs)
  = map f (find_columns l cs).
Proof.
  induction cs as [|c cs IH]; [reflexivity|].
  simpl map at 1. rewrite !find_columns_cons. simpl.
  destruct (decide (c.1 = l)); simpl; rewrite IH; reflexivity.
Qed.

Lemma getitem_frame_kept (P : cell -> bool) (names s : series) (l : string)
    (df : DataFrame) :
  getitem l df = Ok s -> getitem l (frame_kept P names df) = Ok (kept_rows P names s).
Proof.
  unfold getitem, frame_kept. simpl. rewrite find_columns_map.
  destruct (find_columns l (columns df)) as [|s0 [|]]; try discriminate.
  intros [= ->]. reflexivity.
Qed.

Lemma labels_frame_kept (P : cell -> bool) (names : series) (df : DataFrame) :
  labels (frame_kept P names df) = labels df.
Proof.
  unfold labels, frame_kept. simpl. rewrite <- list_fmap_compose.
  apply list_fmap_ext. intros i c _. reflexivity.
Qed.

Lemma labels_of_filter (ls : list string) (cs : list (string * series)) :
  map fst (filter (fun c : string * series => c.1 ∈ ls) cs)
  = filter (fun l => l ∈ ls) (map fst cs).
Proof.
  induction cs as [|c cs IH]; [reflexivity|].
  simpl. rewrite !filter_cons. destruct (decide (c.1 ∈ ls)); simpl; rewrite IH; reflexivity.
Qed.

Lemma frame_kept_wf (P : cell -> bool) (names : series) (df : DataFrame) :
  wf_df df -> length names = nrows df -> wf_df (frame_kept P names df).
Proof.
  unfold wf_df, frame_kept. simpl. intros Hwf Hlen. apply Forall_fmap.
  eapply Forall_impl; [exact Hwf|]. intros c Hc. simpl.
  apply kept_rows_length. congruence.
Qed.

Lemma frame_kept_all (P : cell -> bool) (names : series) (df : DataFrame) :
  wf_df df -> length names = nrows df -> Forall (fun c => P c = true) names ->
  frame_kept P names df = df.
Proof.
  intros Hwf Hlen Hall. destruct df as [n cs]. unfold frame_kept, wf_df in *.
  simpl in *. f_equal.
  - rewrite kept_rows_all by (exact Hall || reflexivity). exact Hlen.
  - induction Hwf as [|[l s] cs Hs Hwf IH]; [reflexivity|]. simpl in *.
    rewrite IH, kept_rows_all by (exact Hall || congruence). reflexivity.
Qed.

Lemma frame_kept_compose (P Q' : cell -> bool) (names : series) (df : DataFrame) :
  wf_df df -> length names = nrows df ->
  frame_kept Q' (kept_rows P names names) (frame_kept P names df)
  = frame_kept (fun c => P c && Q' c) names df.
Proof.
  intros Hwf Hlen. unfold frame_kept. simpl. f_equal.
  - rewrite kept_rows_compose by reflexivity. reflexivity.
  - rewrite <- list_fmap_compose. apply Forall_fmap_ext_1.
    eapply Forall_impl; [exact Hwf|]. intros c Hc. simpl. f_equal.
    apply kept_rows_compose. congruence.
Qed.

(** One turn of the loop keeps the rows that do not name [la]. *)
Lemma remove_la_kept (la_name la : string) (df : DataFrame) (names : series) :
  wf_df df -> getitem la_name df = Ok names ->
  clean.remove_la la_name df la
  = Ok (frame_kept (fun c => negb (cell_eqb c (Str la))) names df).
Proof.
  intros Hwf Hnames. unfold clean.remove_la. rewrite Hnames. simpl.
  pose proof (getitem_length _ _ _ Hwf Hnames) as Hlen.
  destruct (existsb (cell_eqb (Str la)) names) eqn:Hpresent.
  - f_equal. unfold clean.filter_rows, frame_kept. f_equal.
    + apply mask_count_kept.
    + apply list_fmap_ext. intros i c _. f_equal. apply mask_rows_kept.
  - f_equal. symmetry. apply frame_kept_all; [exact Hwf | exact Hlen |].
    apply Forall_forall. intros c Hc. apply negb_true_iff.
    destruct (cell_eqb c (Str la)) eqn:E; [|reflexivity].
    assert (existsb (cell_eqb (Str la)) names = true) as Hex; [|congruence].
    apply existsb_exists. exists c. split; [apply list_elem_of_In, Hc|].
    rewrite cell_eqb_sym. exact E.
Qed.

(** The loop keeps the rows that name none of the authorities to remove. *)
Lemma remove_las_kept (la_name : string) (las : list string) :
  forall (df : DataFrame) (names : series),
    wf_df df -> getitem la_name df = Ok names ->
    clean.remove_las la_name df las = Ok (frame_kept (name_kept las) names df).
Proof.
  induction las as [|la las IH]; intros df names Hwf Hnames.
  - simpl. f_equal. symmetry.
    apply frame_kept_all; [exact Hwf | exact (getitem_length _ _ _ Hwf Hnames) |].
    apply Forall_forall. intros c _. reflexivity.
  - pose proof (getitem_length _ _ _ Hwf Hnames) as Hlen.
    simpl. rewrite (remove_la_kept la_name la df names Hwf Hnames). simpl.
    rewrite (IH _ (kept_rows (fun c => negb (cell_eqb c (Str la))) names names)).
    + rewrite frame_kept_compose by assumption. reflexivity.
    + apply frame_kept_wf; assumption.
    + apply getitem_frame_kept. exact Hnames.
Qed.

Lemma dict_of_three (a b c va vb vc : string) :
  a <> b -> a <> c -> b <> c ->
  clean.dict_of [(a, va); (b, vb); (c, vc)] = [(a, va); (b, vb); (c, vc)].
Proof.
  intros Hab Hac Hbc. unfold clean.dict_of. simpl.
  rewrite (decide_False (P := b = a)) by congruence. simpl.
  rewrite (decide_False (P := c = a)) by congruence.
  rewrite (decide_False (P := c = b)) by congruence. reflexivity.
Qed.

(** Distinct codes map to one of anything. *)
Lemma distinct_maps_to_one (left right : series) :
  distinct_cells left -> maps_to_one left right.
Proof.
  intros Hd i j a a' b b' Hi Hj Hbi Hbj Haa.
  pose proof (Hd i j a a' Hi Hj Haa) as ->.
  assert (b = b') as -> by congruence. apply cell_eqb_refl.
Qed.

Section Lookups.
Context (la_code la_name : string) (las_to_remove : list string).
Context (lsoa_utla_file lsoa_code : string).
Context (w : world) (d : DataFrame) (lsoas codes names : series).
Hypothesis file_read :
  csv_files w !! joinpath clean.RAW_DATA lsoa_utla_file = Some d.
Hypothesis file_wf : wf_df d.
Hypothesis fields_differ : NoDup [lsoa_code; la_code; la_name].
Hypothesis lsoa_column : getitem lsoa_code d = Ok lsoas.
Hypothesis code_column : getitem la_code d = Ok codes.
Hypothesis name_column : getitem la_name d = Ok names.

(** The frame read: the three columns, in the order of the file. *)
Definition lookup_read : DataFrame :=
  mkDF (nrows d) (filter (fun c => c.1 ∈ [lsoa_code; la_code; la_name]) (columns d)).

Lemma lookup_is_read :
  clean.read_csv_columns (joinpath clean.RAW_DATA lsoa_utla_file)
                         [lsoa_code; la_code; la_name] w
  = (Ok lookup_read, w).
Proof.
  unfold clean.read_csv_columns. rewrite file_read.
  replace (filter (fun l => l ∉ labels d) [lsoa_code; la_code; la_name])
    with (@nil string); [reflexivity|].
  symmetry. rewrite !filter_cons, filter_nil.
  rewrite !decide_False; [reflexivity | | |]; intros Hn; apply Hn;
    eapply getitem_ok_label; eassumption.
Qed.

Lemma lookup_read_getitem (l : string) :
  l ∈ [lsoa_code; la_code; la_name] -> getitem l lookup_read = getitem l d.
Proof.
  intros Hl. unfold getitem, lookup_read. simpl.
  rewrite find_columns_filter; [reflexivity|]. intros c ->. exact Hl.
Qed.

Lemma lookup_read_wf : wf_df lookup_read.
Proof.
  unfold wf_df, lookup_read. simpl. apply Forall_forall. intros c Hc.
  apply list_elem_of_filter in Hc as [_ Hc].
  unfold wf_df in file_wf. rewrite Forall_forall in file_wf. exact (file_wf c Hc).
Qed.

Lemma fields_are_three :
  lsoa_code <> la_code /\ lsoa_code <> la_name /\ la_code <> la_name.
Proof.
  pose proof fields_differ as H. apply NoDup_cons in H as [H1 H].
  apply NoDup_cons in H as [H2 _].
  repeat split; intros ->; [apply H1 | apply H1 | apply H2]; set_solver.
Qed.

(** The run as far as the checks go: they pass exactly on a table with
    rows, distinct LSOA codes, one name for each authority code and one
    code for each name; otherwise the first check that fails raises
    [ValueError], and nothing has been written. *)
Lemma checks_run :
  let checked :=
    utils.check_file_for_duplicates lookup_read lsoa_utla_file lsoa_code;;
    for_each (clean.dict_of [(lsoa_code, la_name); (la_code, la_name); (la_name, la_code)])
      (fun item => utils.check_121_mappings lookup_read lsoa_utla_file item.1 item.2) in
  (checked = Ok tt /\ nrows d <> 0%nat /\ distinct_cells lsoas /\
   maps_to_one codes names /\ maps_to_one names codes) \/
  (exists msg, checked = Raise (ValueError msg) /\
     (nrows d = 0%nat \/ ~ distinct_cells lsoas \/
      ~ maps_to_one codes names \/ ~ maps_to_one names codes)).
Proof.
  destruct fields_are_three as (H12 & H13 & H23).
  assert (getitem lsoa_code lookup_read = Ok lsoas) as Hl
    by (rewrite lookup_read_getitem by set_solver; exact lsoa_column).
  assert (getitem la_code lookup_read = Ok codes) as Hc
    by (rewrite lookup_read_getitem by set_solver; exact code_column).
  assert (getitem la_name lookup_read = Ok names) as Hn
    by (rewrite lookup_read_getitem by set_solver; exact name_column).
  rewrite dict_of_three by assumption. simpl.
  destruct (duplicates_check lookup_read lsoa_utla_file lsoa_code lsoas Hl)
    as [[-> Hd] | (msg & -> & Hnot)]; simpl; [|right; eauto 10].
  destruct (mappings_check lookup_read lsoa_utla_file lsoa_code la_name lsoas names
              lookup_read_wf Hl Hn) as [(-> & Hrows & _) | (msg & -> & Hbad)]; simpl.
  2:{ right. exists msg. split; [reflexivity|].
      destruct Hbad as [Hzero | Hbad]; [left; exact Hzero|].
      exfalso. apply Hbad, distinct_maps_to_one, Hd. }
  destruct (mappings_check lookup_read lsoa_utla_file la_code la_name codes names
              lookup_read_wf Hc Hn) as [(-> & _ & Hcn) | (msg & -> & Hbad)]; simpl.
  2:{ right. exists msg. split; [reflexivity|].
      destruct Hbad as [Hzero | Hbad]; [contradiction | auto]. }
  destruct (mappings_check lookup_read lsoa_utla_file la_name la_code names codes
              lookup_read_wf Hn Hc) as [(-> & _ & Hnc) | (msg & -> & Hbad)]; simpl.
  2:{ right. exists msg. split; [reflexivity|].
      destruct Hbad as [Hzero | Hbad]; [contradiction | auto]. }
  left. auto.
Qed.

(** X19.  Let the raw lookup hold the three fields, under three different
    labels.  On a table with rows, distinct LSOA codes, one name for each
    authority code and one code for each name, [clean_lookups] returns: it
    has written one file, the lookup in the interim folder, which holds the
    three columns in the order of the raw file and, of its rows and in
    their order, those that name none of the authorities to remove.  The
    check of LSOA codes against names adds nothing to the check for
    duplicates. *)
Theorem clean_lookups_keeps_the_other_authorities :
  nrows d <> 0%nat -> distinct_cells lsoas ->
  maps_to_one codes names -> maps_to_one names codes ->
  let cleaned := frame_kept (name_kept las_to_remove) names lookup_read in
  clean.clean_lookups la_code la_name las_to_remove lsoa_utla_file lsoa_code w
  = (Ok tt,
     mkWorld (heap w) (next_ref w)
       (<[joinpath clean.INTERIM_DATA lsoa_utla_file := cleaned]> (csv_files w))
       ((CsvFile, clean.INTERIM_DATA, lsoa_utla_file) :: written w)) /\
  labels cleaned = filter (fun l => l ∈ [lsoa_code; la_code; la_name]) (labels d) /\
  getitem lsoa_code cleaned = Ok (kept_rows (name_kept las_to_remove) names lsoas) /\
  getitem la_code cleaned = Ok (kept_rows (name_kept las_to_remove) names codes) /\
  getitem la_name cleaned = Ok (kept_rows (name_kept las_to_remove) names names) /\
  Forall (fun c => forall la, la ∈ las_to_remove -> c <> Str la)
         (kept_rows (name_kept las_to_remove) names names).
Proof.
  intros Hrows Hd Hcn Hnc cleaned.
  assert (getitem la_name lookup_read = Ok names) as Hn
    by (rewrite lookup_read_getitem by set_solver; exact name_column).
  split; [|split; [|split; [|split; [|split]]]].
  - unfold clean.clean_lookups. rewrite M_run_bind, lookup_is_read.
    destruct checks_run as [(Hchecked & _) | (msg & _ & Hbad)].
    2:{ exfalso. destruct Hbad as [? | [? | [? | ?]]]; contradiction. }
    simpl in Hchecked.
    destruct (utils.check_file_for_duplicates lookup_read lsoa_utla_file lsoa_code)
      as [[]|e] eqn:Hdup; [|discriminate].
    rewrite M_run_bind, M_run_lift. rewrite M_run_bind, M_run_lift.
    simpl in Hchecked |- *. rewrite Hchecked.
    rewrite M_run_bind, M_run_lift.
    replace (match las_to_remove with
             | [] => Ok lookup_read
             | _ :: _ => clean.remove_las la_name lookup_read las_to_remove
             end) with (Ok (A := DataFrame) cleaned); [reflexivity|].
    unfold cleaned.
    rewrite <- (remove_las_kept la_name las_to_remove lookup_read names lookup_read_wf Hn).
    destruct las_to_remove; reflexivity.
  - unfold cleaned. rewrite labels_frame_kept. unfold lookup_read, labels. simpl.
    apply labels_of_filter.
  - apply getitem_frame_kept. rewrite lookup_read_getitem by set_solver. exact lsoa_column.
  - apply getitem_frame_kept. rewrite lookup_read_getitem by set_solver. exact code_column.
  - apply getitem_frame_kept. exact Hn.
  - eapply Forall_impl; [apply kept_rows_satisfy|]. intros c Hc la Hla ->.
    unfold name_kept in Hc. rewrite forallb_forall in Hc.
    specialize (Hc la (proj1 (list_elem_of_In _ _) Hla)).
    rewrite cell_eqb_refl in Hc. discriminate.
Qed.

(** X20.  On a table without rows, with an LSOA code given twice, with an
    authority code under two names or a name under two codes,
    [clean_lookups] raises [ValueError] and writes nothing, whatever the
    authorities to remove. *)
Theorem clean_lookups_refuses_a_bad_lookup :
  nrows d = 0%nat \/ ~ distinct_cells lsoas \/
  ~ maps_to_one codes names \/ ~ maps_to_one names codes ->
  exists msg,
    clean.clean_lookups la_code la_name las_to_remove lsoa_utla_file lsoa_code w
    = (Raise (ValueError msg), w).
Proof.
  intros Hbad. unfold clean.clean_lookups. rewrite M_run_bind, lookup_is_read.
  destruct checks_run as [(_ & Hrows & Hd & Hcn & Hnc) | (msg & Hchecked & _)].
  { exfalso. destruct Hbad as [? | [? | [? | ?]]]; contradiction. }
  exists msg. simpl in Hchecked.
  rewrite M_run_bind, M_run_lift.
  destruct (utils.check_file_for_duplicates lookup_read lsoa_utla_file lsoa_code)
    as [[]|e] eqn:Hdup.
  - rewrite M_run_bind, M_run_lift. simpl in Hchecked |- *. rewrite Hchecked. reflexivity.
  - simpl in Hchecked. injection Hchecked as ->. reflexivity.
Qed.

End Lookups.

(** A lookup of four LSOAs in three authorities, with a column the
    pipeline does not read. *)
Definition raw_lookup : DataFrame :=
  mkDF 4 [ ("LSOA21CD", [Str "E01"; Str "E02"; Str "E03"; Str "E04"]);
           ("LSOA21NM", [Str "a"; Str "b"; Str "c"; Str "d"]);
           ("UTLA22NM", [Str "A"; Str "B"; Str "A"; Str "C"]);
           ("UTLA22CD", [Str "U1"; Str "U2"; Str "U1"; Str "U3"]) ].

Definition world_with_lookup (d : DataFrame) : world :=
  mkWorld ∅ 0 {[ joinpath clean.RAW_DATA clean_params.LSOA_UTLA_lookup_file := d ]} [].

Lemma clean_lookups_keeps_the_other_authorities_witness :
  let cleaned :=
    frame_kept (name_kept ["B"; "Z"])
      [Str "A"; Str "B"; Str "A"; Str "C"]
      (lookup_read "UTLA22CD" "UTLA22NM" clean_params.LSOA_code raw_lookup) in
  clean.clean_lookups "UTLA22CD" "UTLA22NM" ["B"; "Z"]
    clean_params.LSOA_UTLA_lookup_file clean_params.LSOA_code (world_with_lookup raw_lookup)
  = (Ok tt,
     mkWorld (heap (world_with_lookup raw_lookup)) (next_ref (world_with_lookup raw_lookup))
       (<[joinpath clean.INTERIM_DATA clean_params.LSOA_UTLA_lookup_file := cleaned]>
          (csv_files (world_with_lookup raw_lookup)))
       ((CsvFile, clean.INTERIM_DATA, clean_params.LSOA_UTLA_lookup_file)
          :: written (world_with_lookup raw_lookup))) /\
  labels cleaned
  = filter (fun l => l ∈ [clean_params.LSOA_code; "UTLA22CD"; "UTLA22NM"])
           (labels raw_lookup) /\
  getitem clean_params.LSOA_code cleaned
  = Ok (kept_rows (name_kept ["B"; "Z"]) [Str "A"; Str "B"; Str "A"; Str "C"]
          [Str "E01"; Str "E02"; Str "E03"; Str "E04"]) /\
  getitem "UTLA22CD" cleaned
  = Ok (kept_rows (name_kept ["B"; "Z"]) [Str "A"; Str "B"; Str "A"; Str "C"]
          [Str "U1"; Str "U2"; Str "U1"; Str "U3"]) /\
  getitem "UTLA22NM" cleaned
  = Ok (kept_rows (name_kept ["B"; "Z"]) [Str "A"; Str "B"; Str "A"; Str "C"]
          [Str "A"; Str "B"; Str "A"; Str "C"]) /\
  Forall (fun c => forall la, la ∈ ["B"; "Z"] -> c <> Str la)
         (kept_rows (name_kept ["B"; "Z"]) [Str "A"; Str "B"; Str "A"; Str "C"]
            [Str "A"; Str "B"; Str "A"; Str "C"]).
Proof.
  apply (clean_lookups_keeps_the_other_authorities "UTLA22CD" "UTLA22NM" ["B"; "Z"]
           clean_params.LSOA_UTLA_lookup_file clean_params.LSOA_code
           (world_with_lookup raw_lookup) raw_lookup
           [Str "E01"; Str "E02"; Str "E03"; Str "E04"]
           [Str "U1"; Str "U2"; Str "U1"; Str "U3"]
           [Str "A"; Str "B"; Str "A"; Str "C"]).
  - vm_compute. reflexivity.
  - repeat constructor.
  - nodup_compute.
  - reflexivity.
  - reflexivity.
  - reflexivity.
  - discriminate.
  - apply (duplicated_none []). reflexivity.
  - apply nunique_at_most_one; [reflexivity|]. vm_compute. repeat constructor.
  - apply nunique_at_most_one; [reflexivity|]. vm_compute. repeat constructor.
Defined.

(** The lookup saved by that run: the two LSOAs of [B] are gone, the
    column [LSOA21NM] was not read, and [Z], which the lookup does not
    name, changes nothing. *)
Example cleaned_lookup :
  csv_files (snd (clean.clean_lookups "UTLA22CD" "UTLA22NM" ["B"; "Z"]
                    clean_params.LSOA_UTLA_lookup_file clean_params.LSOA_code
                    (world_with_lookup raw_lookup)))
  !! "data/interim/LSOA21_to_UTLA22.csv"
  = Some (mkDF 3 [ ("LSOA21CD", [Str "E01"; Str "E03"; Str "E04"]);
                   ("UTLA22NM", [Str "A"; Str "A"; Str "C"]);
                   ("UTLA22CD", [Str "U1"; Str "U1"; Str "U3"]) ]).
Proof. vm_compute. reflexivity. Qed.

(** The same lookup with the name [A] under two codes. *)
Definition bad_lookup : DataFrame :=
  mkDF 4 [ ("LSOA21CD", [Str "E01"; Str "E02"; Str "E03"; Str "E04"]);
           ("UTLA22NM", [Str "A"; Str "B"; Str "A"; Str "C"]);
           ("UTLA22CD", [Str "U1"; Str "U2"; Str "U4"; Str "U3"]) ].

Lemma clean_lookups_refuses_a_bad_lookup_witness :
  exists msg,
    clean.clean_lookups "UTLA22CD" "UTLA22NM" ["B"]
      clean_params.LSOA_UTLA_lookup_file clean_params.LSOA_code
      (world_with_lookup bad_lookup)
    = (Raise (ValueError msg), world_with_lookup bad_lookup).
Proof.
  apply (clean_lookups_refuses_a_bad_lookup "UTLA22CD" "UTLA22NM" ["B"]
           clean_params.LSOA_UTLA_lookup_file clean_params.LSOA_code
           (world_with_lookup bad_lookup) bad_lookup
           [Str "E01"; Str "E02"; Str "E03"; Str "E04"]
           [Str "U1"; Str "U2"; Str "U4"; Str "U3"]
           [Str "A"; Str "B"; Str "A"; Str "C"]).
  - vm_compute. reflexivity.
  - repeat constructor.
  - nodup_compute.
  - reflexivity.
  - reflexivity.
  - reflexivity.
  - right. right. right. intros H.
    discriminate (H 0%nat 2%nat (Str "A") (Str "A") (Str "U1") (Str "U4")
                    eq_refl eq_refl eq_refl eq_refl eq_refl).
Defined.
